(** * xz-pixbuf-loader: a shallow embedding of [xz-pixbuf-loader.c]

    The loader drives liblzma's streaming decoder over a fixed scratch
    buffer, copies every drained window into a segment of a
    [GMemoryInputStream], and finally hands the stream to
    [gdk_pixbuf_new_from_stream].

    liblzma and gdk-pixbuf are external libraries: they enter the
    development as the records [liblzma] and [gdkpixbuf] below, and every
    function of the loader is written once, over arbitrary instances.
    Effects (allocation, the calls into the libraries, the callbacks) are
    threaded through a state monad whose state, [World], carries the heap
    of decode contexts, the outcomes of the coming [malloc] calls and the
    log of events performed so far. *)

From Stdlib Require Import String.
From Stdlib Require Import ZArith List Lia Bool PeanoNat.
From Stdlib.Strings Require Import Byte.
Import ListNotations.
Local Open Scope Z_scope.

(** ** Plain data *)

Definition byte := Byte.byte.

(** [lzma_ret] and [lzma_action] of <lzma/base.h>. *)
Inductive lzma_ret : Type :=
| LZMA_OK
| LZMA_STREAM_END
| LZMA_NO_CHECK
| LZMA_UNSUPPORTED_CHECK
| LZMA_GET_CHECK
| LZMA_MEM_ERROR
| LZMA_MEMLIMIT_ERROR
| LZMA_FORMAT_ERROR
| LZMA_OPTIONS_ERROR
| LZMA_DATA_ERROR
| LZMA_BUF_ERROR
| LZMA_PROG_ERROR.

Inductive lzma_action : Type :=
| LZMA_RUN
| LZMA_FINISH.

Definition lzma_ret_eqb (a b : lzma_ret) : bool :=
  match a, b with
  | LZMA_OK, LZMA_OK | LZMA_STREAM_END, LZMA_STREAM_END
  | LZMA_NO_CHECK, LZMA_NO_CHECK
  | LZMA_UNSUPPORTED_CHECK, LZMA_UNSUPPORTED_CHECK
  | LZMA_GET_CHECK, LZMA_GET_CHECK | LZMA_MEM_ERROR, LZMA_MEM_ERROR
  | LZMA_MEMLIMIT_ERROR, LZMA_MEMLIMIT_ERROR
  | LZMA_FORMAT_ERROR, LZMA_FORMAT_ERROR
  | LZMA_OPTIONS_ERROR, LZMA_OPTIONS_ERROR
  | LZMA_DATA_ERROR, LZMA_DATA_ERROR | LZMA_BUF_ERROR, LZMA_BUF_ERROR
  | LZMA_PROG_ERROR, LZMA_PROG_ERROR => true
  | _, _ => false
  end.

Definition UINT64_MAX : Z := 2 ^ 64 - 1.
Definition LZMA_CONCATENATED : Z := 8.

(** [size_t] arithmetic: subtraction wraps around modulo 2^64. *)
Definition size_sub (a b : Z) : Z := (a - b) mod 2 ^ 64.

(** Opaque addresses: the caller's [extra_context], a function pointer
    ([None] is [NULL]), an index into the heap of decode contexts. *)
Definition gpointer := nat.
Definition func_ptr := option nat.
Definition ctx_ptr := nat.

(** The blocks of memory the loader allocates with [malloc]/[calloc]. *)
Inductive resource : Type :=
| R_lzstream
| R_xz_buffer
| R_unxz_buffer
| R_mem_buffer
| R_context.

(** Sizes of the two structs on an LP64 target. *)
Definition sizeof_lzma_stream : Z := 136.
Definition sizeof_XZImageDecodeContext : Z := 80.

(** ** The external libraries *)

(** liblzma.  [lzma_dec] is the engine state behind [strm->internal].
    [lzma_step d input room action] is one call of the engine on the
    [input] bytes with [room] bytes of output space: it answers a status,
    the new engine state, how many input bytes it consumed and the bytes
    it produced. *)
Record liblzma : Type := {
  lzma_dec : Type;
  lzma_stream_decoder : Z -> Z -> lzma_ret * option lzma_dec;
  lzma_step : lzma_dec -> list byte -> nat -> lzma_action ->
              lzma_ret * lzma_dec * nat * list byte
}.

(** gdk-pixbuf: the image decoder and the two accessors the loader uses.
    [gdk_pixbuf_new_from_stream data] is what the call answers for a
    stream that holds [data], [None] for [NULL].  The call is also handed
    the caller's [GError **]: when an error is already set there it
    answers [NULL] without reading the stream, and when it answers [NULL]
    gdk-pixbuf has set the error itself.  The loader makes the call at
    most once in a load and once in a session, so an instance of this
    record stands for the answer of that one call: a statement that
    assumes that the decoder accepts the bytes is about the runs in which
    the call succeeded. *)
Record gdkpixbuf : Type := {
  GdkPixbuf : Type;
  gdk_pixbuf_new_from_stream : list byte -> option GdkPixbuf;
  gdk_pixbuf_get_width : GdkPixbuf -> Z;
  gdk_pixbuf_get_height : GdkPixbuf -> Z
}.

(** A stdio stream, as far as [fread], [feof] and [ferror] observe it:
    the bytes not read yet, the two indicators, and how many more bytes
    can be read before the device faults ([None]: never). *)
Record FILE : Type := {
  f_data : list byte;
  f_eof : bool;
  f_err : bool;
  f_fault : option nat
}.

Definition feof (f : FILE) : bool := f_eof f.
Definition ferror (f : FILE) : bool := f_err f.

Definition fread (n : nat) (f : FILE) : list byte * FILE :=
  let len := length (f_data f) in
  let readable := match f_fault f with
                  | Some k => Nat.min k len
                  | None => len
                  end in
  if (n <=? readable)%nat then
    (firstn n (f_data f),
     {| f_data := skipn n (f_data f); f_eof := f_eof f; f_err := f_err f;
        f_fault := option_map (fun k => (k - n)%nat) (f_fault f) |})
  else
    let faulted := match f_fault f with
                   | Some k => (k <? len)%nat
                   | None => false
                   end in
    (firstn readable (f_data f),
     {| f_data := skipn readable (f_data f);
        f_eof := if faulted then f_eof f else true;
        f_err := if faulted then true else f_err f;
        f_fault := option_map (fun _ => 0%nat) (f_fault f) |}).

Definition is_some {A} (o : option A) : bool :=
  match o with
  | Some _ => true
  | None => false
  end.

(** [memcpy]-style store of [data] at offset [off] of a block. *)
Definition write_at (mem : list byte) (off : nat) (data : list byte)
  : list byte :=
  firstn off mem ++ data ++ skipn (off + length data) mem.

Section Loader.

Variable L : liblzma.
Variable G : gdkpixbuf.

(** Contents of a block fresh from [malloc]: indeterminate. *)
Variable malloc_contents : Z -> list byte.

(** ** The structs *)

(** [lzma_stream].  [next_in] is the run of bytes the pointer designates;
    [next_out] is the offset of the pointer into the output block. *)
Record lzma_stream : Type := {
  next_in : list byte;
  avail_in : Z;
  next_out : Z;
  avail_out : Z;
  internal : option (lzma_dec L)
}.

Definition LZMA_STREAM_INIT : lzma_stream :=
  {| next_in := []; avail_in := 0; next_out := 0; avail_out := 0;
     internal := None |}.

(** A [GMemoryInputStream]: its chunks in the order they were added. *)
Record GMemoryInputStream : Type := {
  chunks : list (list byte);
  closed : bool
}.

Definition g_memory_input_stream_new : GMemoryInputStream :=
  {| chunks := []; closed := false |}.

Definition stream_bytes (s : GMemoryInputStream) : list byte :=
  concat (chunks s).

(** The loader context. *)
Record XZImageDecodeContext : Type := {
  size_func : func_ptr;
  updated_func : func_ptr;
  prepare_func : func_ptr;
  lzstream : option lzma_stream;
  unxz_buffer : option (list byte);
  xz_buffer_size : Z;
  extra_context : gpointer;
  pixbuf : option (GdkPixbuf G);
  error : option nat;
  memory_istream : option GMemoryInputStream
}.

(** What [calloc] returns: every field zero. *)
Definition zeroed_context : XZImageDecodeContext :=
  {| size_func := None; updated_func := None; prepare_func := None;
     lzstream := None; unxz_buffer := None; xz_buffer_size := 0;
     extra_context := 0%nat; pixbuf := None; error := None;
     memory_istream := None |}.

(** ** Events and the world

    An event is a call the loader makes.  [Ev_set_error] is a call of
    [g_set_error]: GLib stores the error when the caller handed in a
    [GError] that is still clear, does nothing when the caller handed in
    [NULL], and keeps the error already there, with a warning, when one
    is set.  [Ev_pixbuf_new_from_stream data ok] is the call of the image
    decoder on a stream that holds [data], [ok] telling whether it
    answered an image. *)

Inductive event : Type :=
| Ev_malloc (r : resource) (n : Z)
| Ev_free (r : resource)
| Ev_lzma_stream_decoder (ret : lzma_ret)
| Ev_lzma_code (action : lzma_action) (ret : lzma_ret) (produced : list byte)
| Ev_lzma_end
| Ev_memory_input_stream_new
| Ev_add_data (segment : list byte)
| Ev_input_stream_close
| Ev_pixbuf_new_from_stream (data : list byte) (ok : bool)
| Ev_object_unref
| Ev_size_func (f : nat) (w h : Z)
| Ev_prepared (f : nat) (pb : GdkPixbuf G) (extra : gpointer)
| Ev_updated (f : nat) (pb : GdkPixbuf G) (x y w h : Z) (extra : gpointer)
| Ev_set_error (message : string)
| Ev_fread (n : Z).

(** [heap]: the decode contexts, [None] once freed.  [alloc_plan]: whether
    the coming [malloc]/[calloc] calls succeed, first call first; when the
    plan is used up every call succeeds.  [trace]: the events so far. *)
Record World : Type := {
  heap : list (option XZImageDecodeContext);
  alloc_plan : list bool;
  trace : list event
}.

Definition initial_world (plan : list bool) : World :=
  {| heap := []; alloc_plan := plan; trace := [] |}.

(** A computation ends with a value and a world, or runs into undefined
    behaviour (an access through a dangling or [NULL] pointer), or is cut
    off because the loop bound of the model is used up. *)
Inductive outcome (A : Type) : Type :=
| Returns (a : A) (w : World)
| Undefined
| OutOfFuel.

Arguments Returns {A} a w.
Arguments Undefined {A}.
Arguments OutOfFuel {A}.

Definition M (A : Type) : Type := World -> outcome A.

Definition ret {A} (a : A) : M A := fun w => Returns a w.

Definition bind {A B} (m : M A) (k : A -> M B) : M B :=
  fun w => match m w with
           | Returns a w' => k a w'
           | Undefined => Undefined
           | OutOfFuel => OutOfFuel
           end.

Definition undefined {A} : M A := fun _ => Undefined.
Definition out_of_fuel {A} : M A := fun _ => OutOfFuel.

Notation "x <- m ;; k" := (bind m (fun x => k))
  (at level 61, m at next level, right associativity).
Notation "m ;;; k" := (bind m (fun _ => k))
  (at level 61, right associativity).

Definition log (e : event) (w : World) : World :=
  {| heap := heap w; alloc_plan := alloc_plan w; trace := trace w ++ [e] |}.

Definition emit (e : event) : M unit := fun w => Returns tt (log e w).

(** Whether the next allocation succeeds, and the plan after it. *)
Definition next_alloc (plan : list bool) : bool * list bool :=
  match plan with
  | [] => (true, [])
  | b :: plan' => (b, plan')
  end.

(** [malloc(n)] for the block [r]: [true] when the result is not [NULL]. *)
Definition malloc (r : resource) (n : Z) : M bool :=
  fun w =>
    let '(ok, plan) := next_alloc (alloc_plan w) in
    Returns ok
      {| heap := heap w; alloc_plan := plan;
         trace := if ok then trace w ++ [Ev_malloc r n] else trace w |}.

Definition free (r : resource) : M unit := emit (Ev_free r).

Fixpoint list_set {A} (l : list A) (i : nat) (x : A) : list A :=
  match l, i with
  | [], _ => []
  | _ :: l', O => x :: l'
  | y :: l', S i' => y :: list_set l' i' x
  end.

(** [calloc(1, sizeof(XZImageDecodeContext))]. *)
Definition calloc_context : M (option ctx_ptr) :=
  fun w =>
    let '(ok, plan) := next_alloc (alloc_plan w) in
    if ok then
      Returns (Some (length (heap w)))
        {| heap := heap w ++ [Some zeroed_context]; alloc_plan := plan;
           trace := trace w ++ [Ev_malloc R_context sizeof_XZImageDecodeContext] |}
    else
      Returns None {| heap := heap w; alloc_plan := plan; trace := trace w |}.

(** Reading and writing through a context pointer; both are undefined on
    a pointer that is not live. *)
Definition deref (p : ctx_ptr) : M XZImageDecodeContext :=
  fun w => match nth_error (heap w) p with
           | Some (Some c) => Returns c w
           | _ => Undefined
           end.

Definition assign (p : ctx_ptr) (c : XZImageDecodeContext) : M unit :=
  fun w => match nth_error (heap w) p with
           | Some (Some _) =>
               Returns tt {| heap := list_set (heap w) p (Some c);
                             alloc_plan := alloc_plan w; trace := trace w |}
           | _ => Undefined
           end.

Definition free_context (p : ctx_ptr) : M unit :=
  fun w => match nth_error (heap w) p with
           | Some (Some _) =>
               Returns tt {| heap := list_set (heap w) p None;
                             alloc_plan := alloc_plan w;
                             trace := trace w ++ [Ev_free R_context] |}
           | _ => Undefined
           end.

(** Dereferencing a pointer field: undefined when it is [NULL]. *)
Definition non_null {A} (o : option A) : M A :=
  match o with
  | Some a => ret a
  | None => undefined
  end.

(** ** Field updates *)

Definition set_in (s : lzma_stream) (buf : list byte) (n : Z) : lzma_stream :=
  {| next_in := buf; avail_in := n; next_out := next_out s;
     avail_out := avail_out s; internal := internal s |}.

Definition set_out (s : lzma_stream) (off n : Z) : lzma_stream :=
  {| next_in := next_in s; avail_in := avail_in s; next_out := off;
     avail_out := n; internal := internal s |}.

Definition set_internal (s : lzma_stream) (d : option (lzma_dec L))
  : lzma_stream :=
  {| next_in := next_in s; avail_in := avail_in s; next_out := next_out s;
     avail_out := avail_out s; internal := d |}.

Definition with_lzstream (c : XZImageDecodeContext) (s : option lzma_stream)
  : XZImageDecodeContext :=
  {| size_func := size_func c; updated_func := updated_func c;
     prepare_func := prepare_func c; lzstream := s;
     unxz_buffer := unxz_buffer c; xz_buffer_size := xz_buffer_size c;
     extra_context := extra_context c; pixbuf := pixbuf c; error := error c;
     memory_istream := memory_istream c |}.

Definition with_unxz_buffer (c : XZImageDecodeContext)
  (b : option (list byte)) (n : Z) : XZImageDecodeContext :=
  {| size_func := size_func c; updated_func := updated_func c;
     prepare_func := prepare_func c; lzstream := lzstream c;
     unxz_buffer := b; xz_buffer_size := n;
     extra_context := extra_context c; pixbuf := pixbuf c; error := error c;
     memory_istream := memory_istream c |}.

Definition with_memory_istream (c : XZImageDecodeContext)
  (m : option GMemoryInputStream) : XZImageDecodeContext :=
  {| size_func := size_func c; updated_func := updated_func c;
     prepare_func := prepare_func c; lzstream := lzstream c;
     unxz_buffer := unxz_buffer c; xz_buffer_size := xz_buffer_size c;
     extra_context := extra_context c; pixbuf := pixbuf c; error := error c;
     memory_istream := m |}.

Definition with_pixbuf (c : XZImageDecodeContext)
  (pb : option (GdkPixbuf G)) : XZImageDecodeContext :=
  {| size_func := size_func c; updated_func := updated_func c;
     prepare_func := prepare_func c; lzstream := lzstream c;
     unxz_buffer := unxz_buffer c; xz_buffer_size := xz_buffer_size c;
     extra_context := extra_context c; pixbuf := pb; error := error c;
     memory_istream := memory_istream c |}.

Definition with_callbacks (c : XZImageDecodeContext)
  (size_f prepare_f updated_f : func_ptr) (extra : gpointer)
  (err : option nat) : XZImageDecodeContext :=
  {| size_func := size_f; updated_func := updated_f;
     prepare_func := prepare_f; lzstream := lzstream c;
     unxz_buffer := unxz_buffer c; xz_buffer_size := xz_buffer_size c;
     extra_context := extra; pixbuf := pixbuf c; error := err;
     memory_istream := memory_istream c |}.

(** ** The calls into the libraries *)

(** [lzma_code(strm, action)] with [out] the block [next_out] points into:
    the engine reads the [avail_in] bytes at [next_in], writes what it
    produces at [next_out], and moves both cursors.  Without an engine
    ([internal] is [NULL]) liblzma answers [LZMA_PROG_ERROR]. *)
Definition lzma_code (strm : lzma_stream) (out : list byte)
  (action : lzma_action) : M (lzma_ret * lzma_stream * list byte) :=
  match internal strm with
  | None =>
      emit (Ev_lzma_code action LZMA_PROG_ERROR []) ;;;
      ret (LZMA_PROG_ERROR, strm, out)
  | Some d =>
      let '(r, d', c, p) :=
        lzma_step L d (firstn (Z.to_nat (avail_in strm)) (next_in strm))
          (Z.to_nat (avail_out strm)) action in
      emit (Ev_lzma_code action r p) ;;;
      ret (r,
           {| next_in := skipn c (next_in strm);
              avail_in := avail_in strm - Z.of_nat c;
              next_out := next_out strm + Z.of_nat (length p);
              avail_out := avail_out strm - Z.of_nat (length p);
              internal := Some d' |},
           write_at out (Z.to_nat (next_out strm)) p)
  end.

(** [g_memory_input_stream_add_data(stream, data, len, free)]. *)
Definition g_memory_input_stream_add_data (s : GMemoryInputStream)
  (data : list byte) : GMemoryInputStream :=
  {| chunks := chunks s ++ [data]; closed := closed s |}.

(** [memcpy(dst, src, n)] into a fresh block: the first [n] bytes of [src];
    reading past the end of [src] is undefined. *)
Definition memcpy (src : list byte) (n : Z) : M (list byte) :=
  if (Z.to_nat n <=? length src)%nat
  then ret (firstn (Z.to_nat n) src)
  else undefined.

(** ** The incremental path *)

(** Start the asynchronous loading process: the [failure] label. *)
Definition begin_load_failure (context : option (ctx_ptr * XZImageDecodeContext))
  (error_message : string) : M (option ctx_ptr) :=
  emit (Ev_set_error error_message) ;;;
  match context with
  | Some (p, c) =>
      (if is_some (lzstream c) then free R_lzstream else ret tt) ;;;
      (if is_some (unxz_buffer c) then free R_unxz_buffer else ret tt) ;;;
      (if is_some (memory_istream c)
       then emit Ev_input_stream_close else ret tt) ;;;
      free_context p ;;;
      ret None
  | None => ret None
  end.

Definition gdk_pixbuf__begin_load_xz_image
  (size_func prepare_func updated_func : func_ptr) (extra_context : gpointer)
  (error : option nat) : M (option ctx_ptr) :=
  p <- calloc_context ;;
  match p with
  | None => begin_load_failure None "Error allocating decode context"
  | Some p =>
      context <- deref p ;;
      ok <- malloc R_lzstream sizeof_lzma_stream ;;
      if negb ok then
        begin_load_failure (Some (p, context))
          "Error allocating lzma stream in context"
      else
        let '(lzret, d) := lzma_stream_decoder L UINT64_MAX LZMA_CONCATENATED in
        let strm := set_internal LZMA_STREAM_INIT d in
        let context := with_lzstream context (Some strm) in
        emit (Ev_lzma_stream_decoder lzret) ;;;
        if negb (lzma_ret_eqb lzret LZMA_OK) then
          begin_load_failure (Some (p, context))
            "Could not create lzma_stream_decoder"
        else
          let size := Z.shiftl 1 16 in
          ok <- malloc R_unxz_buffer size ;;
          if negb ok then
            begin_load_failure (Some (p, with_unxz_buffer context None size))
              "Could not create xz buffers"
          else
            let context :=
              with_unxz_buffer context (Some (malloc_contents size)) size in
            let strm := set_out (set_in strm [] 0) 0 (xz_buffer_size context) in
            let context := with_lzstream context (Some strm) in
            emit Ev_memory_input_stream_new ;;;
            let context :=
              with_memory_istream context (Some g_memory_input_stream_new) in
            let context :=
              with_callbacks context size_func prepare_func updated_func
                extra_context error in
            assign p context ;;;
            ret (Some p)
  end.

(** One round of the [do ... while] loop of [_gdk_pixbuf__lzma_code].  It
    answers the context as the round left it, with [inl error_message] on
    [goto failure] and [inr again] at the [while] test, [again] telling
    whether [avail_in] is not 0. *)
Definition lzma_code_round (context : XZImageDecodeContext)
  (lzaction : lzma_action) : M ((string + bool) * XZImageDecodeContext) :=
  strm <- non_null (lzstream context) ;;
  buffer <- non_null (unxz_buffer context) ;;
  r <- lzma_code strm buffer lzaction ;;
  let '(lzret, strm, buffer) := r in
  let context :=
    with_unxz_buffer (with_lzstream context (Some strm)) (Some buffer)
      (xz_buffer_size context) in
  if lzma_ret_eqb lzret LZMA_OK || lzma_ret_eqb lzret LZMA_STREAM_END then
    let mem_buffer_size :=
      size_sub (xz_buffer_size context) (avail_out strm) in
    ok <- malloc R_mem_buffer mem_buffer_size ;;
    if negb ok then
      ret (inl "Error allocating buffer"%string, context)
    else
      mem_buffer <- memcpy buffer mem_buffer_size ;;
      stream <- non_null (memory_istream context) ;;
      emit (Ev_add_data mem_buffer) ;;;
      let context :=
        with_memory_istream context
          (Some (g_memory_input_stream_add_data stream mem_buffer)) in
      let strm := set_out strm 0 (xz_buffer_size context) in
      let context := with_lzstream context (Some strm) in
      ret (inr (negb (avail_in strm =? 0)), context)
  else
    ret (inl "Error with lzma decode"%string, context).

(** The loop itself, at most [fuel] rounds of it: [None] when the loop ran
    to its end, [Some error_message] on [goto failure]. *)
Fixpoint lzma_code_loop (fuel : nat) (context : XZImageDecodeContext)
  (lzaction : lzma_action) : M (option string * XZImageDecodeContext) :=
  match fuel with
  | O => out_of_fuel
  | S fuel' =>
      r <- lzma_code_round context lzaction ;;
      match r with
      | (inl error_message, context) => ret (Some error_message, context)
      | (inr true, context) => lzma_code_loop fuel' context lzaction
      | (inr false, context) => ret (None, context)
      end
  end.

(** Here we do the actual LZMA decoding.  [buf] stands for the [size]
    bytes at [buf]. *)
Definition _gdk_pixbuf__lzma_code (fuel : nat) (user_context : ctx_ptr)
  (buf : list byte) (lzaction : lzma_action) : M bool :=
  context <- deref user_context ;;
  strm <- non_null (lzstream context) ;;
  let strm := set_in strm buf (Z.of_nat (length buf)) in
  let context := with_lzstream context (Some strm) in
  r <- lzma_code_loop fuel context lzaction ;;
  let '(failure, context) := r in
  assign user_context context ;;;
  match failure with
  | None => ret true
  | Some error_message => emit (Ev_set_error error_message) ;;; ret false
  end.

(** Finish decoding the image, and render it. *)
Definition gdk_pixbuf__stop_load_xz_image (fuel : nat)
  (user_context : ctx_ptr) : M bool :=
  r <- _gdk_pixbuf__lzma_code fuel user_context [] LZMA_FINISH ;;
  context <- deref user_context ;;
  strm <- non_null (lzstream context) ;;
  emit Ev_lzma_end ;;;
  let context := with_lzstream context (Some (set_internal strm None)) in
  stream <- non_null (memory_istream context) ;;
  let pb := gdk_pixbuf_new_from_stream G (stream_bytes stream) in
  emit (Ev_pixbuf_new_from_stream (stream_bytes stream) (is_some pb)) ;;;
  let context := with_pixbuf context pb in
  let r := if is_some pb then r else false in
  emit Ev_input_stream_close ;;;
  let context :=
    with_memory_istream context
      (Some {| chunks := chunks stream; closed := true |}) in
  assign user_context context ;;;
  match pixbuf context, prepare_func context with
  | Some pb, Some f => emit (Ev_prepared f pb (extra_context context))
  | _, _ => ret tt
  end ;;;
  match pixbuf context, updated_func context with
  | Some pb, Some f =>
      emit (Ev_updated f pb 0 0 (gdk_pixbuf_get_width G pb)
              (gdk_pixbuf_get_height G pb) (extra_context context))
  | _, _ => ret tt
  end ;;;
  emit Ev_object_unref ;;;
  free R_lzstream ;;;
  free R_unxz_buffer ;;;
  free_context user_context ;;;
  ret r.

(** Incrementally decode lzma. *)
Definition gdk_pixbuf__load_xz_image_increment (fuel : nat)
  (user_context : ctx_ptr) (buf : list byte) : M bool :=
  _gdk_pixbuf__lzma_code fuel user_context buf LZMA_RUN.

(** ** The one-shot path *)

(** The pointers that are live when [gdk_pixbuf__load_xz_image] jumps to
    its [failure] label. *)
Record load_locals : Type := {
  l_xz_buffer : option (list byte);
  l_unxz_buffer : option (list byte);
  l_lzstream : option lzma_stream;
  l_memory_istream : option GMemoryInputStream
}.

Definition load_failure (l : load_locals) (error_message : string)
  : M (option (GdkPixbuf G)) :=
  emit (Ev_set_error error_message) ;;;
  (if is_some (l_xz_buffer l) then free R_xz_buffer else ret tt) ;;;
  (if is_some (l_unxz_buffer l) then free R_unxz_buffer else ret tt) ;;;
  (if is_some (l_lzstream l) then free R_lzstream else ret tt) ;;;
  (if is_some (l_memory_istream l)
   then emit Ev_input_stream_close else ret tt) ;;;
  ret None.

Definition buffer_size : Z := Z.shiftl 1 20.

(** What a round of the [while (TRUE)] loop carries over to the next:
    the file, the two blocks, the stream, the action, the memory stream. *)
Record load_state : Type := {
  ls_file : FILE;
  ls_xz_buffer : list byte;
  ls_unxz_buffer : list byte;
  ls_strm : lzma_stream;
  ls_lzaction : lzma_action;
  ls_stream : GMemoryInputStream
}.

(** The first statement of the loop body: refill the input when it is
    used up and the file has more. *)
Definition load_refill (s : load_state) : M (option string * load_state) :=
  if (avail_in (ls_strm s) =? 0) && negb (feof (ls_file s)) then
    let '(data, file) := fread (Z.to_nat buffer_size) (ls_file s) in
    let bytes_read := Z.of_nat (length data) in
    let xz_buffer := write_at (ls_xz_buffer s) 0 data in
    emit (Ev_fread bytes_read) ;;;
    if (bytes_read <? buffer_size) && ferror file then
      ret (Some "Error reading file with fread"%string,
           {| ls_file := file; ls_xz_buffer := xz_buffer;
              ls_unxz_buffer := ls_unxz_buffer s; ls_strm := ls_strm s;
              ls_lzaction := ls_lzaction s; ls_stream := ls_stream s |})
    else
      ret (None,
           {| ls_file := file; ls_xz_buffer := xz_buffer;
              ls_unxz_buffer := ls_unxz_buffer s;
              ls_strm := set_in (ls_strm s) xz_buffer bytes_read;
              ls_lzaction :=
                if feof file then LZMA_FINISH else ls_lzaction s;
              ls_stream := ls_stream s |})
  else ret (None, s).

(** The rest of the body: one call of the engine, the drain when the
    window is full or the stream has ended, the test of the status.  It
    answers [inl error_message] on [goto failure], [inr false] on [break],
    [inr true] to go round again. *)
Definition load_decode (s : load_state) : M ((string + bool) * load_state) :=
  r <- lzma_code (ls_strm s) (ls_unxz_buffer s) (ls_lzaction s) ;;
  let '(lzret, strm, unxz_buffer) := r in
  let s :=
    {| ls_file := ls_file s; ls_xz_buffer := ls_xz_buffer s;
       ls_unxz_buffer := unxz_buffer; ls_strm := strm;
       ls_lzaction := ls_lzaction s; ls_stream := ls_stream s |} in
  r <- (if (avail_out strm =? 0) || lzma_ret_eqb lzret LZMA_STREAM_END then
          let mem_buffer_size := size_sub buffer_size (avail_out strm) in
          ok <- malloc R_mem_buffer mem_buffer_size ;;
          if negb ok then ret (Some "Error allocating memory"%string, s)
          else
            mem_buffer <- memcpy unxz_buffer mem_buffer_size ;;
            emit (Ev_add_data mem_buffer) ;;;
            ret (None,
                 {| ls_file := ls_file s; ls_xz_buffer := ls_xz_buffer s;
                    ls_unxz_buffer := unxz_buffer;
                    ls_strm := set_out strm 0 buffer_size;
                    ls_lzaction := ls_lzaction s;
                    ls_stream :=
                      g_memory_input_stream_add_data (ls_stream s)
                        mem_buffer |})
        else ret (None, s)) ;;
  let '(failure, s) := r in
  match failure with
  | Some error_message => ret (inl error_message, s)
  | None =>
      if negb (lzma_ret_eqb lzret LZMA_OK) then
        if lzma_ret_eqb lzret LZMA_STREAM_END
        then ret (inr false, s)
        else ret (inl "Some LZMA error occurred"%string, s)
      else ret (inr true, s)
  end.

(** The [while (TRUE)] loop, at most [fuel] rounds of it: [None] on
    [break], [Some error_message] on [goto failure]. *)
Fixpoint load_loop (fuel : nat) (s : load_state)
  : M (option string * load_state) :=
  match fuel with
  | O => out_of_fuel
  | S fuel' =>
      r <- load_refill s ;;
      match r with
      | (Some error_message, s) => ret (Some error_message, s)
      | (None, s) =>
          r <- load_decode s ;;
          match r with
          | (inl error_message, s) => ret (Some error_message, s)
          | (inr true, s) => load_loop fuel' s
          | (inr false, s) => ret (None, s)
          end
      end
  end.

(** Load xz-compressed image directly in one go. *)
Definition gdk_pixbuf__load_xz_image (fuel : nat) (file : FILE)
  : M (option (GdkPixbuf G)) :=
  let l := {| l_xz_buffer := None; l_unxz_buffer := None;
              l_lzstream := None; l_memory_istream := None |} in
  ok <- malloc R_lzstream sizeof_lzma_stream ;;
  if negb ok then load_failure l "Failed to allocate lzma_stream"
  else
    let '(lzret, d) := lzma_stream_decoder L UINT64_MAX LZMA_CONCATENATED in
    let strm := set_internal LZMA_STREAM_INIT d in
    emit (Ev_lzma_stream_decoder lzret) ;;;
    if negb (lzma_ret_eqb lzret LZMA_OK) then
      load_failure
        {| l_xz_buffer := None; l_unxz_buffer := None;
           l_lzstream := Some strm; l_memory_istream := None |}
        "Could not create lzma_stream_decoder"
    else
      ok1 <- malloc R_xz_buffer buffer_size ;;
      ok2 <- malloc R_unxz_buffer buffer_size ;;
      let xz_buffer :=
        if ok1 then Some (malloc_contents buffer_size) else None in
      let unxz_buffer :=
        if ok2 then Some (malloc_contents buffer_size) else None in
      match xz_buffer, unxz_buffer with
      | Some xz_buf, Some unxz_buf =>
          let lzaction := LZMA_RUN in
          let strm := set_out (set_in strm [] 0) 0 buffer_size in
          emit Ev_memory_input_stream_new ;;;
          r <- load_loop fuel
                 {| ls_file := file; ls_xz_buffer := xz_buf;
                    ls_unxz_buffer := unxz_buf; ls_strm := strm;
                    ls_lzaction := lzaction;
                    ls_stream := g_memory_input_stream_new |} ;;
          let '(failure, s) := r in
          let stream := ls_stream s in
          let l := {| l_xz_buffer := xz_buffer; l_unxz_buffer := unxz_buffer;
                      l_lzstream := Some (ls_strm s);
                      l_memory_istream := Some stream |} in
          match failure with
          | Some error_message => load_failure l error_message
          | None =>
              let pixbuf := gdk_pixbuf_new_from_stream G (stream_bytes stream) in
              emit (Ev_pixbuf_new_from_stream (stream_bytes stream)
                      (is_some pixbuf)) ;;;
              match pixbuf with
              | None =>
                  load_failure l "Could not create pixbuf from memory stream"
              | Some pb =>
                  emit Ev_input_stream_close ;;;
                  emit Ev_lzma_end ;;;
                  free R_lzstream ;;;
                  free R_xz_buffer ;;;
                  free R_unxz_buffer ;;;
                  ret (Some pb)
              end
          end
      | _, _ =>
          load_failure
            {| l_xz_buffer := xz_buffer; l_unxz_buffer := unxz_buffer;
               l_lzstream := Some strm; l_memory_istream := None |}
            "Could not allocate xz data buffers"
      end.

(** ** Clients of the module *)

(** Any sequence of calls of [_gdk_pixbuf__lzma_code] on one context. *)
Fixpoint feed_all (fuel : nat) (p : ctx_ptr)
  (calls : list (list byte * lzma_action)) : M (list bool) :=
  match calls with
  | [] => ret []
  | (buf, lzaction) :: calls' =>
      r <- _gdk_pixbuf__lzma_code fuel p buf lzaction ;;
      rs <- feed_all fuel p calls' ;;
      ret (r :: rs)
  end.

(** The chunks of a file pushed in order through [load_increment]. *)
Fixpoint push_all (fuel : nat) (p : ctx_ptr) (chunks : list (list byte))
  : M (list bool) :=
  match chunks with
  | [] => ret []
  | buf :: chunks' =>
      r <- gdk_pixbuf__load_xz_image_increment fuel p buf ;;
      rs <- push_all fuel p chunks' ;;
      ret (r :: rs)
  end.

(** A whole incremental session, as [GdkPixbufLoader] drives it:
    [begin_load], every chunk in order, [stop_load].  It answers what the
    pushes and [stop_load] returned, [None] when [begin_load] failed. *)
Definition session (fuel : nat) (size_func prepare_func updated_func : func_ptr)
  (extra_context : gpointer) (chunks : list (list byte))
  : M (option (list bool * bool)) :=
  p <- gdk_pixbuf__begin_load_xz_image size_func prepare_func updated_func
         extra_context None ;;
  match p with
  | None => ret None
  | Some p =>
      rs <- push_all fuel p chunks ;;
      r <- gdk_pixbuf__stop_load_xz_image fuel p ;;
      ret (Some (rs, r))
  end.

(** ** Reading a trace *)

(** The events performed between two worlds of one run. *)
Definition events_since (w w' : World) : list event :=
  skipn (length (trace w)) (trace w').

(** The segments appended to the memory stream, in order, and the byte
    sequence they accumulate to. *)
Fixpoint segments (t : list event) : list (list byte) :=
  match t with
  | [] => []
  | Ev_add_data seg :: t' => seg :: segments t'
  | _ :: t' => segments t'
  end.

Definition accumulated (t : list event) : list byte := concat (segments t).

Definition is_size_call (e : event) : bool :=
  match e with
  | Ev_size_func _ _ _ => true
  | _ => false
  end.

Definition is_callback (e : event) : bool :=
  match e with
  | Ev_size_func _ _ _ | Ev_prepared _ _ _ | Ev_updated _ _ _ _ _ _ _ => true
  | _ => false
  end.

Definition is_set_error (e : event) : bool :=
  match e with
  | Ev_set_error _ => true
  | _ => false
  end.

Definition is_image_decode (e : event) : bool :=
  match e with
  | Ev_pixbuf_new_from_stream _ _ => true
  | _ => false
  end.

Definition is_lzma_code (e : event) : bool :=
  match e with
  | Ev_lzma_code _ _ _ => true
  | _ => false
  end.

(** The events of the decompression loop: the engine calls, the segment
    allocations, the segments appended. *)
Definition is_decode_event (e : event) : bool :=
  match e with
  | Ev_lzma_code _ _ _ | Ev_malloc R_mem_buffer _ | Ev_add_data _ => true
  | _ => false
  end.

(** The events of a call of [_gdk_pixbuf__lzma_code]. *)
Definition is_feed_event (e : event) : bool :=
  is_decode_event e || is_set_error e.

(** The callback invocations of a trace, in order. *)
Definition callbacks (t : list event) : list event := filter is_callback t.

(** What a trace leaves allocated.  A block is owned from its [malloc]
    to its [free]; the engine state from a successful
    [lzma_stream_decoder] to [lzma_end].  The memory stream is owned
    from [g_memory_input_stream_new] on: [g_input_stream_close] frees
    nothing, and the loader has no [g_object_unref] for the stream (its
    only one is for the pixbuf), so no event of the loader takes the
    stream off the ledger.  A segment passes to the stream when it is
    appended ([free] is its destroy notifier): the stream frees it when
    it is finalised, so it stays on the ledger, as a segment of the
    stream.  The pixbuf is not on the ledger: [stop_load] drops its
    reference and the one-shot load hands it to its caller. *)
Inductive owned : Type :=
| O_block (r : resource)
| O_engine
| O_stream
| O_segment.

Definition resource_eqb (a b : resource) : bool :=
  match a, b with
  | R_lzstream, R_lzstream | R_xz_buffer, R_xz_buffer
  | R_unxz_buffer, R_unxz_buffer | R_mem_buffer, R_mem_buffer
  | R_context, R_context => true
  | _, _ => false
  end.

Definition owned_eqb (a b : owned) : bool :=
  match a, b with
  | O_block r, O_block r' => resource_eqb r r'
  | O_engine, O_engine | O_stream, O_stream | O_segment, O_segment => true
  | _, _ => false
  end.

Fixpoint release (o : owned) (live : list owned) : list owned :=
  match live with
  | [] => []
  | o' :: live' => if owned_eqb o o' then live' else o' :: release o live'
  end.

Fixpoint outstanding_from (live : list owned) (t : list event) : list owned :=
  match t with
  | [] => live
  | e :: t' =>
      outstanding_from
        match e with
        | Ev_malloc r _ => live ++ [O_block r]
        | Ev_free r => release (O_block r) live
        | Ev_add_data _ => release (O_block R_mem_buffer) live ++ [O_segment]
        | Ev_lzma_stream_decoder LZMA_OK => live ++ [O_engine]
        | Ev_lzma_end => release O_engine live
        | Ev_memory_input_stream_new => live ++ [O_stream]
        | _ => live
        end t'
  end.

Definition outstanding (t : list event) : list owned := outstanding_from [] t.

(** The callbacks [stop_load] invokes for a context, given what the image
    decoder answered. *)
Definition callbacks_fired (c : XZImageDecodeContext)
  (pb : option (GdkPixbuf G)) : list event :=
  match pb with
  | None => []
  | Some pb =>
      match prepare_func c with
      | Some f => [Ev_prepared f pb (extra_context c)]
      | None => []
      end ++
      match updated_func c with
      | Some f =>
          [Ev_updated f pb 0 0 (gdk_pixbuf_get_width G pb)
             (gdk_pixbuf_get_height G pb) (extra_context c)]
      | None => []
      end
  end.

(** The events [stop_load] performs once its flush is over, for a context
    [c] whose memory stream holds [data]. *)
Definition closing_events (c : XZImageDecodeContext) (data : list byte)
  : list event :=
  [Ev_lzma_end;
   Ev_pixbuf_new_from_stream data
     (is_some (gdk_pixbuf_new_from_stream G data));
   Ev_input_stream_close]
  ++ callbacks_fired c (gdk_pixbuf_new_from_stream G data)
  ++ [Ev_object_unref; Ev_free R_lzstream; Ev_free R_unxz_buffer;
      Ev_free R_context].

(** ** The scratch window along a trace

    [window_run cap win t win'] follows a trace [t] from a scratch buffer
    of capacity [cap] that holds the bytes [win] written since its last
    reset: every engine call extends the window by what it produced and
    must stay within [cap]; every segment allocation asks for exactly the
    size of the window; every segment appended is exactly the window, and
    resets it.  [win'] is the window at the end of [t]. *)
Inductive window_run (cap : Z) : list byte -> list event -> list byte -> Prop :=
| wr_nil win :
    window_run cap win [] win
| wr_code win action r p t win' :
    Z.of_nat (length (win ++ p)) <= cap ->
    window_run cap (win ++ p) t win' ->
    window_run cap win (Ev_lzma_code action r p :: t) win'
| wr_alloc win t win' :
    window_run cap win t win' ->
    window_run cap win (Ev_malloc R_mem_buffer (Z.of_nat (length win)) :: t) win'
| wr_drain win t win' :
    window_run cap [] t win' ->
    window_run cap win (Ev_add_data win :: t) win'
| wr_other win e t win' :
    is_lzma_code e = false ->
    (forall n, e <> Ev_malloc R_mem_buffer n) ->
    (forall seg, e <> Ev_add_data seg) ->
    window_run cap win t win' ->
    window_run cap win (e :: t) win'.

(** The trace [t] continues the trace [t0] by a run of the window that
    starts empty and ends as [win]. *)
Definition tracks (cap : Z) (t0 t : list event) (win : list byte) : Prop :=
  exists evs, t = t0 ++ evs /\ window_run cap [] evs win.

(** A stream and its output block, when the block has [cap] bytes and
    [win] is what was written to it since the last reset: the write cursor
    [cap - avail_out] is the length of [win], it is within [cap], and the
    block starts with [win]. *)
Definition window_at (cap : Z) (win : list byte) (strm : lzma_stream)
  (buffer : list byte) : Prop :=
  length buffer = Z.to_nat cap
  /\ Z.of_nat (length win) <= cap
  /\ next_out strm = Z.of_nat (length win)
  /\ avail_out strm = cap - Z.of_nat (length win)
  /\ firstn (length win) buffer = win.

(** The same for the stream and the scratch buffer of a context. *)
Definition window_ok (cap : Z) (win : list byte) (c : XZImageDecodeContext)
  : Prop :=
  exists strm buffer,
    lzstream c = Some strm
    /\ unxz_buffer c = Some buffer
    /\ xz_buffer_size c = cap
    /\ window_at cap win strm buffer.

(** ** Contracts on the engine *)

(** Every call of the engine stays within the buffers it is given. *)
Definition engine_bounds : Prop :=
  forall d inp room action r d' c p,
    lzma_step L d inp room action = (r, d', c, p) ->
    (c <= length inp)%nat /\ (length p <= room)%nat.

(** [malloc(n)] hands out a block of [n] bytes. *)
Definition malloc_sized : Prop :=
  forall n, 0 <= n -> length (malloc_contents n) = Z.to_nat n.

(** The streaming contract of a decoder created with
    [LZMA_CONCATENATED].  [plain i] is the payload carried by the input
    [i]; [valid s] says that [s] is a complete, well-formed file;
    [consumed d i o] says that the engine state [d] has read [i] and
    written [o] since it was created.  On input that continues a valid
    file a call under [LZMA_RUN] succeeds and makes progress, and the
    engine never writes more than the payload of the file; once a valid
    file has been read to its end, the flushing call writes what is left
    of the payload and reports the end of the stream. *)
Record stream_contract : Type := {
  plain : list byte -> list byte;
  valid : list byte -> Prop;
  consumed : lzma_dec L -> list byte -> list byte -> Prop;
  contract_init :
    exists d0,
      lzma_stream_decoder L UINT64_MAX LZMA_CONCATENATED = (LZMA_OK, Some d0)
      /\ consumed d0 [] [];
  contract_run :
    forall s d i o inp rest room r d' c p,
      valid s -> consumed d i o -> s = i ++ inp ++ rest ->
      inp <> [] -> (0 < room)%nat ->
      lzma_step L d inp room LZMA_RUN = (r, d', c, p) ->
      (r = LZMA_OK \/ r = LZMA_STREAM_END)
      /\ (c <= length inp)%nat /\ (length p <= room)%nat
      /\ (0 < c \/ 0 < length p)%nat
      /\ consumed d' (i ++ firstn c inp) (o ++ p);
  contract_output :
    forall s d i o rest,
      valid s -> consumed d i o -> s = i ++ rest ->
      (length o <= length (plain s))%nat;
  contract_finish :
    forall s d o room r d' c p,
      valid s -> consumed d s o -> (0 < room)%nat ->
      lzma_step L d [] room LZMA_FINISH = (r, d', c, p) ->
      r = LZMA_STREAM_END /\ c = 0%nat /\ (length p <= room)%nat
      /\ o ++ p = plain s
}.

(** ** Correctness of a computation

    [wp m Q w]: if [m] returns from the world [w], the result satisfies
    [Q].  [twp m Q w]: [m] does return from [w], and the result satisfies
    [Q]. *)

Definition twp {A} (m : M A) (Q : A -> World -> Prop) (w : World) : Prop :=
  match m w with
  | Returns a w' => Q a w'
  | Undefined => False
  | OutOfFuel => False
  end.


Definition wp {A} (m : M A) (Q : A -> World -> Prop) (w : World) : Prop :=
  match m w with
  | Returns a w' => Q a w'
  | Undefined => True
  | OutOfFuel => True
  end.

(** ** States of a context *)

(** A context between two calls of the engine, with a fresh window: the
    input still to read is [inp], the engine state is [d], the scratch
    buffer has [cap] bytes. *)
Definition at_rest (cap : Z) (c : XZImageDecodeContext) (inp : list byte)
  (d : lzma_dec L) : Prop :=
  exists strm buffer stream,
    lzstream c = Some strm
    /\ unxz_buffer c = Some buffer
    /\ memory_istream c = Some stream
    /\ xz_buffer_size c = cap
    /\ length buffer = Z.to_nat cap
    /\ next_in strm = inp
    /\ avail_in strm = Z.of_nat (length inp)
    /\ next_out strm = 0
    /\ avail_out strm = cap
    /\ internal strm = Some d.

(** What [begin_load] was given and the loader never changes. *)
Definition same_callbacks (c c' : XZImageDecodeContext) : Prop :=
  size_func c' = size_func c
  /\ prepare_func c' = prepare_func c
  /\ updated_func c' = updated_func c
  /\ extra_context c' = extra_context c
  /\ xz_buffer_size c' = xz_buffer_size c.

(** The memory stream of [c'] is that of [c] with the segments of the
    trace [evs] appended. *)
Definition extends_stream (c c' : XZImageDecodeContext) (evs : list event)
  : Prop :=
  forall s, memory_istream c = Some s ->
    exists s', memory_istream c' = Some s'
               /\ chunks s' = chunks s ++ segments evs.

(** The context of a session just opened, over the engine state [d]. *)
Definition opened_context (size_f prepare_f updated_f : func_ptr)
  (extra : gpointer) (err : option nat) (d : option (lzma_dec L))
  : XZImageDecodeContext :=
  {| size_func := size_f; updated_func := updated_f;
     prepare_func := prepare_f;
     lzstream := Some {| next_in := []; avail_in := 0; next_out := 0;
                         avail_out := Z.shiftl 1 16; internal := d |};
     unxz_buffer := Some (malloc_contents (Z.shiftl 1 16));
     xz_buffer_size := Z.shiftl 1 16;
     extra_context := extra; pixbuf := None; error := err;
     memory_istream := Some g_memory_input_stream_new |}.

(** The events of a successful [begin_load]. *)
Definition opening_events : list event :=
  [Ev_malloc R_context sizeof_XZImageDecodeContext;
   Ev_malloc R_lzstream sizeof_lzma_stream;
   Ev_lzma_stream_decoder LZMA_OK;
   Ev_malloc R_unxz_buffer (Z.shiftl 1 16);
   Ev_memory_input_stream_new].

(** [p] points to a live context that holds the given callbacks. *)
Definition holds_callbacks (w : World) (p : ctx_ptr)
  (size_f prepare_f updated_f : func_ptr) (extra : gpointer) : Prop :=
  exists c,
    nth_error (heap w) p = Some (Some c)
    /\ size_func c = size_f
    /\ prepare_func c = prepare_f
    /\ updated_func c = updated_f
    /\ extra_context c = extra.

(** The state the claim speaks of: nothing left of the chunk, and the
    scratch window reset to the start of the buffer at full capacity. *)
Definition ready_for_next_chunk (context : XZImageDecodeContext) : Prop :=
  exists strm,
    lzstream context = Some strm
    /\ avail_in strm = 0
    /\ next_out strm = 0
    /\ avail_out strm = xz_buffer_size context.


End Loader.

(** The two libraries are left implicit from here on. *)
Arguments LZMA_STREAM_INIT {L}.
Arguments zeroed_context {L G}.
Arguments initial_world {L G}.
Arguments ret {L G A} a.
Arguments bind {L G A B} m k.
Arguments undefined {L G A}.
Arguments out_of_fuel {L G A}.
Arguments log {L G}.
Arguments emit {L G}.
Arguments malloc {L G}.
Arguments free {L G}.
Arguments calloc_context {L G}.
Arguments deref {L G}.
Arguments assign {L G}.
Arguments free_context {L G}.
Arguments non_null {L G A} o.
Arguments set_in {L}.
Arguments set_out {L}.
Arguments set_internal {L}.
Arguments with_lzstream {L G}.
Arguments with_unxz_buffer {L G}.
Arguments with_memory_istream {L G}.
Arguments with_pixbuf {L G}.
Arguments with_callbacks {L G}.
Arguments lzma_code {L G}.
Arguments memcpy {L G}.
Arguments begin_load_failure {L G}.
Arguments gdk_pixbuf__begin_load_xz_image {L G}.
Arguments lzma_code_loop {L G}.
Arguments _gdk_pixbuf__lzma_code {L G}.
Arguments gdk_pixbuf__stop_load_xz_image {L G}.
Arguments gdk_pixbuf__load_xz_image_increment {L G}.
Arguments load_failure {L G}.
Arguments load_loop {L G}.
Arguments gdk_pixbuf__load_xz_image {L G}.
Arguments feed_all {L G}.
Arguments push_all {L G}.
Arguments session {L G}.
Arguments segments {G}.
Arguments accumulated {G}.
Arguments is_size_call {G}.
Arguments is_callback {G}.
Arguments is_set_error {G}.
Arguments is_image_decode {G}.
Arguments is_lzma_code {G}.
Arguments callbacks {G}.
Arguments wp {L G A} m Q w.
Arguments next_in {L}.
Arguments avail_in {L}.
Arguments next_out {L}.
Arguments avail_out {L}.
Arguments internal {L}.
Arguments size_func {L G}.
Arguments updated_func {L G}.
Arguments prepare_func {L G}.
Arguments lzstream {L G}.
Arguments unxz_buffer {L G}.
Arguments xz_buffer_size {L G}.
Arguments extra_context {L G}.
Arguments pixbuf {L G}.
Arguments error {L G}.
Arguments memory_istream {L G}.
Arguments heap {L G}.
Arguments alloc_plan {L G}.
Arguments trace {L G}.
Arguments l_xz_buffer {L}.
Arguments l_unxz_buffer {L}.
Arguments l_lzstream {L}.
Arguments l_memory_istream {L}.
Arguments plain {L}.
Arguments valid {L}.
Arguments consumed {L}.
Arguments contract_init {L}.
Arguments contract_run {L}.
Arguments contract_output {L}.
Arguments contract_finish {L}.
Arguments Ev_malloc {G}.
Arguments Ev_free {G}.
Arguments Ev_lzma_stream_decoder {G}.
Arguments Ev_lzma_code {G}.
Arguments Ev_lzma_end {G}.
Arguments Ev_memory_input_stream_new {G}.
Arguments Ev_add_data {G}.
Arguments Ev_input_stream_close {G}.
Arguments Ev_pixbuf_new_from_stream {G}.
Arguments Ev_object_unref {G}.
Arguments Ev_size_func {G}.
Arguments Ev_prepared {G}.
Arguments Ev_updated {G}.
Arguments Ev_set_error {G}.
Arguments Ev_fread {G}.
Arguments window_run {G}.
Arguments wr_nil {G}.
Arguments wr_code {G}.
Arguments wr_alloc {G}.
Arguments wr_drain {G}.
Arguments wr_other {G}.
Arguments Returns {L G A} a w.
Arguments Undefined {L G A}.
Arguments OutOfFuel {L G A}.
Arguments ready_for_next_chunk {L G}.
Arguments is_decode_event {G}.
Arguments same_callbacks {L G}.
Arguments holds_callbacks {L G}.
Arguments callbacks_fired {L G}.
Arguments opened_context {L G}.
Arguments opening_events {G}.
Arguments is_feed_event {G}.
Arguments closing_events {L G}.
Arguments events_since {L G}.
Arguments extends_stream {L G}.
Arguments window_at {L}.
Arguments window_ok {L G}.
Arguments lzma_code_round {L G}.
Arguments load_refill {L G}.
Arguments load_decode {L G}.
Arguments ls_file {L}.
Arguments ls_xz_buffer {L}.
Arguments ls_unxz_buffer {L}.
Arguments ls_strm {L}.
Arguments ls_lzaction {L}.
Arguments ls_stream {L}.
Arguments tracks {G}.
Arguments twp {L G A} m Q w.
Arguments at_rest {L G}.
Arguments outstanding_from {G}.
Arguments outstanding {G}.
(** ** More ways to read a trace *)

(** The messages [gdk_pixbuf__load_xz_image] hands to [g_set_error]. *)
Definition load_messages : list string :=
  ["Failed to allocate lzma_stream";
   "Could not create lzma_stream_decoder";
   "Could not allocate xz data buffers";
   "Error reading file with fread";
   "Error allocating memory";
   "Some LZMA error occurred";
   "Could not create pixbuf from memory stream"]%string.

(** The messages [gdk_pixbuf__begin_load_xz_image] hands to
    [g_set_error]. *)
Definition begin_load_messages : list string :=
  ["Error allocating decode context";
   "Error allocating lzma stream in context";
   "Could not create lzma_stream_decoder";
   "Could not create xz buffers"]%string.

(** The events of a decompression loop: reads of the file, calls of the
    engine, and segment allocations, each followed at once by the append
    that hands the segment to the memory stream. *)
Inductive loop_events {G : gdkpixbuf} : list (event G) -> Prop :=
| le_nil : loop_events []
| le_fread n t : loop_events t -> loop_events (Ev_fread n :: t)
| le_code action r p t :
    loop_events t -> loop_events (Ev_lzma_code action r p :: t)
| le_drain n seg t :
    loop_events t ->
    loop_events (Ev_malloc R_mem_buffer n :: Ev_add_data seg :: t).

(** The exits of [gdk_pixbuf__load_xz_image], by the events of the call.
    [load_opening] are its events up to the loop, [load_unwinding] those
    of its [failure] label once both buffers and the memory stream
    exist. *)
Definition load_opening {G : gdkpixbuf} : list (event G) :=
  [Ev_malloc R_lzstream sizeof_lzma_stream;
   Ev_lzma_stream_decoder LZMA_OK;
   Ev_malloc R_xz_buffer buffer_size;
   Ev_malloc R_unxz_buffer buffer_size;
   Ev_memory_input_stream_new].

Definition load_unwinding {G : gdkpixbuf} (message : string)
  : list (event G) :=
  [Ev_set_error message; Ev_free R_xz_buffer; Ev_free R_unxz_buffer;
   Ev_free R_lzstream; Ev_input_stream_close].

Inductive load_exit {G : gdkpixbuf}
  : option (GdkPixbuf G) -> list (event G) -> Prop :=
| exit_no_stream :
    load_exit None [Ev_set_error "Failed to allocate lzma_stream"]
| exit_no_decoder lzret :
    lzret <> LZMA_OK ->
    load_exit None
      [Ev_malloc R_lzstream sizeof_lzma_stream;
       Ev_lzma_stream_decoder lzret;
       Ev_set_error "Could not create lzma_stream_decoder";
       Ev_free R_lzstream]
| exit_no_buffers (ok1 ok2 : bool) :
    ok1 && ok2 = false ->
    load_exit None
      ([Ev_malloc R_lzstream sizeof_lzma_stream;
        Ev_lzma_stream_decoder LZMA_OK]
       ++ (if ok1 then [Ev_malloc R_xz_buffer buffer_size] else [])
       ++ (if ok2 then [Ev_malloc R_unxz_buffer buffer_size] else [])
       ++ [Ev_set_error "Could not allocate xz data buffers"]
       ++ (if ok1 then [Ev_free R_xz_buffer] else [])
       ++ (if ok2 then [Ev_free R_unxz_buffer] else [])
       ++ [Ev_free R_lzstream])
| exit_loop lp message :
    loop_events lp ->
    In message ["Error reading file with fread"; "Error allocating memory";
                "Some LZMA error occurred"]%string ->
    load_exit None (load_opening ++ lp ++ load_unwinding message)
| exit_rejected lp :
    loop_events lp ->
    gdk_pixbuf_new_from_stream G (accumulated lp) = None ->
    load_exit None
      (load_opening ++ lp
       ++ Ev_pixbuf_new_from_stream (accumulated lp) false
          :: load_unwinding "Could not create pixbuf from memory stream")
| exit_image lp pb :
    loop_events lp ->
    gdk_pixbuf_new_from_stream G (accumulated lp) = Some pb ->
    load_exit (Some pb)
      (load_opening ++ lp
       ++ [Ev_pixbuf_new_from_stream (accumulated lp) true;
           Ev_input_stream_close; Ev_lzma_end; Ev_free R_lzstream;
           Ev_free R_xz_buffer; Ev_free R_unxz_buffer]).

(** The answers of the engine after which the loader drains the window. *)
Definition drains (r : lzma_ret) : Prop :=
  r = LZMA_OK \/ r = LZMA_STREAM_END.

(** The rounds of the loop of [_gdk_pixbuf__lzma_code] that reach its
    [while] test: a call of the engine that answers [LZMA_OK] or
    [LZMA_STREAM_END], the allocation of a segment, its append. *)
Inductive rounds {G : gdkpixbuf} (action : lzma_action)
  : list (event G) -> Prop :=
| rounds_nil : rounds action []
| rounds_cons r p n seg t :
    drains r ->
    rounds action t ->
    rounds action (Ev_lzma_code action r p :: Ev_malloc R_mem_buffer n
                   :: Ev_add_data seg :: t).

(** What a round performs when it starts from a fresh window: the call
    of the engine, the allocation of a segment of exactly the size of
    what the engine produced, the append of exactly those bytes.  A call
    of the engine is given by what it answered and what it produced. *)
Definition round_events {G : gdkpixbuf} (action : lzma_action)
  (call : lzma_ret * list byte) : list (event G) :=
  [Ev_lzma_code action (fst call) (snd call);
   Ev_malloc R_mem_buffer (Z.of_nat (length (snd call)));
   Ev_add_data (snd call)].

(** A run of events that frees every block it allocates or hands it to
    the memory stream: it adds to the ledger one segment for every
    append, and nothing else. *)
Definition balanced {G : gdkpixbuf} (t : list (event G)) : Prop :=
  forall live,
    existsb (owned_eqb (O_block R_mem_buffer)) live = false ->
    outstanding_from live t = live ++ repeat O_segment (length (segments t)).

(** Two heaps that agree on every context but the one at [p]. *)
Definition same_but {L : liblzma} {G : gdkpixbuf} (p : ctx_ptr)
  (w w' : World L G) : Prop :=
  length (heap w') = length (heap w)
  /\ forall q, q <> p -> nth_error (heap w') q = nth_error (heap w) q.

(** ** The engine on the one-shot path

    [gdk_pixbuf__load_xz_image] stops at the first [LZMA_STREAM_END] and
    passes [LZMA_FINISH] together with the last block of the file, so it
    needs more of the engine than the incremental path: on input that
    continues a valid file a call under [LZMA_RUN] answers [LZMA_OK], as
    a decoder created with [LZMA_CONCATENATED] does; a call under
    [LZMA_FINISH] on what is left of a valid file either answers
    [LZMA_OK] and makes progress or has read all of it, written the rest
    of the payload and answers [LZMA_STREAM_END]. *)
Record one_shot_contract {L : liblzma} (C : stream_contract L) : Prop := {
  run_answers_ok :
    forall s d i o inp rest room r d' c p,
      valid C s -> consumed C d i o -> s = i ++ inp ++ rest ->
      inp <> [] -> (0 < room)%nat ->
      lzma_step L d inp room LZMA_RUN = (r, d', c, p) ->
      r = LZMA_OK;
  finish_with_input :
    forall s d i o inp room r d' c p,
      valid C s -> consumed C d i o -> s = i ++ inp ->
      inp <> [] -> (0 < room)%nat ->
      lzma_step L d inp room LZMA_FINISH = (r, d', c, p) ->
      (c <= length inp)%nat /\ (length p <= room)%nat
      /\ ((r = LZMA_OK /\ (0 < c \/ 0 < length p)%nat
           /\ consumed C d' (i ++ firstn c inp) (o ++ p))
          \/ (r = LZMA_STREAM_END /\ c = length inp
              /\ o ++ p = plain C s))
}.

(** A file that has not been read yet and reads without fault. *)
Definition unread (data : list byte) : FILE :=
  {| f_data := data; f_eof := false; f_err := false; f_fault := None |}.

(** The input the loop of [gdk_pixbuf__load_xz_image] has read from the
    file and not given to the engine yet. *)
Definition pending {L : liblzma} (ls : load_state L) : list byte :=
  firstn (Z.to_nat (avail_in (ls_strm ls))) (next_in (ls_strm ls)).

(** The loop of [gdk_pixbuf__load_xz_image] at the top of a round, while
    it reads the valid file [s]: the engine has read [i] and written [o];
    what it has not read is pending or still in the file; what it has
    written is in the memory stream or in the window [win], which is not
    full; the action is [LZMA_FINISH] exactly when the file is at its
    end. *)
Record load_inv {L : liblzma} (C : stream_contract L) (s : list byte)
  (ls : load_state L) (i o win : list byte) (d : lzma_dec L) : Prop := {
  li_err : f_err (ls_file ls) = false;
  li_fault : f_fault (ls_file ls) = None;
  li_eof : f_eof (ls_file ls) = true -> f_data (ls_file ls) = [];
  li_action :
    ls_lzaction ls = if f_eof (ls_file ls) then LZMA_FINISH else LZMA_RUN;
  li_internal : internal (ls_strm ls) = Some d;
  li_avail : 0 <= avail_in (ls_strm ls);
  li_input :
    (Z.to_nat (avail_in (ls_strm ls)) <= length (next_in (ls_strm ls)))%nat;
  li_window : window_at buffer_size win (ls_strm ls) (ls_unxz_buffer ls);
  li_room : Z.of_nat (length win) < buffer_size;
  li_consumed : consumed C d i o;
  li_split : s = i ++ pending ls ++ f_data (ls_file ls);
  li_output : o = stream_bytes (ls_stream ls) ++ win
}.

(** What is left to do: the input not read by the engine and the payload
    not written by it. *)
Definition load_measure {L : liblzma} (C : stream_contract L)
  (s : list byte) (ls : load_state L) (o : list byte) : nat :=
  length (pending ls) + length (f_data (ls_file ls))
  + (length (plain C s) - length o).

(** ** Runs without undefined behaviour

    [swp m Q w]: from the world [w] the computation [m] does not run into
    undefined behaviour, and if it returns, the result satisfies [Q]. *)
Definition swp {L : liblzma} {G : gdkpixbuf} {A} (m : M L G A)
  (Q : A -> World L G -> Prop) (w : World L G) : Prop :=
  match m w with
  | Returns a w' => Q a w'
  | Undefined => False
  | OutOfFuel => True
  end.

(** A context whose pointers are all set, with the scratch window in
    order. *)
Definition sound {L : liblzma} {G : gdkpixbuf} (cap : Z) (win : list byte)
  (c : XZImageDecodeContext L G) : Prop :=
  window_ok cap win c /\ memory_istream c <> None.

(** What the engine produced along a trace, call by call. *)
Fixpoint engine_outputs {G : gdkpixbuf} (t : list (event G))
  : list (list byte) :=
  match t with
  | [] => []
  | Ev_lzma_code _ _ p :: t' => p :: engine_outputs t'
  | _ :: t' => engine_outputs t'
  end.


(** ** The steps of a session *)

(** The events of one call of [_gdk_pixbuf__lzma_code] and what it
    returns: rounds of its loop, at least one when it returns TRUE; when
    it returns FALSE, after the rounds one more call of the engine and
    the call of [g_set_error]. *)
Inductive step_events {G : gdkpixbuf} (action : lzma_action)
  : bool -> list (event G) -> Prop :=
| step_true pre :
    rounds action pre -> pre <> [] -> step_events action true pre
| step_false pre st out message :
    rounds action pre ->
    (message = "Error with lzma decode"%string /\ ~ drains st)
    \/ (message = "Error allocating buffer"%string /\ drains st) ->
    step_events action false
      (pre ++ [Ev_lzma_code action st out; Ev_set_error message]).

(** The events of a sequence of calls, call by call. *)
Inductive steps {G : gdkpixbuf}
  : list (list byte * lzma_action) -> list bool -> list (event G) -> Prop :=
| steps_nil : steps [] [] []
| steps_cons buf action calls r rs evs t :
    step_events action r evs ->
    steps calls rs t ->
    steps ((buf, action) :: calls) (r :: rs) (evs ++ t).

(** ** The engine under [LZMA_RUN]

    What liblzma documents for a decoder created with
    [LZMA_CONCATENATED]: [lzma_code] does not answer [LZMA_STREAM_END]
    unless [LZMA_FINISH] is used.  [unfinished d] says that the engine
    state [d] has not been given [LZMA_FINISH]: the decoder starts so,
    and a call under [LZMA_RUN] keeps it so and does not report the end
    of the stream. *)
Record concatenated_contract (L : liblzma) : Type := {
  unfinished : lzma_dec L -> Prop;
  unfinished_init :
    forall r d,
      lzma_stream_decoder L UINT64_MAX LZMA_CONCATENATED = (r, Some d) ->
      unfinished d;
  unfinished_run :
    forall d inp room r d' c p,
      unfinished d ->
      lzma_step L d inp room LZMA_RUN = (r, d', c, p) ->
      r <> LZMA_STREAM_END /\ unfinished d'
}.

Arguments unfinished {L}.
Arguments unfinished_init {L}.
Arguments unfinished_run {L}.

(** A context whose engine has not been given [LZMA_FINISH]. *)
Definition running {L : liblzma} {G : gdkpixbuf} (K : concatenated_contract L)
  (c : XZImageDecodeContext L G) : Prop :=
  forall strm d,
    lzstream c = Some strm -> internal strm = Some d -> unfinished K d.

(** An event that is not a call of the engine, or is a call under
    [LZMA_RUN] that did not report the end of the stream. *)
Definition runs_on {G : gdkpixbuf} (e : event G) : Prop :=
  match e with
  | Ev_lzma_code action st _ => action = LZMA_RUN /\ st <> LZMA_STREAM_END
  | _ => True
  end.

(** * A small instance of the two libraries

    The theorems below hold for every engine and every image decoder.
    To run the loader on concrete bytes we instantiate them with a
    stored-bytes codec and a one-line image format. *)

Module Stored.

(** ** The codec

    A stream is a run of literal bytes closed by the byte [x00]; the byte
    [xff] never occurs in a well-formed stream.  A file is one stream or,
    for a decoder created with [LZMA_CONCATENATED], several in a row.
    The engine state follows [lzma_code] of liblzma: once the stream has
    ended every call answers [LZMA_STREAM_END], after an error every call
    answers [LZMA_PROG_ERROR], and the second call in a row that neither
    reads nor writes answers [LZMA_BUF_ERROR]. *)

Inductive sequence : Type :=
| Running
| Ended
| Broken.

Record state : Type := {
  seq : sequence;
  concatenated : bool;
  at_boundary : bool;
  allow_buf_error : bool
}.

(** The coder proper: status, whether it stopped right after a stream,
    bytes read, bytes written. *)
Fixpoint scan (conc bnd : bool) (inp : list byte) (room : nat)
  (action : lzma_action) : lzma_ret * bool * nat * list byte :=
  match inp with
  | [] =>
      (match action with
       | LZMA_FINISH => if conc && bnd then LZMA_STREAM_END else LZMA_OK
       | LZMA_RUN => LZMA_OK
       end, bnd, O, [])
  | b :: rest =>
      if Byte.eqb b x00 then
        if conc then
          let '(r, bnd', c, p) := scan conc true rest room action in
          (r, bnd', S c, p)
        else (LZMA_STREAM_END, true, 1%nat, [])
      else if Byte.eqb b xff then (LZMA_DATA_ERROR, bnd, O, [])
      else
        match room with
        | O => (LZMA_OK, bnd, O, [])
        | S room' =>
            let '(r, bnd', c, p) := scan conc false rest room' action in
            (r, bnd', S c, b :: p)
        end
  end.

Definition step (d : state) (inp : list byte) (room : nat)
  (action : lzma_action) : lzma_ret * state * nat * list byte :=
  match seq d with
  | Ended => (LZMA_STREAM_END, d, O, [])
  | Broken => (LZMA_PROG_ERROR, d, O, [])
  | Running =>
      let '(r, bnd, c, p) :=
        scan (concatenated d) (at_boundary d) inp room action in
      let next s abe :=
        {| seq := s; concatenated := concatenated d; at_boundary := bnd;
           allow_buf_error := abe |} in
      match r with
      | LZMA_OK =>
          if (c =? 0)%nat && (length p =? 0)%nat then
            (if allow_buf_error d then LZMA_BUF_ERROR else LZMA_OK,
             next Running true, c, p)
          else (LZMA_OK, next Running false, c, p)
      | LZMA_STREAM_END => (LZMA_STREAM_END, next Ended false, c, p)
      | _ => (r, next Broken false, c, p)
      end
  end.

Definition start (conc : bool) : state :=
  {| seq := Running; concatenated := conc; at_boundary := false;
     allow_buf_error := false |}.

(** The engine as [lzma_stream_decoder] configures it. *)
Definition stored : liblzma :=
  {| lzma_dec := state;
     lzma_stream_decoder := fun _ flags =>
       (LZMA_OK, Some (start (Z.testbit flags 3)));
     lzma_step := step |}.

(** What the codec's contract speaks about. *)
Definition is_literal (b : byte) : bool := negb (Byte.eqb b x00).

Definition payload (i : list byte) : list byte := filter is_literal i.

Fixpoint ends_stream (bnd : bool) (i : list byte) : bool :=
  match i with
  | [] => bnd
  | b :: i' => ends_stream (Byte.eqb b x00) i'
  end.

Definition clean (i : list byte) : bool :=
  forallb (fun b => negb (Byte.eqb b xff)) i.

Definition well_formed (s : list byte) : Prop :=
  clean s = true /\ ends_stream false s = true.

Definition has_consumed (d : state) (i o : list byte) : Prop :=
  seq d = Running /\ concatenated d = true /\ clean i = true
  /\ at_boundary d = ends_stream false i /\ o = payload i.

(** ** The image format

    An image is the byte ["I"], its width, its height, and at least
    width * height bytes of pixels. *)

Record image : Type := { width : Z; height : Z }.

Definition byteZ (b : byte) : Z := Z.of_N (Byte.to_N b).

Definition decode_image (data : list byte) : option image :=
  match data with
  | m :: w :: h :: px =>
      if Byte.eqb m "I"%byte && (byteZ w * byteZ h <=? Z.of_nat (length px))
      then Some {| width := byteZ w; height := byteZ h |}
      else None
  | _ => None
  end.

Definition icon : gdkpixbuf :=
  {| GdkPixbuf := image; gdk_pixbuf_new_from_stream := decode_image;
     gdk_pixbuf_get_width := width; gdk_pixbuf_get_height := height |}.

(** Fresh blocks, filled with an arbitrary byte. *)
Definition fresh (n : Z) : list byte := repeat "U"%byte (Z.to_nat n).

(** ** Running the loader *)

Definition world : Type := World stored icon.

Definition world0 : world := initial_world [] (L:=stored) (G:=icon).

(** A file on disk, not read yet. *)
Definition file_of (data : list byte) : FILE :=
  {| f_data := data; f_eof := false; f_err := false; f_fault := None |}.

(** A 2 x 1 image, stored as one stream. *)
Definition picture : list byte := ["I"; x02; x01; "a"; "b"]%byte.
Definition picture_xz : list byte := picture ++ [x00].

End Stored.

(** The world and the value a computation ends with. *)
Definition world_after {L G A} (m : M L G A) (w : World L G) : World L G :=
  match m w with
  | Returns _ w' => w'
  | _ => w
  end.

Definition value_of {L G A} (o : outcome L G A) : option A :=
  match o with
  | Returns a _ => Some a
  | _ => None
  end.


(** * Properties of the loader *)

Section Facts.

Variable L : liblzma.
Variable G : gdkpixbuf.
Variable malloc_contents : Z -> list byte.

Set Default Proof Using "Type".

Implicit Types (w : World L G) (context : XZImageDecodeContext L G).
Implicit Types (strm : lzma_stream L) (win buffer : list byte).

Local Arguments Z.to_nat : simpl never.
Local Arguments Z.of_nat : simpl never.
Local Arguments Z.shiftl : simpl never.
Local Arguments Z.pow : simpl never.
Local Arguments Z.modulo : simpl never.
Local Arguments Z.sub : simpl never.
Local Arguments Z.add : simpl never.
Local Arguments wp : simpl never.
Local Arguments twp : simpl never.
Local Arguments bind : simpl never.
Local Arguments ret : simpl never.
Local Arguments emit : simpl never.
Local Arguments free : simpl never.
Local Arguments malloc : simpl never.
Local Arguments deref : simpl never.
Local Arguments assign : simpl never.
Local Arguments free_context : simpl never.
Local Arguments calloc_context : simpl never.
Local Arguments memcpy : simpl never.
Local Arguments lzma_code : simpl never.
Local Arguments non_null : simpl never.
Local Arguments undefined : simpl never.
Local Arguments out_of_fuel : simpl never.

(** ** Rules of the partial-correctness predicate *)

Lemma wp_ret {A} (a : A) (Q : A -> World L G -> Prop) w :
  Q a w -> wp (ret a) Q w.
Proof. exact (fun H => H). Qed.

Lemma wp_bind {A B} (m : M L G A) (k : A -> M L G B) Q w :
  wp m (fun a w' => wp (k a) Q w') w -> wp (bind m k) Q w.
Proof.
  unfold wp, bind. destruct (m w); auto.
Qed.

Lemma wp_mono {A} (m : M L G A) (Q Q' : A -> World L G -> Prop) w :
  wp m Q w -> (forall a w', Q a w' -> Q' a w') -> wp m Q' w.
Proof.
  unfold wp. destruct (m w); auto.
Qed.

Lemma wp_run {A} (m : M L G A) Q w a w' :
  wp m Q w -> m w = Returns a w' -> Q a w'.
Proof.
  unfold wp. intros H E. rewrite E in H. exact H.
Qed.

Lemma wp_emit (e : event G) (Q : unit -> World L G -> Prop) w :
  Q tt (log e w) -> wp (emit e) Q w.
Proof. exact (fun H => H). Qed.

Lemma wp_malloc r n (Q : bool -> World L G -> Prop) w :
  (forall plan,
      Q false {| heap := heap w; alloc_plan := plan; trace := trace w |}) ->
  (forall plan,
      Q true {| heap := heap w; alloc_plan := plan;
                trace := trace w ++ [Ev_malloc r n] |}) ->
  wp (malloc r n) Q w.
Proof.
  intros Hf Ht. unfold wp, malloc.
  destruct (next_alloc (alloc_plan w)) as [[|] plan]; auto.
Qed.

Lemma wp_deref p (Q : XZImageDecodeContext L G -> World L G -> Prop) w :
  (forall c, nth_error (heap w) p = Some (Some c) -> Q c w) ->
  wp (deref p) Q w.
Proof.
  intros H. unfold wp, deref.
  destruct (nth_error (heap w) p) as [[c|]|]; auto.
Qed.

Lemma wp_assign p c (Q : unit -> World L G -> Prop) w :
  (forall old, nth_error (heap w) p = Some (Some old) ->
     Q tt {| heap := list_set (heap w) p (Some c);
             alloc_plan := alloc_plan w; trace := trace w |}) ->
  wp (assign p c) Q w.
Proof.
  intros H. unfold wp, assign.
  destruct (nth_error (heap w) p) as [[old|]|] eqn:E; eauto.
Qed.

Lemma wp_free_context p (Q : unit -> World L G -> Prop) w :
  (forall old, nth_error (heap w) p = Some (Some old) ->
     Q tt {| heap := list_set (heap w) p None;
             alloc_plan := alloc_plan w;
             trace := trace w ++ [Ev_free R_context] |}) ->
  wp (free_context p) Q w.
Proof.
  intros H. unfold wp, free_context.
  destruct (nth_error (heap w) p) as [[old|]|] eqn:E; eauto.
Qed.

Lemma wp_calloc_context (Q : option ctx_ptr -> World L G -> Prop) w :
  (forall plan,
      Q None {| heap := heap w; alloc_plan := plan; trace := trace w |}) ->
  (forall plan,
      Q (Some (length (heap w)))
        {| heap := heap w ++ [Some zeroed_context]; alloc_plan := plan;
           trace := trace w ++
                    [Ev_malloc R_context sizeof_XZImageDecodeContext] |}) ->
  wp calloc_context Q w.
Proof.
  intros Hf Ht. unfold wp, calloc_context.
  destruct (next_alloc (alloc_plan w)) as [[|] plan]; auto.
Qed.

Lemma wp_non_null {A} (o : option A) (Q : A -> World L G -> Prop) w :
  (forall a, o = Some a -> Q a w) -> wp (non_null o) Q w.
Proof.
  intros H. destruct o; [apply H; reflexivity | exact I].
Qed.

Lemma wp_memcpy src n (Q : list byte -> World L G -> Prop) w :
  ((Z.to_nat n <= length src)%nat -> Q (firstn (Z.to_nat n) src) w) ->
  wp (memcpy src n) Q w.
Proof.
  intros H. unfold memcpy.
  destruct (Z.to_nat n <=? length src)%nat eqn:E; [|exact I].
  apply H. apply Nat.leb_le. exact E.
Qed.

Lemma wp_lzma_code strm out action
  (Q : lzma_ret * lzma_stream L * list byte -> World L G -> Prop) w :
  (internal strm = None ->
   Q (LZMA_PROG_ERROR, strm, out)
     (log (Ev_lzma_code action LZMA_PROG_ERROR []) w)) ->
  (forall d r d' c p,
      internal strm = Some d ->
      lzma_step L d (firstn (Z.to_nat (avail_in strm)) (next_in strm))
        (Z.to_nat (avail_out strm)) action = (r, d', c, p) ->
      Q (r,
         {| next_in := skipn c (next_in strm);
            avail_in := avail_in strm - Z.of_nat c;
            next_out := next_out strm + Z.of_nat (length p);
            avail_out := avail_out strm - Z.of_nat (length p);
            internal := Some d' |},
         write_at out (Z.to_nat (next_out strm)) p)
        (log (Ev_lzma_code action r p) w)) ->
  wp (lzma_code strm out action) Q w.
Proof.
  intros Hn Hs. unfold lzma_code.
  destruct (internal strm) as [d|] eqn:E.
  - destruct (lzma_step L d _ _ action) as [[[r d'] c] p] eqn:Es.
    apply wp_bind, wp_emit, wp_ret. eapply Hs; [reflexivity | exact Es].
  - apply wp_bind, wp_emit, wp_ret. apply Hn. reflexivity.
Qed.

(** One step of symbolic execution. *)
Ltac wp_step :=
  lazymatch goal with
  | |- wp (ret _) _ _ => apply wp_ret
  | |- wp (bind _ _) _ _ => apply wp_bind
  | |- wp (emit _) _ _ => apply wp_emit
  | |- wp (free _) _ _ => apply wp_emit
  | |- wp (malloc _ _) _ _ => apply wp_malloc; intros ?plan
  | |- wp (deref _) _ _ => apply wp_deref; intros ?c ?Hderef
  | |- wp (assign _ _) _ _ => apply wp_assign; intros ?old ?Hold
  | |- wp (free_context _) _ _ => apply wp_free_context; intros ?old ?Hold
  | |- wp calloc_context _ _ => apply wp_calloc_context; intros ?plan
  | |- wp (non_null _) _ _ => apply wp_non_null; intros ? ?Hnn
  | |- wp (memcpy _ _) _ _ => apply wp_memcpy; intros ?Hcpy
  | |- wp (lzma_code _ _ _) _ _ =>
      apply wp_lzma_code;
      [intros ?Hint | intros ?d ?r ?d' ?c ?p ?Hint ?Hstep]
  | |- wp undefined _ _ => exact I
  | |- wp out_of_fuel _ _ => exact I
  | |- wp (if ?b then _ else _) _ _ => destruct b eqn:?
  | |- wp (match ?x with _ => _ end) _ _ => destruct x eqn:?
  end.

Ltac wp_go := repeat (wp_step; simpl).

(** ** The heap *)

Lemma nth_error_list_set {A} (l : list A) i x y :
  nth_error l i = Some y -> nth_error (list_set l i x) i = Some x.
Proof.
  revert i. induction l as [|z l IH]; intros [|i] H; simpl in *;
    try discriminate; auto.
Qed.

Lemma nth_error_list_set_other {A} (l : list A) i j x :
  i <> j -> nth_error (list_set l i x) j = nth_error l j.
Proof.
  revert i j. induction l as [|z l IH]; intros [|i] [|j] H; simpl;
    auto; congruence.
Qed.

(** ** When [_gdk_pixbuf__lzma_code] returns TRUE *)

Lemma lzma_code_round_ready context lzaction w :
  wp (lzma_code_round context lzaction)
     (fun r _ => fst r = inr false -> ready_for_next_chunk (snd r)) w.
Proof.
  unfold lzma_code_round.
  wp_go; simpl; try discriminate.
  intros H. injection H as H. apply negb_false_iff, Z.eqb_eq in H.
  eexists. split; [reflexivity|]. simpl. auto.
Qed.

Lemma lzma_code_loop_ready fuel : forall context lzaction w,
  wp (lzma_code_loop fuel context lzaction)
     (fun r _ => fst r = None -> ready_for_next_chunk (snd r)) w.
Proof.
  induction fuel as [|fuel IH]; intros context lzaction w; simpl.
  - exact I.
  - apply wp_bind. eapply wp_mono; [apply lzma_code_round_ready|].
    intros [[msg|[|]] c'] w1 H; simpl in *.
    + apply wp_ret. discriminate.
    + apply IH.
    + apply wp_ret. intros _. apply H. reflexivity.
Qed.

(** ** The events of the decompression loop *)

Ltac trace_done :=
  simpl;
  repeat match goal with
         | H : trace _ = _ |- _ => rewrite H
         end;
  rewrite <- ?app_assoc; simpl;
  first [reflexivity | rewrite app_nil_r; reflexivity | idtac].

Lemma same_callbacks_refl context : same_callbacks context context.
Proof. repeat split. Qed.

Lemma same_callbacks_trans (c1 c2 c3 : XZImageDecodeContext L G) :
  same_callbacks c1 c2 -> same_callbacks c2 c3 -> same_callbacks c1 c3.
Proof.
  unfold same_callbacks. intuition congruence.
Qed.

Lemma segments_app (t1 t2 : list (event G)) :
  segments (t1 ++ t2) = segments t1 ++ segments t2.
Proof.
  induction t1 as [|e t1 IH]; simpl; [reflexivity|].
  destruct e; simpl; rewrite IH; reflexivity.
Qed.

Lemma segments_none (t : list (event G)) :
  Forall (fun e => is_decode_event e = false) t -> segments t = [].
Proof.
  induction 1 as [|e t He _ IH]; simpl; [reflexivity|].
  destruct e; try discriminate; exact IH.
Qed.

Lemma extends_stream_refl context : extends_stream context context [].
Proof.
  intros s Hs. exists s. split; [exact Hs | now rewrite app_nil_r].
Qed.

Lemma extends_stream_trans (c1 c2 c3 : XZImageDecodeContext L G) e1 e2 :
  extends_stream c1 c2 e1 -> extends_stream c2 c3 e2 ->
  extends_stream c1 c3 (e1 ++ e2).
Proof.
  intros H1 H2 s Hs.
  destruct (H1 s Hs) as (s2 & Hs2 & E2).
  destruct (H2 s2 Hs2) as (s3 & Hs3 & E3).
  exists s3. split; [exact Hs3|].
  rewrite E3, E2, segments_app, app_assoc. reflexivity.
Qed.

Lemma lzma_code_round_trace context lzaction w :
  wp (lzma_code_round context lzaction)
     (fun r w' =>
        heap w' = heap w
        /\ same_callbacks context (snd r)
        /\ exists evs,
             trace w' = trace w ++ evs
             /\ Forall (fun e => is_decode_event e = true) evs
             /\ extends_stream context (snd r) evs) w.
Proof.
  unfold lzma_code_round.
  wp_go; simpl; try (simpl in *; discriminate).
  all: split; [reflexivity|]; split; [repeat split|].
  all: eexists; split; [trace_done|]; split; [repeat constructor|].
  all: intros s Hs; simpl in *; eexists; split;
    [first [eassumption | reflexivity]|].
  all: simpl; rewrite ?app_nil_r; congruence.
Qed.

Lemma lzma_code_loop_trace fuel : forall context lzaction w,
  wp (lzma_code_loop fuel context lzaction)
     (fun r w' =>
        heap w' = heap w
        /\ same_callbacks context (snd r)
        /\ exists evs,
             trace w' = trace w ++ evs
             /\ Forall (fun e => is_decode_event e = true) evs
             /\ extends_stream context (snd r) evs) w.
Proof.
  induction fuel as [|fuel IH]; intros context lzaction w; simpl.
  - exact I.
  - apply wp_bind. eapply wp_mono; [apply lzma_code_round_trace|].
    intros [[msg|[|]] c1] w1 (Hh & Hc & evs & Ht & Hf & He); simpl in *.
    + apply wp_ret. simpl. eauto 10.
    + eapply wp_mono; [apply IH|].
      intros [failure c2] w2 (Hh2 & Hc2 & evs2 & Ht2 & Hf2 & He2);
        simpl in *.
      split; [congruence|].
      split; [eapply same_callbacks_trans; eassumption|].
      exists (evs ++ evs2). split; [trace_done|].
      split; [apply Forall_app; auto|].
      eapply extends_stream_trans; eassumption.
    + apply wp_ret. simpl. eauto 10.
Qed.

Lemma lzma_code_trace fuel p buf lzaction w :
  wp (_gdk_pixbuf__lzma_code fuel p buf lzaction)
     (fun r w' =>
        exists c c' evs tail,
          nth_error (heap w) p = Some (Some c)
          /\ heap w' = list_set (heap w) p (Some c')
          /\ same_callbacks c c'
          /\ extends_stream c c' evs
          /\ Forall (fun e => is_decode_event e = true) evs
          /\ (if r then tail = [] else exists msg, tail = [Ev_set_error msg])
          /\ trace w' = trace w ++ evs ++ tail) w.
Proof.
  unfold _gdk_pixbuf__lzma_code.
  wp_go.
  eapply wp_mono; [apply lzma_code_loop_trace|].
  intros [failure c'] w1 (Hh & Hc & evs & Ht & Hf & He); simpl in *.
  wp_go; simpl.
  - exists c, c', evs, [Ev_set_error s]. rewrite Hh.
    repeat split; try assumption; try (apply Hc).
    + eexists; reflexivity.
    + trace_done.
  - exists c, c', evs, []. rewrite Hh.
    repeat split; try assumption; try (apply Hc).
    trace_done.
Qed.

Lemma lzma_ret_eqb_eq a b : lzma_ret_eqb a b = true <-> a = b.
Proof.
  split.
  - destruct a, b; simpl; intros H; try discriminate; reflexivity.
  - intros ->. destruct b; reflexivity.
Qed.

Lemma list_set_app_last {A} (l : list A) (x y : A) :
  list_set (l ++ [x]) (length l) y = l ++ [y].
Proof.
  induction l as [|z l IH]; simpl; [reflexivity|]. now rewrite IH.
Qed.

Lemma nth_error_app_last {A} (l : list A) (x : A) :
  nth_error (l ++ [x]) (length l) = Some x.
Proof.
  induction l as [|z l IH]; simpl; auto.
Qed.

(** ** [begin_load] *)

Lemma begin_load_spec size_f prepare_f updated_f extra err w :
  wp (gdk_pixbuf__begin_load_xz_image malloc_contents size_f prepare_f
        updated_f extra err)
     (fun r w' =>
        match r with
        | Some p =>
            p = length (heap w)
            /\ exists d,
                 lzma_stream_decoder L UINT64_MAX LZMA_CONCATENATED
                 = (LZMA_OK, d)
                 /\ heap w' =
                    heap w ++ [Some (opened_context malloc_contents size_f
                                       prepare_f updated_f extra err d)]
                 /\ trace w' = trace w ++ opening_events
        | None =>
            exists evs,
              trace w' = trace w ++ evs
              /\ Forall (fun e => is_callback e = false) evs
        end) w.
Proof.
  unfold gdk_pixbuf__begin_load_xz_image, begin_load_failure.
  wp_go; simpl;
    try (eexists; split; [trace_done | repeat constructor]; fail).
  split; [reflexivity|].
  match goal with
  | H : negb (lzma_ret_eqb _ LZMA_OK) = false |- _ =>
      apply negb_false_iff, lzma_ret_eqb_eq in H; subst
  end.
  exists o. split; [reflexivity|].
  simpl in Hderef. rewrite nth_error_app_last in Hderef.
  injection Hderef as <-.
  split; [rewrite list_set_app_last; reflexivity|].
  rewrite <- !app_assoc. reflexivity.
Qed.

(** ** Sequences of calls *)

Lemma feed_event_quiet (e : event G) :
  is_feed_event e = true ->
  is_callback e = false /\ is_image_decode e = false.
Proof.
  destruct e; try discriminate; auto.
Qed.

Lemma decode_event_feed (e : event G) :
  is_decode_event e = true -> is_feed_event e = true.
Proof.
  unfold is_feed_event. intros ->. reflexivity.
Qed.


Lemma push_all_feed_all fuel p chunks :
  push_all fuel p chunks
  = feed_all (L:=L) (G:=G) fuel p (map (fun buf => (buf, LZMA_RUN)) chunks).
Proof.
  induction chunks as [|buf chunks IH]; simpl; [reflexivity|].
  rewrite IH. reflexivity.
Qed.

Lemma feed_all_trace fuel p calls : forall w,
  wp (feed_all fuel p calls)
     (fun _ w' =>
        exists evs,
          trace w' = trace w ++ evs
          /\ Forall (fun e => is_feed_event e = true) evs
          /\ forall c, nth_error (heap w) p = Some (Some c) ->
               exists c', nth_error (heap w') p = Some (Some c')
                          /\ same_callbacks c c'
                          /\ extends_stream c c' evs) w.
Proof.
  induction calls as [|[buf lzaction] calls IH]; intros w; simpl.
  - apply wp_ret. exists []. split; [now rewrite app_nil_r|].
    split; [constructor|].
    intros c Hc. exists c. split; [exact Hc|].
    split; [apply same_callbacks_refl | apply extends_stream_refl].
  - apply wp_bind. eapply wp_mono; [apply lzma_code_trace|].
    intros r w1 (c & c' & evs & tail & Hp & Hh & Hc & He & Hf & Htail & Ht).
    apply wp_bind. eapply wp_mono; [apply IH|].
    intros rs w2 (evs2 & Ht2 & Hf2 & Hp2). apply wp_ret.
    assert (Htl : Forall (fun e : event G => is_feed_event e = true) tail).
    { destruct r; [subst; constructor|].
      destruct Htail as [msg ->]. repeat constructor. }
    assert (Hseg : segments tail = []).
    { destruct r; [subst; reflexivity|].
      destruct Htail as [msg ->]. reflexivity. }
    exists (evs ++ tail ++ evs2). split; [trace_done|]. split.
    + rewrite !Forall_app. repeat split; try assumption.
      eapply Forall_impl; [|exact Hf]. apply decode_event_feed.
    + intros c0 Hc0. rewrite Hp in Hc0. injection Hc0 as <-.
      destruct (Hp2 c') as (c2 & Hc2 & Hs2 & He2).
      { rewrite Hh. eapply nth_error_list_set; eassumption. }
      exists c2. split; [exact Hc2|]. split.
      * eapply same_callbacks_trans; eassumption.
      * intros s Hs. destruct (He s Hs) as (s1 & Hs1 & E1).
        destruct (He2 s1 Hs1) as (s2 & Hs2' & E2).
        exists s2. split; [exact Hs2'|].
        rewrite E2, E1, !segments_app, Hseg, <- app_assoc. reflexivity.
Qed.

(** ** [stop_load] *)

Lemma stop_load_spec fuel p w :
  wp (gdk_pixbuf__stop_load_xz_image fuel p)
     (fun r w' =>
        exists c c' evs tail stream,
          nth_error (heap w) p = Some (Some c)
          /\ same_callbacks c c'
          /\ extends_stream c c' evs
          /\ memory_istream c' = Some stream
          /\ Forall (fun e => is_decode_event e = true) evs
          /\ (tail = [] \/ exists msg, tail = [Ev_set_error msg])
          /\ (r = true <->
              tail = []
              /\ gdk_pixbuf_new_from_stream G (stream_bytes stream) <> None)
          /\ nth_error (heap w') p = Some None
          /\ trace w' =
             trace w ++ evs ++ tail
             ++ closing_events c' (stream_bytes stream)) w.
Proof.
  unfold gdk_pixbuf__stop_load_xz_image.
  apply wp_bind. eapply wp_mono; [apply lzma_code_trace|].
  intros r w1 (c & c' & evs & tail & Hp & Hh & Hc & He & Hf & Htail & Ht).
  apply wp_bind, wp_deref. intros c1 Hc1.
  assert (c1 = c') as ->.
  { rewrite Hh in Hc1. erewrite nth_error_list_set in Hc1 by eassumption.
    congruence. }
  wp_go.
  all: exists c, c', evs, tail.
  all: match goal with
       | H : memory_istream _ = Some ?s |- _ => exists s
       end.
  all: split; [exact Hp|]; split; [exact Hc|]; split; [exact He|].
  all: split; [assumption|].
  all: split; [exact Hf|].
  all: split; [destruct r; [left; exact Htail | right; exact Htail]|].
  all: split;
    [| split;
       [eapply nth_error_list_set, nth_error_list_set; exact Hc1
       | rewrite Ht; unfold closing_events, callbacks_fired;
         repeat match goal with
                | H : gdk_pixbuf_new_from_stream G _ = _ |- _ => rewrite H
                | H : prepare_func _ = _ |- _ => rewrite H
                | H : updated_func _ = _ |- _ => rewrite H
                end;
         simpl; rewrite <- !app_assoc; reflexivity]].
  all: match goal with
       | H : gdk_pixbuf_new_from_stream G _ = _ |- _ => rewrite H
       end.
  all: split; [intros Hr | intros [Ht0 Hd]]; try discriminate;
    try congruence.
  all: try (subst r; split; [exact Htail | discriminate]).
  all: destruct r; [reflexivity|].
  all: destruct Htail as [msg Hm]; rewrite Hm in Ht0; discriminate.
Qed.

(** ** A whole session, phase by phase *)

Lemma events_since_app w w' evs :
  trace w' = trace w ++ evs -> events_since w w' = evs.
Proof.
  intros H. unfold events_since. rewrite H.
  rewrite skipn_app, skipn_all, Nat.sub_diag. reflexivity.
Qed.

Lemma segments_callbacks_fired (c : XZImageDecodeContext L G) pb :
  segments (callbacks_fired c pb) = [].
Proof.
  unfold callbacks_fired. destruct pb; [|reflexivity].
  destruct (prepare_func c), (updated_func c); reflexivity.
Qed.

Lemma segments_closing (c : XZImageDecodeContext L G) data :
  segments (closing_events c data) = [].
Proof.
  unfold closing_events. simpl.
  rewrite segments_app, segments_callbacks_fired. reflexivity.
Qed.

Lemma segments_tail (tail : list (event G)) :
  tail = [] \/ (exists msg, tail = [Ev_set_error msg]) -> segments tail = [].
Proof.
  intros [-> | [msg ->]]; reflexivity.
Qed.

Lemma session_phases size_f prepare_f updated_f extra err fuel fuel' chunks
  w p w1 rs w2 r w3 :
  gdk_pixbuf__begin_load_xz_image malloc_contents size_f prepare_f updated_f
    extra err w = Returns (Some p) w1 ->
  push_all fuel p chunks w1 = Returns rs w2 ->
  gdk_pixbuf__stop_load_xz_image fuel' p w2 = Returns r w3 ->
  holds_callbacks w1 p size_f prepare_f updated_f extra
  /\ holds_callbacks w2 p size_f prepare_f updated_f extra
  /\ exists (c' : XZImageDecodeContext L G) feeds tail data,
       size_func c' = size_f /\ prepare_func c' = prepare_f
       /\ updated_func c' = updated_f /\ extra_context c' = extra
       /\ Forall (fun e => is_feed_event e = true) feeds
       /\ (tail = [] \/ exists msg, tail = [Ev_set_error msg])
       /\ (r = true <->
           tail = [] /\ gdk_pixbuf_new_from_stream G data <> None)
       /\ data = accumulated (events_since w w3)
       /\ events_since w w3 =
          opening_events ++ feeds ++ tail ++ closing_events c' data.
Proof.
  intros Hb Hp Hs.
  pose proof (wp_run _ _ _ _ _ (begin_load_spec _ _ _ _ _ w) Hb) as H1.
  simpl in H1. destruct H1 as (-> & d & _ & Hh1 & Ht1).
  rewrite push_all_feed_all in Hp.
  pose proof (wp_run _ _ _ _ _ (feed_all_trace _ _ _ w1) Hp) as H2.
  simpl in H2. destruct H2 as (evs2 & Ht2 & Hf2 & Hc2).
  pose proof (wp_run _ _ _ _ _ (stop_load_spec _ _ w2) Hs) as H3.
  simpl in H3.
  destruct H3 as (c & c' & evs3 & tail & stream & Hp3 & Hc3 & He3 & Hm & Hf3
                  & Htail & Hr & _ & Ht3).
  assert (Hat1 : nth_error (heap w1) (length (heap w))
                 = Some (Some (opened_context malloc_contents size_f
                                 prepare_f updated_f extra err d))).
  { rewrite Hh1. apply nth_error_app_last. }
  destruct (Hc2 _ Hat1) as (c2 & Hat2 & Hs2 & He2).
  rewrite Hat2 in Hp3. injection Hp3 as <-.
  destruct Hs2 as (S1 & S2 & S3 & S4 & _).
  destruct Hc3 as (T1 & T2 & T3 & T4 & _).
  simpl in S1, S2, S3, S4.
  assert (Hev : events_since w w3
                = opening_events ++ (evs2 ++ evs3) ++ tail
                  ++ closing_events c' (stream_bytes stream)).
  { apply events_since_app. rewrite Ht3, Ht2, Ht1.
    rewrite <- !app_assoc. reflexivity. }
  split; [|split].
  - eexists. split; [exact Hat1|]. repeat split.
  - exists c2. split; [exact Hat2|]. repeat split; assumption.
  - exists c', (evs2 ++ evs3), tail, (stream_bytes stream).
    do 4 (split; [congruence|]).
    split.
    { apply Forall_app. split; [exact Hf2|].
      eapply Forall_impl; [|exact Hf3]. apply decode_event_feed. }
    split; [exact Htail|]. split; [exact Hr|].
    split; [|exact Hev].
    rewrite Hev. unfold accumulated, stream_bytes.
    rewrite !segments_app, segments_closing, (segments_tail _ Htail).
    destruct (He2 _ eq_refl) as (s2 & Hs2 & E2).
    destruct (He3 _ Hs2) as (s3 & Hs3 & E3).
    rewrite Hm in Hs3. injection Hs3 as <-.
    rewrite E3, E2. simpl. rewrite !app_nil_r. reflexivity.
Qed.

(** ** Reading the trace of a session *)

Lemma filter_none {A} (f : A -> bool) (l : list A) :
  Forall (fun x => f x = false) l -> filter f l = [].
Proof.
  induction 1 as [|x l Hx _ IH]; simpl; [reflexivity|].
  rewrite Hx. exact IH.
Qed.

Lemma callbacks_feeds (l : list (event G)) :
  Forall (fun e => is_feed_event e = true) l -> filter is_callback l = [].
Proof.
  intros H. apply filter_none. eapply Forall_impl; [|exact H].
  intros e He. apply feed_event_quiet, He.
Qed.

Lemma image_decodes_feeds (l : list (event G)) :
  Forall (fun e => is_feed_event e = true) l ->
  filter is_image_decode l = [].
Proof.
  intros H. apply filter_none. eapply Forall_impl; [|exact H].
  intros e He. apply feed_event_quiet, He.
Qed.

Lemma filter_set_error_tail (f : event G -> bool) (tail : list (event G)) :
  (forall msg, f (Ev_set_error msg) = false) ->
  tail = [] \/ (exists msg, tail = [Ev_set_error msg]) ->
  filter f tail = [].
Proof.
  intros Hf [-> | [msg ->]]; simpl; [reflexivity|]. now rewrite Hf.
Qed.

Lemma callbacks_fired_callbacks (c : XZImageDecodeContext L G) pb :
  filter is_callback (callbacks_fired c pb) = callbacks_fired c pb.
Proof.
  unfold callbacks_fired.
  destruct pb; [|reflexivity].
  destruct (prepare_func c), (updated_func c); reflexivity.
Qed.

Lemma callbacks_fired_no_decode (c : XZImageDecodeContext L G) pb :
  filter is_image_decode (callbacks_fired c pb) = [].
Proof.
  unfold callbacks_fired.
  destruct pb; [|reflexivity].
  destruct (prepare_func c), (updated_func c); reflexivity.
Qed.

Lemma callbacks_closing (c : XZImageDecodeContext L G) data :
  callbacks (closing_events c data)
  = callbacks_fired c (gdk_pixbuf_new_from_stream G data).
Proof.
  unfold callbacks, closing_events. simpl.
  rewrite filter_app, callbacks_fired_callbacks. simpl.
  apply app_nil_r.
Qed.

Lemma image_decodes_closing (c : XZImageDecodeContext L G) data :
  filter is_image_decode (closing_events c data)
  = [Ev_pixbuf_new_from_stream data
       (is_some (gdk_pixbuf_new_from_stream G data))].
Proof.
  unfold closing_events. simpl.
  rewrite filter_app, callbacks_fired_no_decode. reflexivity.
Qed.

Lemma callbacks_session (c : XZImageDecodeContext L G) feeds tail data :
  Forall (fun e => is_feed_event e = true) feeds ->
  tail = [] \/ (exists msg, tail = [Ev_set_error msg]) ->
  callbacks (opening_events ++ feeds ++ tail ++ closing_events c data)
  = callbacks_fired c (gdk_pixbuf_new_from_stream G data).
Proof.
  intros Hf Ht. unfold callbacks.
  rewrite !filter_app. fold (callbacks (closing_events c data)).
  rewrite callbacks_closing, (callbacks_feeds _ Hf).
  rewrite (filter_set_error_tail is_callback tail) by first [assumption | reflexivity].
  reflexivity.
Qed.

Lemma image_decodes_session (c : XZImageDecodeContext L G) feeds tail data :
  Forall (fun e => is_feed_event e = true) feeds ->
  tail = [] \/ (exists msg, tail = [Ev_set_error msg]) ->
  filter is_image_decode
    (opening_events ++ feeds ++ tail ++ closing_events c data)
  = [Ev_pixbuf_new_from_stream data
       (is_some (gdk_pixbuf_new_from_stream G data))].
Proof.
  intros Hf Ht.
  rewrite !filter_app, image_decodes_closing, (image_decodes_feeds _ Hf).
  rewrite (filter_set_error_tail is_image_decode tail) by first [assumption | reflexivity].
  reflexivity.
Qed.

(** ** The scratch window *)

Lemma length_write_at mem off (p : list byte) :
  (off + length p <= length mem)%nat ->
  length (write_at mem off p) = length mem.
Proof.
  intros H. unfold write_at.
  rewrite !length_app, length_firstn, length_skipn. lia.
Qed.

Lemma firstn_write_at mem off (p : list byte) :
  (off <= length mem)%nat ->
  firstn (off + length p) (write_at mem off p) = firstn off mem ++ p.
Proof.
  intros H. unfold write_at.
  rewrite firstn_app, length_firstn, Nat.min_l by exact H.
  rewrite firstn_all2 by (rewrite length_firstn; lia).
  replace (off + length p - off)%nat with (length p) by lia.
  rewrite firstn_app, firstn_all, Nat.sub_diag. simpl.
  now rewrite app_nil_r.
Qed.

Lemma size_sub_small a b :
  0 <= b <= a -> a < 2 ^ 64 -> size_sub a b = a - b.
Proof.
  intros H1 H2. unfold size_sub. apply Z.mod_small. lia.
Qed.

Section Window.

Variable cap : Z.
Hypothesis cap_pos : 0 < cap.
Hypothesis cap_small : cap < 2 ^ 64.
Hypothesis bounds : engine_bounds L.

Unset Default Proof Using.

(** What one call of the engine does to the window. *)
Lemma window_at_step win strm buffer d lzaction r d' c p :
  window_at cap win strm buffer ->
  lzma_step L d (firstn (Z.to_nat (avail_in strm)) (next_in strm))
    (Z.to_nat (avail_out strm)) lzaction = (r, d', c, p) ->
  Z.of_nat (length (win ++ p)) <= cap
  /\ window_at cap (win ++ p)
       {| next_in := skipn c (next_in strm);
          avail_in := avail_in strm - Z.of_nat c;
          next_out := next_out strm + Z.of_nat (length p);
          avail_out := avail_out strm - Z.of_nat (length p);
          internal := Some d' |}
       (write_at buffer (Z.to_nat (next_out strm)) p).
Proof.
  intros (Hlen & Hle & Hno & Hao & Hfn) Hstep.
  destruct (bounds _ _ _ _ _ _ _ _ Hstep) as [_ Hp].
  rewrite Hao in Hp.
  assert (Hfit : Z.of_nat (length (win ++ p)) <= cap).
  { rewrite length_app. lia. }
  split; [exact Hfit|].
  rewrite length_app in Hfit.
  unfold window_at; simpl. rewrite Hno, Nat2Z.id.
  repeat split.
  - rewrite length_write_at; [exact Hlen | lia].
  - rewrite length_app. lia.
  - rewrite length_app. lia.
  - rewrite length_app. lia.
  - rewrite length_app, firstn_write_at by lia. now rewrite Hfn.
Qed.

Lemma window_at_reset win strm buffer :
  window_at cap win strm buffer ->
  window_at cap [] (set_out strm 0 cap) buffer.
Proof.
  intros (Hlen & _). unfold window_at; simpl.
  repeat split; lia.
Qed.

(** The size asked for a segment, and the bytes copied into it. *)
Lemma window_at_drain win strm buffer :
  window_at cap win strm buffer ->
  size_sub cap (avail_out strm) = Z.of_nat (length win)
  /\ memcpy (L:=L) (G:=G) buffer (Z.of_nat (length win)) = ret win.
Proof.
  intros (Hlen & Hle & Hno & Hao & Hfn). split.
  - rewrite Hao, size_sub_small; lia.
  - unfold memcpy. rewrite Nat2Z.id, Hfn.
    destruct (length win <=? length buffer)%nat eqn:E; [reflexivity|].
    apply Nat.leb_gt in E. lia.
Qed.

Lemma window_run_app win (t : list (event G)) win' t' win'' :
  window_run cap win t win' ->
  window_run cap win' t' win'' ->
  window_run cap win (t ++ t') win''.
Proof.
  intros Hrun Hrest.
  induction Hrun; simpl; try (constructor; auto; fail).
  exact Hrest.
Qed.

Lemma window_run_other win (e : event G) :
  is_decode_event e = false -> window_run cap win [e] win.
Proof.
  intros He. apply wr_other.
  - destruct e; try reflexivity; discriminate.
  - intros n ->. discriminate.
  - intros seg ->. discriminate.
  - constructor.
Qed.

(** A round of the loop of [_gdk_pixbuf__lzma_code] keeps the window. *)
Lemma lzma_code_round_window context lzaction w win :
  window_ok cap win context ->
  wp (lzma_code_round context lzaction)
     (fun r w' =>
        exists evs win',
          trace w' = trace w ++ evs
          /\ window_run cap win evs win'
          /\ window_ok cap win' (snd r)) w.
Proof.
  intros (strm & buffer & Hs & Hb & Hcap & Hwin).
  unfold lzma_code_round. rewrite Hs, Hb. unfold non_null.
  apply wp_bind, wp_ret, wp_bind, wp_ret, wp_bind, wp_lzma_code.
  - intros Hint. simpl. apply wp_ret.
    exists [Ev_lzma_code lzaction LZMA_PROG_ERROR []], (win ++ []).
    split; [reflexivity|]. rewrite app_nil_r. split.
    + apply wr_code; rewrite app_nil_r; [apply Hwin | constructor].
    + exists strm, buffer. simpl. auto.
  - intros d r d' c p Hint Hstep.
    destruct (window_at_step _ _ _ _ _ _ _ _ _ Hwin Hstep) as [Hfit Hwin'].
    set (strm' := {| next_in := skipn c (next_in strm);
                     avail_in := avail_in strm - Z.of_nat c;
                     next_out := next_out strm + Z.of_nat (length p);
                     avail_out := avail_out strm - Z.of_nat (length p);
                     internal := Some d' |}) in *.
    set (buffer' := write_at buffer (Z.to_nat (next_out strm)) p) in *.
    destruct (window_at_drain _ _ _ Hwin') as [Hsize Hcpy].
    assert (Hcode : window_run (G:=G) cap win [Ev_lzma_code lzaction r p]
                      (win ++ p)).
    { apply wr_code; [exact Hfit | constructor]. }
    simpl. simpl in Hsize. rewrite Hcap, Hsize.
    destruct (lzma_ret_eqb r LZMA_OK || lzma_ret_eqb r LZMA_STREAM_END).
    + apply wp_bind, wp_malloc; intros plan; simpl.
      * apply wp_ret. exists [Ev_lzma_code lzaction r p], (win ++ p).
        split; [reflexivity|]. split; [exact Hcode|].
        exists strm', buffer'. simpl. auto.
      * rewrite Hcpy. apply wp_bind, wp_ret, wp_bind, wp_non_null.
        intros stream Hstream. apply wp_bind, wp_emit, wp_ret.
        exists [Ev_lzma_code lzaction r p;
                Ev_malloc R_mem_buffer (Z.of_nat (length (win ++ p)));
                Ev_add_data (win ++ p)], [].
        split; [simpl; rewrite <- !app_assoc; reflexivity|]. split.
        -- apply wr_code; [exact Hfit|].
           apply wr_alloc, wr_drain. constructor.
        -- exists (set_out strm' 0 cap), buffer'. simpl.
           split; [reflexivity|]. split; [reflexivity|].
           split; [first [reflexivity | exact Hcap]|].
           eapply window_at_reset, Hwin'.
    + apply wp_ret. exists [Ev_lzma_code lzaction r p], (win ++ p).
      split; [reflexivity|]. split; [exact Hcode|].
      exists strm', buffer'. simpl. auto.
Qed.

(** So does the whole loop. *)
Lemma lzma_code_loop_window fuel : forall context lzaction w win,
  window_ok cap win context ->
  wp (lzma_code_loop fuel context lzaction)
     (fun r w' =>
        exists evs win',
          trace w' = trace w ++ evs
          /\ window_run cap win evs win'
          /\ window_ok cap win' (snd r)) w.
Proof.
  induction fuel as [|fuel IH]; intros context lzaction w win Hok; simpl.
  - exact I.
  - apply wp_bind.
    eapply wp_mono; [apply lzma_code_round_window, Hok|].
    intros [[msg|[|]] c1] w1 (evs & win1 & Ht & Hr & Hok1); simpl in *.
    + apply wp_ret. eauto.
    + eapply wp_mono; [apply IH, Hok1|].
      intros [failure c2] w2 (evs2 & win2 & Ht2 & Hr2 & Hok2); simpl in *.
      exists (evs ++ evs2), win2. split; [trace_done|].
      split; [eapply window_run_app; eassumption | exact Hok2].
    + apply wp_ret. eauto.
Qed.

Lemma lzma_code_window fuel p buf lzaction w win c :
  nth_error (heap w) p = Some (Some c) ->
  window_ok cap win c ->
  wp (_gdk_pixbuf__lzma_code fuel p buf lzaction)
     (fun _ w' =>
        exists evs win' c',
          trace w' = trace w ++ evs
          /\ window_run cap win evs win'
          /\ nth_error (heap w') p = Some (Some c')
          /\ window_ok cap win' c') w.
Proof.
  intros Hp Hok. unfold _gdk_pixbuf__lzma_code.
  apply wp_bind, wp_deref. intros c0 Hc0.
  rewrite Hp in Hc0. injection Hc0 as <-.
  destruct Hok as (strm & buffer & Hs & Hb & Hcap & Hwin).
  rewrite Hs. unfold non_null. apply wp_bind, wp_ret, wp_bind.
  eapply wp_mono.
  { apply lzma_code_loop_window with (win := win).
    exists (set_in strm buf (Z.of_nat (length buf))), buffer.
    simpl. repeat split; auto; apply Hwin. }
  intros [failure c'] w1 (evs & win' & Ht & Hr & Hok'); simpl in *.
  apply wp_bind, wp_assign. intros old Hold.
  destruct failure as [msg|]; simpl.
  - apply wp_bind, wp_emit, wp_ret.
    exists (evs ++ [Ev_set_error msg]), win', c'.
    split; [trace_done|]. split.
    + eapply window_run_app; [exact Hr|].
      apply window_run_other. reflexivity.
    + split; [eapply nth_error_list_set; eassumption | exact Hok'].
  - apply wp_ret. exists evs, win', c'.
    split; [exact Ht|]. split; [exact Hr|].
    split; [eapply nth_error_list_set; eassumption | exact Hok'].
Qed.

Lemma feed_all_window fuel p calls : forall w win c,
  nth_error (heap w) p = Some (Some c) ->
  window_ok cap win c ->
  wp (feed_all fuel p calls)
     (fun _ w' =>
        exists evs win' c',
          trace w' = trace w ++ evs
          /\ window_run cap win evs win'
          /\ nth_error (heap w') p = Some (Some c')
          /\ window_ok cap win' c') w.
Proof.
  induction calls as [|[buf lzaction] calls IH]; intros w win c Hp Hok;
    simpl.
  - apply wp_ret. exists [], win, c.
    split; [now rewrite app_nil_r|]. split; [constructor | auto].
  - apply wp_bind.
    eapply wp_mono; [eapply lzma_code_window; eassumption|].
    intros r w1 (evs & win1 & c1 & Ht & Hr & Hp1 & Hok1).
    apply wp_bind. eapply wp_mono; [eapply IH; eassumption|].
    intros rs w2 (evs2 & win2 & c2 & Ht2 & Hr2 & Hp2 & Hok2).
    apply wp_ret. exists (evs ++ evs2), win2, c2.
    split; [trace_done|].
    split; [eapply window_run_app; eassumption | auto].
Qed.

(** A call of the engine, seen from the window. *)
Lemma wp_lzma_code_window win strm buffer lzaction
  (Q : lzma_ret * lzma_stream L * list byte -> World L G -> Prop) w :
  window_at cap win strm buffer ->
  (forall r strm' buffer' p,
      Z.of_nat (length (win ++ p)) <= cap ->
      window_at cap (win ++ p) strm' buffer' ->
      avail_in strm' <= avail_in strm ->
      Q (r, strm', buffer') (log (Ev_lzma_code lzaction r p) w)) ->
  wp (lzma_code strm buffer lzaction) Q w.
Proof.
  intros Hwin HQ. apply wp_lzma_code.
  - intros _. apply HQ; rewrite ?app_nil_r; try apply Hwin; lia.
  - intros d r d' c p _ Hstep.
    destruct (window_at_step _ _ _ _ _ _ _ _ _ Hwin Hstep) as [Hfit Hwin'].
    apply HQ; auto. simpl. lia.
Qed.

Lemma tracks_refl (t0 : list (event G)) : tracks cap t0 t0 [].
Proof.
  exists []. split; [now rewrite app_nil_r | constructor].
Qed.

Lemma tracks_app (t0 t : list (event G)) win evs win' :
  tracks cap t0 t win -> window_run cap win evs win' ->
  tracks cap t0 (t ++ evs) win'.
Proof.
  intros (evs0 & -> & Hr) Hr'. exists (evs0 ++ evs).
  split; [now rewrite app_assoc | eapply window_run_app; eassumption].
Qed.

Lemma tracks_other (t0 t : list (event G)) win e :
  tracks cap t0 t win -> is_decode_event e = false ->
  tracks cap t0 (t ++ [e]) win.
Proof.
  intros Ht He. eapply tracks_app; [exact Ht|].
  apply window_run_other, He.
Qed.

Lemma tracks_code (t0 t : list (event G)) win lzaction r p :
  tracks cap t0 t win -> Z.of_nat (length (win ++ p)) <= cap ->
  tracks cap t0 (t ++ [Ev_lzma_code lzaction r p]) (win ++ p).
Proof.
  intros Ht Hfit. eapply tracks_app; [exact Ht|].
  apply wr_code; [exact Hfit | constructor].
Qed.

Lemma tracks_alloc (t0 t : list (event G)) win :
  tracks cap t0 t win ->
  tracks cap t0 (t ++ [Ev_malloc R_mem_buffer (Z.of_nat (length win))]) win.
Proof.
  intros Ht. eapply tracks_app; [exact Ht|]. apply wr_alloc. constructor.
Qed.

Lemma tracks_drain (t0 t : list (event G)) win :
  tracks cap t0 t win -> tracks cap t0 (t ++ [Ev_add_data win]) [].
Proof.
  intros Ht. eapply tracks_app; [exact Ht|]. apply wr_drain. constructor.
Qed.

End Window.

Set Default Proof Using "Type".

(** The window of the one-shot driver. *)
Section LoadWindow.

Hypothesis bounds : engine_bounds L.

Unset Default Proof Using.

Let cap := buffer_size.

Lemma buffer_size_pos : 0 < buffer_size.
Proof. reflexivity. Qed.

Lemma buffer_size_small : buffer_size < 2 ^ 64.
Proof. reflexivity. Qed.

Ltac tracked :=
  repeat first [ eassumption
               | apply tracks_refl
               | apply tracks_drain
               | apply tracks_alloc
               | apply tracks_code; [|eassumption]
               | apply tracks_other; [|reflexivity] ].

Lemma load_refill_window (s : load_state L) w t0 win :
  window_at cap win (ls_strm s) (ls_unxz_buffer s) ->
  tracks cap t0 (trace w) win ->
  wp (load_refill s)
     (fun r w' =>
        tracks cap t0 (trace w') win
        /\ window_at cap win (ls_strm (snd r)) (ls_unxz_buffer (snd r))) w.
Proof.
  intros Hwin Ht. unfold load_refill.
  wp_go; simpl; (split; [tracked | exact Hwin]).
Qed.

Lemma load_decode_window (s : load_state L) w t0 win :
  window_at cap win (ls_strm s) (ls_unxz_buffer s) ->
  tracks cap t0 (trace w) win ->
  wp (load_decode s)
     (fun r w' =>
        exists win',
          tracks cap t0 (trace w') win'
          /\ window_at cap win' (ls_strm (snd r)) (ls_unxz_buffer (snd r)))
     w.
Proof.
  intros Hwin Ht. unfold load_decode.
  apply wp_bind.
  eapply (wp_lzma_code_window cap buffer_size_pos bounds); [exact Hwin|].
  intros r strm' buffer' p Hfit Hwin' _.
  destruct (window_at_drain cap buffer_size_pos buffer_size_small _ _ _ Hwin')
    as [Hsize Hcpy].
  simpl. fold cap. rewrite Hsize, Hcpy.
  wp_go; simpl.
  all: eexists; split; [tracked|].
  all: try (eapply (window_at_reset cap buffer_size_pos); eassumption);
    try exact Hwin'.
Qed.

Lemma load_loop_window fuel : forall (s : load_state L) w t0 win,
  window_at cap win (ls_strm s) (ls_unxz_buffer s) ->
  tracks cap t0 (trace w) win ->
  wp (load_loop fuel s)
     (fun _ w' => exists win', tracks cap t0 (trace w') win') w.
Proof.
  induction fuel as [|fuel IH]; intros s w t0 win Hwin Ht; simpl.
  - exact I.
  - apply wp_bind.
    eapply wp_mono; [eapply load_refill_window; eassumption|].
    intros [[msg|] s1] w1 [Ht1 Hwin1]; simpl in *.
    + apply wp_ret. eauto.
    + apply wp_bind.
      eapply wp_mono; [eapply load_decode_window; eassumption|].
      intros [[msg|[|]] s2] w2 (win2 & Ht2 & Hwin2); simpl in *.
      * apply wp_ret. eauto.
      * eapply IH; eassumption.
      * apply wp_ret. eauto.
Qed.

Lemma load_window fuel file w :
  malloc_sized malloc_contents ->
  wp (gdk_pixbuf__load_xz_image malloc_contents fuel file)
     (fun _ w' => exists win, tracks cap (trace w) (trace w') win) w.
Proof.
  intros Hsized.
  unfold gdk_pixbuf__load_xz_image, load_failure.
  wp_go; simpl; try (eexists; tracked; fail).
  eapply wp_mono.
  { eapply load_loop_window with (t0 := trace w) (win := []).
    - simpl. unfold window_at; simpl.
      rewrite Hsized by (unfold buffer_size; discriminate).
      pose proof buffer_size_pos.
      repeat split; try reflexivity; unfold cap; lia.
    - simpl. tracked. }
  intros [failure s1] w1 (win1 & Ht1); simpl.
  wp_go; simpl; eexists; tracked.
Qed.

End LoadWindow.

Set Default Proof Using "Type".

(** ** Runs that return *)

Lemma twp_ret {A} (a : A) (Q : A -> World L G -> Prop) w :
  Q a w -> twp (ret a) Q w.
Proof. exact (fun H => H). Qed.

Lemma twp_bind {A B} (m : M L G A) (k : A -> M L G B) Q w :
  twp m (fun a w' => twp (k a) Q w') w -> twp (bind m k) Q w.
Proof.
  unfold twp, bind. destruct (m w); auto.
Qed.

Lemma twp_mono {A} (m : M L G A) (Q Q' : A -> World L G -> Prop) w :
  twp m Q w -> (forall a w', Q a w' -> Q' a w') -> twp m Q' w.
Proof.
  unfold twp. destruct (m w); auto.
Qed.

Lemma twp_returns {A} (m : M L G A) Q w :
  twp m Q w -> exists a w', m w = Returns a w' /\ Q a w'.
Proof.
  unfold twp. destruct (m w) as [a w'| |]; intros H; try contradiction.
  eauto.
Qed.

Lemma twp_intro {A} (m : M L G A) (Q : A -> World L G -> Prop) w a w' :
  m w = Returns a w' -> Q a w' -> twp m Q w.
Proof.
  intros E HQ. unfold twp. rewrite E. exact HQ.
Qed.

Lemma twp_emit (e : event G) (Q : unit -> World L G -> Prop) w :
  Q tt (log e w) -> twp (emit e) Q w.
Proof. exact (fun H => H). Qed.

Lemma twp_malloc r n (Q : bool -> World L G -> Prop) w :
  alloc_plan w = [] ->
  Q true {| heap := heap w; alloc_plan := [];
            trace := trace w ++ [Ev_malloc r n] |} ->
  twp (malloc r n) Q w.
Proof.
  intros Hp HQ. unfold twp, malloc. rewrite Hp. exact HQ.
Qed.

Lemma twp_calloc_context (Q : option ctx_ptr -> World L G -> Prop) w :
  alloc_plan w = [] ->
  Q (Some (length (heap w)))
    {| heap := heap w ++ [Some zeroed_context]; alloc_plan := [];
       trace := trace w ++
                [Ev_malloc R_context sizeof_XZImageDecodeContext] |} ->
  twp calloc_context Q w.
Proof.
  intros Hp HQ. unfold twp, calloc_context. rewrite Hp. exact HQ.
Qed.

Lemma twp_deref p c (Q : XZImageDecodeContext L G -> World L G -> Prop) w :
  nth_error (heap w) p = Some (Some c) -> Q c w -> twp (deref p) Q w.
Proof.
  intros Hp HQ. unfold twp, deref. rewrite Hp. exact HQ.
Qed.

Lemma twp_assign p c old (Q : unit -> World L G -> Prop) w :
  nth_error (heap w) p = Some (Some old) ->
  Q tt {| heap := list_set (heap w) p (Some c);
          alloc_plan := alloc_plan w; trace := trace w |} ->
  twp (assign p c) Q w.
Proof.
  intros Hp HQ. unfold twp, assign. rewrite Hp. exact HQ.
Qed.

Lemma twp_free_context p old (Q : unit -> World L G -> Prop) w :
  nth_error (heap w) p = Some (Some old) ->
  Q tt {| heap := list_set (heap w) p None;
          alloc_plan := alloc_plan w;
          trace := trace w ++ [Ev_free R_context] |} ->
  twp (free_context p) Q w.
Proof.
  intros Hp HQ. unfold twp, free_context. rewrite Hp. exact HQ.
Qed.

Lemma twp_lzma_code strm out action d r d' c p
  (Q : lzma_ret * lzma_stream L * list byte -> World L G -> Prop) w :
  internal strm = Some d ->
  lzma_step L d (firstn (Z.to_nat (avail_in strm)) (next_in strm))
    (Z.to_nat (avail_out strm)) action = (r, d', c, p) ->
  Q (r,
     {| next_in := skipn c (next_in strm);
        avail_in := avail_in strm - Z.of_nat c;
        next_out := next_out strm + Z.of_nat (length p);
        avail_out := avail_out strm - Z.of_nat (length p);
        internal := Some d' |},
     write_at out (Z.to_nat (next_out strm)) p)
    (log (Ev_lzma_code action r p) w) ->
  twp (lzma_code strm out action) Q w.
Proof.
  intros Hi Hs HQ. unfold lzma_code. rewrite Hi, Hs.
  apply twp_bind, twp_emit, twp_ret. exact HQ.
Qed.

(** A round of the loop from a fresh window, when the engine answers
    [LZMA_OK] or [LZMA_STREAM_END] and memory is not short: the round
    appends what the engine produced as one segment, resets the window,
    and asks for another round exactly when input is left. *)
Lemma lzma_code_round_returns cap context inp d lzaction r d' c p w :
  0 < cap < 2 ^ 64 ->
  at_rest cap context inp d ->
  lzma_step L d inp (Z.to_nat cap) lzaction = (r, d', c, p) ->
  r = LZMA_OK \/ r = LZMA_STREAM_END ->
  (c <= length inp)%nat -> (length p <= Z.to_nat cap)%nat ->
  alloc_plan w = [] ->
  exists context' w',
    lzma_code_round context lzaction w
    = Returns (inr (negb (length inp - c =? 0)%nat), context') w'
    /\ at_rest cap context' (skipn c inp) d'
    /\ same_callbacks context context'
    /\ extends_stream context context' [Ev_add_data p]
    /\ heap w' = heap w
    /\ alloc_plan w' = []
    /\ trace w' = trace w ++ [Ev_lzma_code lzaction r p;
                              Ev_malloc R_mem_buffer (Z.of_nat (length p));
                              Ev_add_data p].
Proof.
  intros Hcap (strm & buffer & stream & Hs & Hb & Hm & Hsz & Hlen & Hni
               & Hai & Hno & Hao & Hint) Hstep Hr Hc Hp Hplan.
  assert (Hstep' : lzma_step L d
                     (firstn (Z.to_nat (avail_in strm)) (next_in strm))
                     (Z.to_nat (avail_out strm)) lzaction = (r, d', c, p)).
  { rewrite Hai, Hni, Hao, Nat2Z.id, firstn_all. exact Hstep. }
  assert (Hsize : size_sub cap (cap - Z.of_nat (length p))
                  = Z.of_nat (length p)).
  { rewrite size_sub_small; lia. }
  assert (Hcopy : firstn (length p) (write_at buffer 0 p) = p).
  { change (length p) with (0 + length p)%nat at 1.
    rewrite firstn_write_at by lia. reflexivity. }
  assert (Hagain : (avail_in strm - Z.of_nat c =? 0)
                   = (length inp - c =? 0)%nat).
  { rewrite Hai. destruct (Nat.eqb_spec (length inp - c) 0);
      [apply Z.eqb_eq | apply Z.eqb_neq]; lia. }
  cut (twp (lzma_code_round context lzaction)
         (fun res w' =>
            fst res = inr (negb (length inp - c =? 0)%nat)
            /\ at_rest cap (snd res) (skipn c inp) d'
            /\ same_callbacks context (snd res)
            /\ extends_stream context (snd res) [Ev_add_data p]
            /\ heap w' = heap w
            /\ alloc_plan w' = []
            /\ trace w' = trace w ++ [Ev_lzma_code lzaction r p;
                                      Ev_malloc R_mem_buffer
                                        (Z.of_nat (length p));
                                      Ev_add_data p]) w).
  { intros H. apply twp_returns in H.
    destruct H as ([res context'] & w' & Hrun & Hres & Hrest).
    simpl in Hres. subst res. exists context', w'. split; assumption. }
  unfold lzma_code_round. rewrite Hs, Hb. unfold non_null.
  apply twp_bind, twp_ret, twp_bind, twp_ret, twp_bind.
  eapply twp_lzma_code; [exact Hint | exact Hstep'|].
  simpl.
  replace (lzma_ret_eqb r LZMA_OK || lzma_ret_eqb r LZMA_STREAM_END)
    with true by (destruct Hr; subst r; reflexivity).
  rewrite Hsz, Hao, Hsize, Hno.
  apply twp_bind, twp_malloc; [exact Hplan|]. simpl.
  unfold memcpy. rewrite Nat2Z.id.
  replace (length p <=? length (write_at buffer (Z.to_nat 0) p))%nat
    with true
    by (symmetry; apply Nat.leb_le; change (Z.to_nat 0) with 0%nat;
        rewrite length_write_at; lia).
  change (Z.to_nat 0) with 0%nat. rewrite Hcopy.
  apply twp_bind, twp_ret. rewrite Hm.
  apply twp_bind, twp_ret, twp_bind, twp_emit, twp_ret. simpl.
  split; [now rewrite Hagain|]. split.
  { eexists _, _, _. simpl.
    split; [reflexivity|]. split; [reflexivity|]. split; [reflexivity|].
    split; [reflexivity|]. rewrite length_write_at by lia.
    split; [exact Hlen|]. rewrite Hni.
    split; [reflexivity|]. split; [simpl; rewrite Hai, length_skipn; lia|].
    auto. }
  split; [repeat split; auto|]. split.
  { intros s0 Hs0. rewrite Hm in Hs0. injection Hs0 as <-.
    eexists. split; reflexivity. }
  split; [reflexivity|]. split; [reflexivity|].
  rewrite <- !app_assoc. reflexivity.
Qed.

Lemma at_rest_set_in cap context strm inp0 d buf :
  at_rest cap context inp0 d ->
  lzstream context = Some strm ->
  at_rest cap
    (with_lzstream context (Some (set_in strm buf (Z.of_nat (length buf)))))
    buf d.
Proof.
  intros (strm0 & buffer & stream & Hs & Hb & Hm & Hsz & Hlen & _ & _
          & Hno & Hao & Hint) Hs'.
  rewrite Hs in Hs'. injection Hs' as <-.
  exists (set_in strm0 buf (Z.of_nat (length buf))), buffer, stream.
  simpl. repeat split; assumption.
Qed.

Lemma opened_at_rest size_f prepare_f updated_f extra err (d : lzma_dec L) :
  malloc_sized malloc_contents ->
  at_rest (Z.shiftl 1 16)
    (opened_context (G:=G) malloc_contents size_f prepare_f updated_f extra
       err (Some d)) [] d.
Proof.
  intros Hsized. eexists _, _, _. simpl.
  repeat (split; [reflexivity|]).
  split; [apply Hsized; discriminate|]. repeat split.
Qed.

(** A call of [_gdk_pixbuf__lzma_code] that one call of the engine serves
    whole. *)
Lemma lzma_code_one_round_returns cap fuel p buf lzaction context inp0 d r d'
  out w :
  0 < cap < 2 ^ 64 ->
  nth_error (heap w) p = Some (Some context) ->
  at_rest cap context inp0 d ->
  lzma_step L d buf (Z.to_nat cap) lzaction = (r, d', length buf, out) ->
  r = LZMA_OK \/ r = LZMA_STREAM_END ->
  (length out <= Z.to_nat cap)%nat ->
  alloc_plan w = [] ->
  exists context' w',
    _gdk_pixbuf__lzma_code (S fuel) p buf lzaction w = Returns true w'
    /\ nth_error (heap w') p = Some (Some context')
    /\ at_rest cap context' [] d'
    /\ same_callbacks context context'
    /\ extends_stream context context' [Ev_add_data out]
    /\ alloc_plan w' = []
    /\ trace w' = trace w ++ [Ev_lzma_code lzaction r out;
                              Ev_malloc R_mem_buffer (Z.of_nat (length out));
                              Ev_add_data out].
Proof.
  intros Hcap Hp Hrest Hstep Hr Hout Hplan.
  destruct Hrest as (strm & Hrest'). pose proof Hrest' as Hrest.
  destruct Hrest' as (buffer & stream & Hs & _).
  assert (Hrest1 : at_rest cap context inp0 d) by (exists strm; exact Hrest).
  pose proof (at_rest_set_in _ _ _ _ _ buf Hrest1 Hs) as Hrest2.
  destruct (lzma_code_round_returns _ _ _ _ _ _ _ _ _ w Hcap Hrest2 Hstep Hr
              (Nat.le_refl _) Hout Hplan)
    as (context' & w' & Hrun & Hrest3 & Hsame & Hext & Hheap & Hplan'
        & Htrace).
  rewrite Nat.sub_diag, skipn_all in *. simpl in Hrun.
  cut (twp (_gdk_pixbuf__lzma_code (S fuel) p buf lzaction)
         (fun res w'' =>
            res = true
            /\ nth_error (heap w'') p = Some (Some context')
            /\ alloc_plan w'' = [] /\ trace w'' = trace w') w).
  { intros H. apply twp_returns in H.
    destruct H as (res & w'' & Hrun' & -> & Hp' & Hplan'' & Htrace').
    exists context', w''. rewrite Htrace'.
    repeat (split; [assumption|]). assumption. }
  unfold _gdk_pixbuf__lzma_code.
  apply twp_bind. eapply twp_deref; [exact Hp|].
  rewrite Hs. unfold non_null. apply twp_bind, twp_ret, twp_bind.
  simpl lzma_code_loop. apply twp_bind.
  eapply twp_intro; [exact Hrun|]. apply twp_ret.
  apply twp_bind. eapply twp_assign; [rewrite Hheap; exact Hp|].
  apply twp_ret. simpl.
  split; [reflexivity|].
  split; [rewrite Hheap; eapply nth_error_list_set; exact Hp|].
  split; [exact Hplan' | reflexivity].
Qed.

(** ** Sessions over a valid stream *)

Lemma begin_load_returns size_f prepare_f updated_f extra err d0 w :
  lzma_stream_decoder L UINT64_MAX LZMA_CONCATENATED = (LZMA_OK, Some d0) ->
  alloc_plan w = [] ->
  exists w',
    gdk_pixbuf__begin_load_xz_image malloc_contents size_f prepare_f
      updated_f extra err w = Returns (Some (length (heap w))) w'
    /\ nth_error (heap w') (length (heap w))
       = Some (Some (opened_context malloc_contents size_f prepare_f
                       updated_f extra err (Some d0)))
    /\ alloc_plan w' = []
    /\ trace w' = trace w ++ opening_events.
Proof.
  intros Hdec Hplan.
  cut (twp (gdk_pixbuf__begin_load_xz_image malloc_contents size_f prepare_f
              updated_f extra err)
         (fun r w' =>
            r = Some (length (heap w))
            /\ nth_error (heap w') (length (heap w))
               = Some (Some (opened_context malloc_contents size_f
                               prepare_f updated_f extra err (Some d0)))
            /\ alloc_plan w' = []
            /\ trace w' = trace w ++ opening_events) w).
  { intros H. apply twp_returns in H.
    destruct H as (r & w' & Hrun & -> & Hrest). exists w'. auto. }
  unfold gdk_pixbuf__begin_load_xz_image.
  apply twp_bind, twp_calloc_context; [exact Hplan|].
  apply twp_bind. eapply twp_deref; [simpl; apply nth_error_app_last|].
  apply twp_bind, twp_malloc; [reflexivity|]. simpl.
  rewrite Hdec. simpl.
  apply twp_bind, twp_emit, twp_bind, twp_malloc; [reflexivity|]. simpl.
  apply twp_bind, twp_emit, twp_bind.
  eapply twp_assign; [simpl; apply nth_error_app_last|].
  apply twp_ret. simpl.
  split; [reflexivity|].
  split; [rewrite list_set_app_last; apply nth_error_app_last|].
  split; [reflexivity|]. rewrite <- !app_assoc. reflexivity.
Qed.

Lemma accumulated_app (t1 t2 : list (event G)) :
  accumulated (t1 ++ t2) = accumulated t1 ++ accumulated t2.
Proof.
  unfold accumulated. now rewrite segments_app, concat_app.
Qed.

Section Streaming.

Variable C : stream_contract L.
Variable cap : Z.
Hypothesis cap_ok : 0 < cap < 2 ^ 64.
Variable s : list byte.
Hypothesis s_valid : valid C s.

Unset Default Proof Using.

(** The loop on a chunk that continues [s]: it reads the chunk to its
    end and appends everything the engine writes meanwhile. *)
Lemma lzma_code_loop_returns : forall fuel context inp i o d rest w,
  consumed C d i o ->
  s = i ++ inp ++ rest ->
  inp <> [] ->
  at_rest cap context inp d ->
  alloc_plan w = [] ->
  (length inp + (length (plain C s) - length o) < fuel)%nat ->
  exists context' w' d' evs,
    lzma_code_loop fuel context LZMA_RUN w = Returns (None, context') w'
    /\ at_rest cap context' [] d'
    /\ consumed C d' (i ++ inp) (o ++ accumulated evs)
    /\ same_callbacks context context'
    /\ heap w' = heap w
    /\ alloc_plan w' = []
    /\ trace w' = trace w ++ evs.
Proof.
  induction fuel as [|fuel IH];
    intros context inp i o d rest w Hcons Hs Hne Hrest Hplan Hfuel;
    [lia|].
  destruct (lzma_step L d inp (Z.to_nat cap) LZMA_RUN)
    as [[[r d'] c] p] eqn:Hstep.
  assert (Hroom : (0 < Z.to_nat cap)%nat) by lia.
  destruct (contract_run C s d i o inp rest _ _ _ _ _ s_valid Hcons Hs Hne
              Hroom Hstep)
    as (Hr & Hc & Hp & Hprog & Hcons').
  destruct (lzma_code_round_returns _ _ _ _ _ _ _ _ _ w cap_ok Hrest Hstep Hr Hc Hp
              Hplan)
    as (c1 & w1 & Hrun & Hrest1 & Hsame1 & _ & Hheap1 & Hplan1 & Ht1).
  assert (Hacc1 : accumulated
                    [Ev_lzma_code (G:=G) LZMA_RUN r p;
                     Ev_malloc R_mem_buffer (Z.of_nat (length p));
                     Ev_add_data p] = p).
  { unfold accumulated. simpl. apply app_nil_r. }
  simpl lzma_code_loop. unfold bind at 1. rewrite Hrun.
  destruct (Nat.eqb_spec (length inp - c) 0) as [Hdone | Hmore]; simpl.
  - assert (Hcl : c = length inp) by lia.
    rewrite Hcl, firstn_all in Hcons'. rewrite Hcl, skipn_all in Hrest1.
    eexists c1, w1, d', _. split; [reflexivity|].
    split; [exact Hrest1|]. split; [rewrite Hacc1; exact Hcons'|].
    split; [exact Hsame1|]. split; [exact Hheap1|].
    split; [exact Hplan1 | exact Ht1].
  - assert (Hs1 : s = (i ++ firstn c inp) ++ skipn c inp ++ rest).
    { rewrite <- app_assoc, (app_assoc (firstn c inp)), firstn_skipn.
      exact Hs. }
    assert (Hne1 : skipn c inp <> []).
    { intros E. apply (f_equal (@length byte)) in E.
      rewrite length_skipn in E. simpl in E. lia. }
    pose proof (contract_output C s d' _ _ _ s_valid Hcons' Hs1) as Hout.
    rewrite length_app in Hout.
    destruct (IH c1 (skipn c inp) (i ++ firstn c inp) (o ++ p) d' rest w1
                Hcons' Hs1 Hne1 Hrest1 Hplan1)
      as (c2 & w2 & d2 & evs2 & Hrun2 & Hrest2 & Hcons2 & Hsame2 & Hheap2
          & Hplan2 & Ht2).
    { rewrite length_skipn, length_app. lia. }
    exists c2, w2, d2,
      ([Ev_lzma_code LZMA_RUN r p;
        Ev_malloc R_mem_buffer (Z.of_nat (length p)); Ev_add_data p]
       ++ evs2).
    split; [exact Hrun2|]. split; [exact Hrest2|]. split.
    { rewrite accumulated_app, Hacc1, app_assoc.
      rewrite <- app_assoc, firstn_skipn in Hcons2. exact Hcons2. }
    split; [eapply same_callbacks_trans; eassumption|].
    split; [congruence|]. split; [exact Hplan2|].
    rewrite Ht2, Ht1, <- app_assoc. reflexivity.
Qed.

(** A push of a chunk that continues [s]. *)
Lemma push_returns fuel p buf context inp0 i o d rest w :
  nth_error (heap w) p = Some (Some context) ->
  at_rest cap context inp0 d ->
  consumed C d i o ->
  s = i ++ buf ++ rest ->
  buf <> [] ->
  alloc_plan w = [] ->
  (length s + length (plain C s) < fuel)%nat ->
  exists context' w' d' evs,
    gdk_pixbuf__load_xz_image_increment fuel p buf w = Returns true w'
    /\ nth_error (heap w') p = Some (Some context')
    /\ at_rest cap context' [] d'
    /\ consumed C d' (i ++ buf) (o ++ accumulated evs)
    /\ same_callbacks context context'
    /\ alloc_plan w' = []
    /\ trace w' = trace w ++ evs.
Proof.
  intros Hp Hrest Hcons Hs Hne Hplan Hfuel.
  destruct Hrest as (strm & Hrest'). pose proof Hrest' as Hrest.
  destruct Hrest' as (buffer & stream & Hstrm & _).
  assert (Hrest1 : at_rest cap context inp0 d) by (exists strm; exact Hrest).
  pose proof (at_rest_set_in _ _ _ _ _ buf Hrest1 Hstrm) as Hrest2.
  destruct (lzma_code_loop_returns fuel _ buf i o d rest w Hcons Hs Hne
              Hrest2 Hplan)
    as (c' & w' & d' & evs & Hrun & Hrest3 & Hcons' & Hsame & Hheap & Hplan'
        & Ht).
  { assert (length buf <= length s)%nat
      by (rewrite Hs at 1; rewrite !length_app; lia).
    lia. }
  cut (twp (gdk_pixbuf__load_xz_image_increment fuel p buf)
         (fun res w'' =>
            res = true
            /\ nth_error (heap w'') p = Some (Some c')
            /\ alloc_plan w'' = [] /\ trace w'' = trace w') w).
  { intros H. apply twp_returns in H.
    destruct H as (res & w'' & Hrun' & -> & Hp' & Hplan'' & Ht').
    exists c', w'', d', evs. rewrite Ht', Ht.
    split; [exact Hrun'|]. split; [exact Hp'|]. split; [exact Hrest3|].
    split; [exact Hcons'|]. split; [|split; [exact Hplan'' | reflexivity]].
    destruct Hsame as (A1 & A2 & A3 & A4 & A5). simpl in *.
    repeat split; assumption. }
  unfold gdk_pixbuf__load_xz_image_increment, _gdk_pixbuf__lzma_code.
  apply twp_bind. eapply twp_deref; [exact Hp|].
  rewrite Hstrm. unfold non_null. apply twp_bind, twp_ret, twp_bind.
  eapply twp_intro; [exact Hrun|].
  apply twp_bind. eapply twp_assign; [rewrite Hheap; exact Hp|].
  apply twp_ret. simpl.
  split; [reflexivity|].
  split; [rewrite Hheap; eapply nth_error_list_set; exact Hp|].
  split; [exact Hplan' | reflexivity].
Qed.

(** All the chunks of a split of [s], one after the other. *)
Lemma push_all_returns fuel p : forall bufs context inp0 i o d rest w,
  nth_error (heap w) p = Some (Some context) ->
  at_rest cap context inp0 d ->
  consumed C d i o ->
  s = i ++ concat bufs ++ rest ->
  Forall (fun buf => buf <> []) bufs ->
  alloc_plan w = [] ->
  (length s + length (plain C s) < fuel)%nat ->
  exists rs context' inp' w' d' evs,
    push_all fuel p bufs w = Returns rs w'
    /\ Forall (fun r => r = true) rs
    /\ nth_error (heap w') p = Some (Some context')
    /\ at_rest cap context' inp' d'
    /\ consumed C d' (i ++ concat bufs) (o ++ accumulated evs)
    /\ same_callbacks context context'
    /\ alloc_plan w' = []
    /\ trace w' = trace w ++ evs.
Proof.
  induction bufs as [|buf bufs IH];
    intros context inp0 i o d rest w Hp Hrest Hcons Hs Hne Hplan Hfuel.
  - exists [], context, inp0, w, d, [].
    simpl. unfold accumulated. simpl. rewrite !app_nil_r.
    repeat split; auto.
  - pose proof (Forall_inv Hne) as Hbuf.
    pose proof (Forall_inv_tail Hne) as Hne'.
    simpl in Hs. rewrite <- app_assoc in Hs.
    destruct (push_returns fuel p buf _ _ i o d _ w Hp Hrest Hcons Hs Hbuf
                Hplan Hfuel)
      as (c1 & w1 & d1 & evs1 & Hrun1 & Hp1 & Hrest1 & Hcons1 & Hsame1
          & Hplan1 & Ht1).
    destruct (IH c1 [] (i ++ buf) (o ++ accumulated evs1) d1 rest w1 Hp1
                Hrest1 Hcons1)
      as (rs & c2 & inp2 & w2 & d2 & evs2 & Hrun2 & Hrs & Hp2 & Hrest2
          & Hcons2 & Hsame2 & Hplan2 & Ht2); auto.
    { rewrite <- app_assoc. exact Hs. }
    exists (true :: rs), c2, inp2, w2, d2, (evs1 ++ evs2).
    split.
    { simpl. unfold bind at 1. rewrite Hrun1.
      unfold bind at 1. rewrite Hrun2. reflexivity. }
    split; [constructor; auto|]. split; [exact Hp2|].
    split; [exact Hrest2|]. split.
    { simpl. rewrite accumulated_app, !app_assoc.
      rewrite <- !app_assoc in Hcons2. rewrite <- !app_assoc.
      exact Hcons2. }
    split; [eapply same_callbacks_trans; eassumption|].
    split; [exact Hplan2|]. rewrite Ht2, Ht1, <- app_assoc. reflexivity.
Qed.

(** [stop_load] once [s] has been read to its end. *)
Lemma stop_load_returns fuel p context inp0 d o w :
  nth_error (heap w) p = Some (Some context) ->
  at_rest cap context inp0 d ->
  consumed C d s o ->
  alloc_plan w = [] ->
  exists r w' evs,
    gdk_pixbuf__stop_load_xz_image (S fuel) p w = Returns r w'
    /\ trace w' = trace w ++ evs
    /\ o ++ accumulated evs = plain C s.
Proof.
  intros Hp Hrest Hcons Hplan.
  destruct (lzma_step L d [] (Z.to_nat cap) LZMA_FINISH)
    as [[[r d'] c] out] eqn:Hstep.
  assert (Hroom : (0 < Z.to_nat cap)%nat) by lia.
  destruct (contract_finish C s d o _ _ _ _ _ s_valid Hcons Hroom Hstep)
    as (-> & -> & Hout & Hplain).
  destruct (lzma_code_one_round_returns _ fuel _ _ _ _ _ _ _ _ _ _ cap_ok Hp
              Hrest Hstep (or_intror eq_refl) Hout Hplan)
    as (c1 & w1 & Hrun & Hp1 & Hrest1 & _ & _ & Hplan1 & Ht1).
  destruct Hrest1 as (strm & buffer & stream & Hs1 & Hb1 & Hm1 & _).
  cut (twp (gdk_pixbuf__stop_load_xz_image (S fuel) p)
         (fun _ w' =>
            exists evs, trace w' = trace w1 ++ evs /\ accumulated evs = [])
         w).
  { intros H. apply twp_returns in H.
    destruct H as (res & w' & Hrun' & evs & Ht & Hacc).
    do 3 eexists. split; [exact Hrun'|].
    split; [rewrite Ht, Ht1, <- app_assoc; reflexivity|].
    rewrite accumulated_app, Hacc, app_nil_r. unfold accumulated. simpl.
    rewrite app_nil_r. exact Hplain. }
  unfold gdk_pixbuf__stop_load_xz_image.
  apply twp_bind. eapply twp_intro; [exact Hrun|].
  apply twp_bind. eapply twp_deref; [exact Hp1|].
  rewrite Hs1. unfold non_null. apply twp_bind, twp_ret, twp_bind, twp_emit.
  simpl. rewrite Hm1.
  apply twp_bind, twp_ret, twp_bind, twp_emit, twp_bind, twp_emit.
  apply twp_bind. eapply twp_assign; [simpl; exact Hp1|]. simpl.
  destruct (gdk_pixbuf_new_from_stream G (stream_bytes stream)) as [pb|];
    destruct (prepare_func c1), (updated_func c1);
    repeat first [ apply twp_bind | apply twp_emit | apply twp_ret ];
    (eapply twp_free_context;
     [simpl; eapply nth_error_list_set; exact Hp1|]);
    apply twp_ret; simpl;
    (eexists; split; [rewrite <- !app_assoc; reflexivity | reflexivity]).
Qed.

End Streaming.

Set Default Proof Using "Type".

(** A whole session over a valid file, whatever its chunks. *)
Lemma session_returns (C : stream_contract L) s fuel size_f prepare_f
  updated_f extra bufs w :
  malloc_sized malloc_contents ->
  valid C s ->
  concat bufs = s ->
  Forall (fun buf => buf <> []) bufs ->
  alloc_plan w = [] ->
  (length s + length (plain C s) < fuel)%nat ->
  exists rs r w',
    session malloc_contents fuel size_f prepare_f updated_f extra bufs w
    = Returns (Some (rs, r)) w'
    /\ Forall (fun b => b = true) rs
    /\ accumulated (events_since w w') = plain C s.
Proof.
  intros Hsized Hvalid Hs Hne Hplan Hfuel.
  assert (Hcap : 0 < Z.shiftl 1 16 < 2 ^ 64)
    by (change (Z.shiftl 1 16) with 65536; lia).
  destruct (contract_init C) as (d0 & Hdec & Hcons0).
  destruct (begin_load_returns size_f prepare_f updated_f extra None d0 w
              Hdec Hplan)
    as (w0 & Hbegin & Hp0 & Hplan0 & Ht0).
  assert (Hsplit : s = [] ++ concat bufs ++ [])
    by (now rewrite app_nil_r).
  destruct (push_all_returns C _ Hcap s Hvalid fuel _ bufs _ [] [] [] d0 []
              w0 Hp0 (opened_at_rest _ _ _ _ _ d0 Hsized) Hcons0 Hsplit Hne
              Hplan0 Hfuel)
    as (rs & c1 & inp1 & w1 & d1 & evs1 & Hpush & Hrs & Hp1 & Hrest1 & Hcons1
        & _ & Hplan1 & Ht1).
  simpl in Hcons1. rewrite Hs in Hcons1.
  destruct fuel as [|fuel']; [lia|].
  destruct (stop_load_returns C _ Hcap s Hvalid fuel' _ c1 inp1 d1 _ w1 Hp1
              Hrest1 Hcons1 Hplan1)
    as (r & w2 & evs2 & Hstop & Ht2 & Hplain).
  exists rs, r, w2. split.
  - unfold session, bind. rewrite Hbegin, Hpush, Hstop. reflexivity.
  - split; [exact Hrs|].
    rewrite (events_since_app w w2 (opening_events ++ evs1 ++ evs2)).
    + rewrite !accumulated_app. exact Hplain.
    + rewrite Ht2, Ht1, Ht0, <- !app_assoc. reflexivity.
Qed.

(** * The claims *)

(** C1: for every valid compressed file and every way of splitting it into
    non-empty chunks, a session that is fed the chunks in order with
    [gdk_pixbuf__load_xz_image_increment] and then finished with
    [gdk_pixbuf__stop_load_xz_image] runs to its end with every push
    returning TRUE, and the bytes it accumulates in the memory stream are
    the payload of the file; two splits of one file therefore accumulate
    identical byte sequences.  The engine is any engine that meets the
    streaming contract, and no allocation fails. *)
Theorem chunking_does_not_change_accumulated_bytes (C : stream_contract L)
  s fuel size_f prepare_f updated_f extra chunks1 chunks2 w :
  malloc_sized malloc_contents ->
  valid C s ->
  concat chunks1 = s ->
  concat chunks2 = s ->
  Forall (fun buf => buf <> []) chunks1 ->
  Forall (fun buf => buf <> []) chunks2 ->
  alloc_plan w = [] ->
  (length s + length (plain C s) < fuel)%nat ->
  exists rs1 r1 w1 rs2 r2 w2,
    session malloc_contents fuel size_f prepare_f updated_f extra chunks1 w
    = Returns (Some (rs1, r1)) w1
    /\ session malloc_contents fuel size_f prepare_f updated_f extra chunks2 w
       = Returns (Some (rs2, r2)) w2
    /\ Forall (fun b => b = true) rs1
    /\ Forall (fun b => b = true) rs2
    /\ accumulated (events_since w w1) = accumulated (events_since w w2)
    /\ accumulated (events_since w w1) = plain C s.
Proof.
  intros Hsized Hvalid Hs1 Hs2 Hne1 Hne2 Hplan Hfuel.
  destruct (session_returns C s fuel size_f prepare_f updated_f extra chunks1
              w Hsized Hvalid Hs1 Hne1 Hplan Hfuel)
    as (rs1 & r1 & w1 & Hrun1 & Hrs1 & Hacc1).
  destruct (session_returns C s fuel size_f prepare_f updated_f extra chunks2
              w Hsized Hvalid Hs2 Hne2 Hplan Hfuel)
    as (rs2 & r2 & w2 & Hrun2 & Hrs2 & Hacc2).
  exists rs1, r1, w1, rs2, r2, w2.
  repeat split; try assumption. congruence.
Qed.

(** C7: on a finish whose image decode succeeds (the image decoder
    accepts the bytes accumulated by the session), the session invokes the
    prepared callback exactly once, then the updated callback exactly once
    with the region x = 0, y = 0 and the width and height of the decoded
    image; these are the only callback invocations of the whole session,
    so updated is never invoked more than once. *)
Theorem finish_fires_prepared_then_updated_once
  size_f f g extra err fuel fuel' chunks w p w1 rs w2 r w3 pb :
  gdk_pixbuf__begin_load_xz_image malloc_contents size_f (Some f) (Some g)
    extra err w = Returns (Some p) w1 ->
  push_all fuel p chunks w1 = Returns rs w2 ->
  gdk_pixbuf__stop_load_xz_image fuel' p w2 = Returns r w3 ->
  gdk_pixbuf_new_from_stream G (accumulated (events_since w w3)) = Some pb ->
  callbacks (events_since w w3)
  = [Ev_prepared f pb extra;
     Ev_updated g pb 0 0 (gdk_pixbuf_get_width G pb)
       (gdk_pixbuf_get_height G pb) extra]
  /\ In (Ev_pixbuf_new_from_stream (accumulated (events_since w w3)) true)
       (events_since w w3).
Proof.
  intros Hb Hp Hs Hdec.
  destruct (session_phases _ _ _ _ _ _ _ _ _ _ _ _ _ _ _ Hb Hp Hs)
    as (_ & _ & c' & feeds & tail & data & S1 & S2 & S3 & S4
        & Hf & Htail & _ & Hdata & Hev).
  rewrite <- Hdata in *. rewrite Hev. split.
  - rewrite (callbacks_session _ _ _ _ Hf Htail), Hdec.
    unfold callbacks_fired. rewrite S2, S3, S4. reflexivity.
  - apply in_or_app. right. apply in_or_app. right.
    apply in_or_app. right. unfold closing_events. right. left.
    rewrite Hdec. reflexivity.
Qed.

(** C8: the size callback handed to [begin_load] is stored in the context
    and stays there, and no operation of the incremental path invokes it;
    the callbacks that fire do so only after the image decode, and only
    when it succeeded. *)
Theorem size_func_is_stored_and_never_called
  size_f prepare_f updated_f extra err fuel fuel' chunks w p w1 rs w2 r w3 :
  gdk_pixbuf__begin_load_xz_image malloc_contents size_f prepare_f updated_f
    extra err w = Returns (Some p) w1 ->
  push_all fuel p chunks w1 = Returns rs w2 ->
  gdk_pixbuf__stop_load_xz_image fuel' p w2 = Returns r w3 ->
  holds_callbacks w1 p size_f prepare_f updated_f extra
  /\ holds_callbacks w2 p size_f prepare_f updated_f extra
  /\ Forall (fun e => is_size_call e = false) (events_since w w3)
  /\ exists before data ok after,
       events_since w w3
       = before ++ Ev_pixbuf_new_from_stream data ok :: after
       /\ callbacks before = []
       /\ (ok = false -> callbacks after = []).
Proof.
  intros Hb Hp Hs.
  destruct (session_phases _ _ _ _ _ _ _ _ _ _ _ _ _ _ _ Hb Hp Hs)
    as (H1 & H2 & c' & feeds & tail & bytes & S1 & S2 & S3 & S4
        & Hf & Htail & _ & _ & Hev).
  split; [exact H1|]. split; [exact H2|]. rewrite Hev. split.
  - rewrite !Forall_app. repeat split.
    + repeat constructor.
    + eapply Forall_impl; [|exact Hf]. intros e He.
      destruct e; try discriminate; reflexivity.
    + destruct Htail as [-> | [msg ->]]; repeat constructor.
    + unfold closing_events, callbacks_fired.
      destruct (gdk_pixbuf_new_from_stream G bytes);
        destruct (prepare_func c'), (updated_func c'); repeat constructor.
  - exists (opening_events ++ feeds ++ tail ++ [Ev_lzma_end]),
      bytes,
      (is_some (gdk_pixbuf_new_from_stream G bytes)),
      (Ev_input_stream_close
       :: callbacks_fired c'
            (gdk_pixbuf_new_from_stream G bytes)
       ++ [Ev_object_unref; Ev_free R_lzstream; Ev_free R_unxz_buffer;
           Ev_free R_context]).
    split; [unfold closing_events; rewrite <- !app_assoc; reflexivity|].
    split.
    + unfold callbacks. rewrite !filter_app, (callbacks_feeds _ Hf).
      rewrite (filter_set_error_tail is_callback tail) by first [assumption | reflexivity].
      reflexivity.
    + intros Hok.
      destruct (gdk_pixbuf_new_from_stream G bytes);
        [discriminate | reflexivity].
Qed.

(** C2, as the code has it: [stop_load] releases the session.  Whatever
    it returns, the context is freed when it returns, and a later
    [stop_load] or [load_increment] on the same pointer reads freed memory:
    its behaviour is undefined, it is not a no-op. *)
Theorem finish_releases_the_context fuel p w r w' :
  gdk_pixbuf__stop_load_xz_image fuel p w = Returns r w' ->
  nth_error (heap w') p = Some None
  /\ (forall fuel', gdk_pixbuf__stop_load_xz_image fuel' p w' = Undefined)
  /\ (forall fuel' buf,
        gdk_pixbuf__load_xz_image_increment fuel' p buf w' = Undefined).
Proof.
  intros Hs.
  pose proof (wp_run _ _ _ _ _ (stop_load_spec _ _ w) Hs) as H.
  simpl in H.
  destruct H as (c & c' & evs & tail & stream & _ & _ & _ & _ & _ & _ & _
                 & Hfreed & _).
  split; [exact Hfreed|]. split.
  - intros fuel'.
    unfold gdk_pixbuf__stop_load_xz_image, _gdk_pixbuf__lzma_code, bind, deref.
    rewrite Hfreed. reflexivity.
  - intros fuel' buf.
    unfold gdk_pixbuf__load_xz_image_increment, _gdk_pixbuf__lzma_code,
      bind, deref.
    rewrite Hfreed. reflexivity.
Qed.

(** C5: in every state reached from [begin_load] by any sequence of calls
    of [_gdk_pixbuf__lzma_code], and all along a one-shot load, the write
    cursor of the scratch buffer (its capacity minus [avail_out]) stays
    within the capacity, and every drain allocates a segment of exactly as
    many bytes as were written since the last reset and copies exactly
    those bytes: this is what [window_run] checks along the trace, and
    what [window_ok] says of the context.  The engine is only assumed to
    stay within the buffers it is given. *)
Theorem scratch_window_is_drained_exactly
  size_f prepare_f updated_f extra err fuel calls w p w1 rs w2
  fuel' file (v : World L G) r v' :
  engine_bounds L ->
  malloc_sized malloc_contents ->
  gdk_pixbuf__begin_load_xz_image malloc_contents size_f prepare_f updated_f
    extra err w = Returns (Some p) w1 ->
  feed_all fuel p calls w1 = Returns rs w2 ->
  gdk_pixbuf__load_xz_image malloc_contents fuel' file v = Returns r v' ->
  (exists win c,
      window_run (Z.shiftl 1 16) [] (events_since w w2) win
      /\ nth_error (heap w2) p = Some (Some c)
      /\ window_ok (Z.shiftl 1 16) win c)
  /\ (exists win, window_run buffer_size [] (events_since v v') win).
Proof.
  intros Hbounds Hsized Hb Hf Hl. split.
  - pose proof (wp_run _ _ _ _ _ (begin_load_spec _ _ _ _ _ w) Hb) as H1.
    simpl in H1. destruct H1 as (-> & d & _ & Hh1 & Ht1).
    assert (Hat1 : nth_error (heap w1) (length (heap w))
                   = Some (Some (opened_context malloc_contents size_f
                                   prepare_f updated_f extra err d))).
    { rewrite Hh1. apply nth_error_app_last. }
    assert (Hok1 : window_ok (Z.shiftl 1 16) []
                     (opened_context (G:=G) malloc_contents size_f prepare_f
                        updated_f extra err d)).
    { eexists _, _. split; [reflexivity|]. split; [reflexivity|].
      split; [reflexivity|]. unfold window_at; simpl.
      rewrite Hsized by discriminate. repeat split; try reflexivity.
      discriminate. }
    pose proof (wp_run _ _ _ _ _
                  (feed_all_window (Z.shiftl 1 16) eq_refl eq_refl Hbounds
                     fuel _ calls w1 [] _ Hat1 Hok1) Hf) as H2.
    simpl in H2. destruct H2 as (evs & win & c & Ht2 & Hr & Hp & Hok).
    exists win, c. split; [|auto].
    rewrite (events_since_app w w2 (opening_events ++ evs))
      by (rewrite Ht2, Ht1, app_assoc; reflexivity).
    eapply window_run_app; [|exact Hr].
    unfold opening_events.
    repeat (apply wr_other; [reflexivity | discriminate | discriminate |]).
    constructor.
  - pose proof (wp_run _ _ _ _ _ (load_window Hbounds fuel' file v Hsized) Hl)
      as (win & evs & Ht & Hr).
    exists win. rewrite (events_since_app _ _ _ Ht). exact Hr.
Qed.

(** A call whose input the engine reads whole without writing a byte:
    the window is empty when it is drained, and the call still allocates
    a segment, of 0 bytes, and appends it. *)
Lemma call_with_nothing_written
  cap fuel p buf lzaction context inp0 d r d' stream w :
  0 < cap < 2 ^ 64 ->
  nth_error (heap w) p = Some (Some context) ->
  at_rest cap context inp0 d ->
  memory_istream context = Some stream ->
  lzma_step L d buf (Z.to_nat cap) lzaction = (r, d', length buf, []) ->
  r = LZMA_OK \/ r = LZMA_STREAM_END ->
  alloc_plan w = [] ->
  exists context' stream' w',
    _gdk_pixbuf__lzma_code (S fuel) p buf lzaction w = Returns true w'
    /\ events_since w w'
       = [Ev_lzma_code lzaction r []; Ev_malloc R_mem_buffer 0;
          Ev_add_data []]
    /\ nth_error (heap w') p = Some (Some context')
    /\ memory_istream context' = Some stream'
    /\ chunks stream' = chunks stream ++ [[]]
    /\ stream_bytes stream' = stream_bytes stream.
Proof.
  intros Hcap Hp Hrest Hm Hstep Hr Hplan.
  destruct (lzma_code_one_round_returns _ fuel _ _ _ _ _ _ _ _ _ _ Hcap Hp
              Hrest Hstep Hr
              (Nat.le_0_l _) Hplan)
    as (context' & w' & Hrun & Hp' & _ & _ & Hext & _ & Ht).
  destruct (Hext _ Hm) as (stream' & Hm' & Hchunks).
  exists context', stream', w'. split; [exact Hrun|].
  split; [apply events_since_app, Ht|].
  split; [exact Hp'|]. split; [exact Hm'|]. split; [exact Hchunks|].
  unfold stream_bytes. rewrite Hchunks, concat_app. simpl.
  now rewrite app_nil_r.
Qed.


End Facts.


(** * The loader on concrete bytes *)

Module Runs.

Import Stored.

(** ** The codec meets the contracts *)

Lemma scan_bounds conc action : forall inp bnd room r bnd' c p,
  scan conc bnd inp room action = (r, bnd', c, p) ->
  (c <= length inp)%nat /\ (length p <= room)%nat.
Proof.
  induction inp as [|b inp IH]; intros bnd room r bnd' c p H; simpl in H.
  - injection H as _ _ <- <-. simpl. lia.
  - destruct (Byte.eqb b x00).
    + destruct conc.
      * destruct (scan true true inp room action) as [[[r1 b1] c1] p1] eqn:E.
        injection H as _ _ <- <-. apply IH in E. simpl. lia.
      * injection H as _ _ <- <-. simpl. lia.
    + destruct (Byte.eqb b xff).
      * injection H as _ _ <- <-. simpl. lia.
      * destruct room as [|room].
        -- injection H as _ _ <- <-. simpl. lia.
        -- destruct (scan conc false inp room action)
             as [[[r1 b1] c1] p1] eqn:E.
           injection H as _ _ <- <-. apply IH in E. simpl. lia.
Qed.

Lemma stored_bounds : engine_bounds stored.
Proof.
  intros d inp room action r d' c p H. simpl in H. unfold step in H.
  destruct (seq d).
  - destruct (scan (concatenated d) (at_boundary d) inp room action)
      as [[[r1 b1] c1] p1] eqn:E.
    apply scan_bounds in E.
    destruct r1;
      try (destruct ((c1 =? 0)%nat && (length p1 =? 0)%nat));
      injection H as _ _ <- <-; exact E.
  - injection H as _ _ <- <-. simpl. lia.
  - injection H as _ _ <- <-. simpl. lia.
Qed.

Lemma fresh_sized : malloc_sized fresh.
Proof.
  intros n _. unfold fresh. apply repeat_length.
Qed.

(** ** The stored-bytes codec meets the streaming contract *)

Lemma ends_stream_app i j : forall bnd,
  ends_stream bnd (i ++ j) = ends_stream (ends_stream bnd i) j.
Proof.
  induction i as [|b i IH]; intros bnd; simpl; [reflexivity|apply IH].
Qed.

Lemma payload_app i j : payload (i ++ j) = payload i ++ payload j.
Proof. apply filter_app. Qed.

Lemma clean_app i j : clean (i ++ j) = clean i && clean j.
Proof. apply forallb_app. Qed.

Lemma clean_firstn n i : clean i = true -> clean (firstn n i) = true.
Proof.
  intros H. rewrite <- (firstn_skipn n i), clean_app in H.
  apply andb_prop in H. apply H.
Qed.

(** On clean input the coder in concatenated mode never fails; what it
    wrote is the payload of what it read. *)
Lemma scan_clean action : forall inp bnd room r bnd' c p,
  clean inp = true ->
  scan true bnd inp room action = (r, bnd', c, p) ->
  (action = LZMA_RUN -> r = LZMA_OK)
  /\ bnd' = ends_stream bnd (firstn c inp)
  /\ p = payload (firstn c inp)
  /\ (inp <> [] -> (0 < room)%nat -> (0 < c)%nat).
Proof.
  induction inp as [|b inp IH]; intros bnd room r bnd' c p Hclean H;
    simpl in H.
  - injection H as <- <- <- <-. simpl.
    split; [intros ->; reflexivity|]. repeat split. congruence.
  - simpl in Hclean. apply andb_prop in Hclean as [Hb Hclean].
    destruct (Byte.eqb b x00) eqn:E0.
    + destruct (scan true true inp room action) as [[[r1 b1] c1] p1] eqn:E.
      injection H as <- <- <- <-.
      destruct (IH _ _ _ _ _ _ Hclean E) as (Hr & Hbnd & Hp & _).
      simpl. unfold is_literal. rewrite E0. simpl.
      repeat split; auto; try congruence; try lia.
    + destruct (Byte.eqb b xff); [discriminate|].
      destruct room as [|room].
      * injection H as <- <- <- <-. simpl.
        repeat split; auto; try congruence; try lia.
      * destruct (scan true false inp room action)
          as [[[r1 b1] c1] p1] eqn:E.
        injection H as <- <- <- <-.
        destruct (IH _ _ _ _ _ _ Hclean E) as (Hr & Hbnd & Hp & _).
        simpl. unfold is_literal. rewrite E0. simpl.
        repeat split; auto; try congruence; try lia.
Qed.

Lemma stored_init :
  exists d0,
    lzma_stream_decoder stored UINT64_MAX LZMA_CONCATENATED
    = (LZMA_OK, Some d0)
    /\ has_consumed d0 [] [].
Proof.
  exists (start true). split; [reflexivity|]. repeat split.
Qed.

Lemma stored_run s d i o inp rest room r d' c p :
  well_formed s -> has_consumed d i o -> s = i ++ inp ++ rest ->
  inp <> [] -> (0 < room)%nat ->
  lzma_step stored d inp room LZMA_RUN = (r, d', c, p) ->
  (r = LZMA_OK \/ r = LZMA_STREAM_END)
  /\ (c <= length inp)%nat /\ (length p <= room)%nat
  /\ (0 < c \/ 0 < length p)%nat
  /\ has_consumed d' (i ++ firstn c inp) (o ++ p).
Proof.
  intros [Hclean _] (Hseq & Hconc & Hci & Hbnd & ->) -> Hne Hroom H.
  simpl in H. unfold step in H. rewrite Hseq, Hconc in H.
  destruct (scan true (at_boundary d) inp room LZMA_RUN)
    as [[[r1 b1] c1] p1] eqn:E.
  rewrite !clean_app in Hclean.
  apply andb_prop in Hclean as [_ Hclean].
  apply andb_prop in Hclean as [Hcinp _].
  destruct (scan_clean _ _ _ _ _ _ _ _ Hcinp E) as (Hr & Hb & Hp & Hprog).
  specialize (Hr eq_refl). specialize (Hprog Hne Hroom).
  pose proof (scan_bounds _ _ _ _ _ _ _ _ _ E) as [Hc Hlen].
  subst r1. destruct c1 as [|c1]; [lia|].
  cbn [Nat.eqb andb] in H. injection H as <- <- <- <-.
  split; [left; reflexivity|]. split; [exact Hc|]. split; [exact Hlen|].
  split; [left; lia|].
  unfold has_consumed. cbn [seq concatenated at_boundary].
  split; [reflexivity|]. split; [reflexivity|].
  split; [rewrite clean_app, Hci; apply clean_firstn, Hcinp|].
  split; [rewrite ends_stream_app, <- Hbnd; exact Hb|].
  rewrite payload_app, <- Hp. reflexivity.
Qed.

Lemma stored_output s d i o rest :
  well_formed s -> has_consumed d i o -> s = i ++ rest ->
  (length o <= length (payload s))%nat.
Proof.
  intros _ (_ & _ & _ & _ & ->) ->.
  rewrite payload_app, length_app. lia.
Qed.

Lemma stored_finish s d o room r d' c p :
  well_formed s -> has_consumed d s o -> (0 < room)%nat ->
  lzma_step stored d [] room LZMA_FINISH = (r, d', c, p) ->
  r = LZMA_STREAM_END /\ c = 0%nat /\ (length p <= room)%nat
  /\ o ++ p = payload s.
Proof.
  intros [_ Hend] (Hseq & Hconc & _ & Hbnd & ->) Hroom H.
  simpl in H. unfold step in H. rewrite Hseq, Hconc, Hbnd, Hend in H.
  simpl in H. injection H as <- <- <- <-.
  repeat split; [simpl; lia|apply app_nil_r].
Qed.

Definition stored_contract : stream_contract stored :=
  @Build_stream_contract stored payload well_formed has_consumed stored_init
    stored_run stored_output stored_finish.

Lemma returns_world_after {L G A} (m : M L G A) (w : World L G) (a : A) :
  value_of (m w) = Some a -> m w = Returns a (world_after m w).
Proof.
  unfold value_of, world_after. destruct (m w); congruence.
Qed.

(** A session just opened: the context is at address 0. *)
Abbreviation opened :=
  (world_after
    (gdk_pixbuf__begin_load_xz_image fresh (Some 1%nat) (Some 2%nat)
       (Some 3%nat) 7%nat None) world0).

Abbreviation pushed_picture :=
  (world_after (gdk_pixbuf__load_xz_image_increment 8%nat 0%nat picture_xz) opened).

Abbreviation finished :=
  (world_after (gdk_pixbuf__stop_load_xz_image 8%nat 0%nat) pushed_picture).

(** A session that is fed the picture without the end of its stream, and
    then a corrupt byte. *)
Abbreviation pushed_plain :=
  (world_after (gdk_pixbuf__load_xz_image_increment 8%nat 0%nat picture) opened).

Abbreviation failed :=
  (world_after (gdk_pixbuf__load_xz_image_increment 8%nat 0%nat [xff])
    pushed_plain).

Abbreviation finished_failed :=
  (world_after (gdk_pixbuf__stop_load_xz_image 8%nat 0%nat) failed).

(** Settles [m w = Returns a (world_after m w)] by running [m]. *)
Ltac run :=
  lazymatch goal with
  | |- ?m ?w = Returns ?a ?w' =>
      refine (returns_world_after m w a _); vm_compute; reflexivity
  end.

(** The context a session starts with. *)
Lemma opened_heap :
  nth_error (heap opened) 0%nat
  = Some (Some (opened_context (L:=stored) (G:=icon) fresh (Some 1%nat) (Some 2%nat) (Some 3%nat)
                  7%nat None (Some (start true)))).
Proof.
  assert (Hrun : gdk_pixbuf__begin_load_xz_image fresh (Some 1%nat)
                   (Some 2%nat) (Some 3%nat) 7%nat None world0
                 = Returns (Some 0%nat) opened) by run.
  pose proof (wp_run _ _ _ _ _ _ _
                (begin_load_spec stored icon fresh _ _ _ _ _ world0) Hrun)
    as (_ & d & Hd & Hh & _).
  injection Hd as <-. rewrite Hh. reflexivity.
Qed.

Lemma window_bounds : 0 < Z.shiftl 1 16 < 2 ^ 64.
Proof. split; reflexivity. Qed.

(** ** C2 *)

(** C2 fails on the code: after a finish that returned TRUE, and after one
    that returned FALSE, a second finish does not return at all: it reads
    the context the first one freed. *)
Lemma second_finish_is_undefined :
  value_of (gdk_pixbuf__stop_load_xz_image 8%nat 0%nat pushed_picture)
  = Some true
  /\ gdk_pixbuf__stop_load_xz_image 8%nat 0%nat finished = Undefined
  /\ value_of (gdk_pixbuf__stop_load_xz_image 8%nat 0%nat failed)
     = Some false
  /\ gdk_pixbuf__stop_load_xz_image 8%nat 0%nat finished_failed = Undefined.
Proof.
  vm_compute. repeat split.
Qed.

Lemma finish_releases_the_context_witness :
  nth_error (heap finished) 0%nat = Some None
  /\ (forall fuel', gdk_pixbuf__stop_load_xz_image fuel' 0%nat finished
                    = Undefined)
  /\ (forall fuel' buf,
        gdk_pixbuf__load_xz_image_increment fuel' 0%nat buf finished
        = Undefined).
Proof.
  apply (finish_releases_the_context stored icon 8%nat 0%nat pushed_picture
           true).
  run.
Defined.

(** ** C4 *)

(** C4 fails on the code, on both paths.  The flush of [stop_load] after
    a complete stream produces nothing, and an empty segment is appended;
    the one-shot load of a stream with an empty payload appends one empty
    segment. *)
Lemma empty_segments_are_appended :
  segments (events_since pushed_picture finished) = [[]]
  /\ segments
       (events_since world0
          (world_after (gdk_pixbuf__load_xz_image fresh 8%nat (file_of [x00]))
             world0))
     = [[]].
Proof.
  vm_compute. split; reflexivity.
Qed.

(** ** C5 *)

Lemma scratch_window_is_drained_exactly_witness :
  (exists win c,
      window_run (Z.shiftl 1 16) []
        (events_since world0
           (world_after
              (feed_all 8%nat 0%nat [(picture_xz, LZMA_RUN); ([], LZMA_FINISH)])
              opened)) win
      /\ nth_error
           (heap (world_after
                    (feed_all 8%nat 0%nat
                       [(picture_xz, LZMA_RUN); ([], LZMA_FINISH)])
                    opened)) 0%nat = Some (Some c)
      /\ window_ok (Z.shiftl 1 16) win c)
  /\ (exists win,
        window_run buffer_size []
          (events_since world0
             (world_after
                (gdk_pixbuf__load_xz_image fresh 8%nat (file_of picture_xz))
                world0)) win).
Proof.
  apply (scratch_window_is_drained_exactly stored icon fresh
           (Some 1%nat) (Some 2%nat) (Some 3%nat) 7%nat None 8%nat
           [(picture_xz, LZMA_RUN); ([], LZMA_FINISH)] world0 0%nat opened
           [true; true] _ 8%nat (file_of picture_xz) world0
           (Some {| width := 2; height := 1 |}) _
           stored_bounds fresh_sized).
  - run.
  - run.
  - run.
Defined.

(** ** C7 and C8 *)

Lemma finish_fires_prepared_then_updated_once_witness :
  callbacks (events_since world0 finished)
  = [Ev_prepared (G:=icon) 2 {| width := 2; height := 1 |} 7%nat;
     Ev_updated (G:=icon) 3 {| width := 2; height := 1 |} 0 0 2 1 7%nat]
  /\ In (Ev_pixbuf_new_from_stream
           (accumulated (events_since world0 finished)) true)
       (events_since world0 finished).
Proof.
  apply (finish_fires_prepared_then_updated_once stored icon fresh
           (Some 1%nat) 2%nat 3%nat 7%nat None 8%nat 8%nat [picture_xz]
           world0 0%nat opened [true] pushed_picture true finished
           {| width := 2; height := 1 |}).
  - run.
  - run.
  - run.
  - vm_compute. reflexivity.
Defined.

Lemma size_func_is_stored_and_never_called_witness :
  holds_callbacks opened 0%nat (Some 1%nat) (Some 2%nat) (Some 3%nat) 7%nat
  /\ holds_callbacks pushed_picture 0%nat (Some 1%nat) (Some 2%nat)
       (Some 3%nat) 7%nat
  /\ Forall (fun e => is_size_call e = false) (events_since world0 finished)
  /\ exists before data ok after,
       events_since world0 finished
       = before ++ Ev_pixbuf_new_from_stream data ok :: after
       /\ callbacks before = []
       /\ (ok = false -> callbacks after = []).
Proof.
  apply (size_func_is_stored_and_never_called stored icon fresh
           (Some 1%nat) (Some 2%nat) (Some 3%nat) 7%nat None 8%nat 8%nat
           [picture_xz] world0 0%nat opened [true] pushed_picture true
           finished).
  - run.
  - run.
  - run.
Defined.

(** ** C9 *)

(** C9 fails on the code.  The one-shot load of a corrupt file returns
    NULL through the [failure] label, which frees the two buffers and the
    [lzma_stream] and closes the memory stream but never calls [lzma_end]:
    the engine state that [lzma_stream_decoder] allocated is left
    unreleased.  The successful load of a picture does call [lzma_end],
    and releases the engine state.  On both exits the memory stream stays
    allocated, with the segments it holds: the loader closes it and never
    drops its reference. *)
Theorem failed_load_leaves_engine_unreleased :
  value_of (gdk_pixbuf__load_xz_image fresh 8%nat (file_of [xff]) world0)
  = Some None
  /\ events_since world0
       (world_after (gdk_pixbuf__load_xz_image fresh 8%nat (file_of [xff]))
          world0)
     = [Ev_malloc R_lzstream 136; Ev_lzma_stream_decoder LZMA_OK;
        Ev_malloc R_xz_buffer 1048576; Ev_malloc R_unxz_buffer 1048576;
        Ev_memory_input_stream_new; Ev_fread 1;
        Ev_lzma_code LZMA_FINISH LZMA_DATA_ERROR [];
        Ev_set_error "Some LZMA error occurred";
        Ev_free R_xz_buffer; Ev_free R_unxz_buffer; Ev_free R_lzstream;
        Ev_input_stream_close]
  /\ outstanding
       (events_since world0
          (world_after (gdk_pixbuf__load_xz_image fresh 8%nat (file_of [xff]))
             world0))
     = [O_engine; O_stream]
  /\ value_of
       (gdk_pixbuf__load_xz_image fresh 8%nat (file_of picture_xz) world0)
     = Some (Some {| width := 2; height := 1 |})
  /\ outstanding
       (events_since world0
          (world_after
             (gdk_pixbuf__load_xz_image fresh 8%nat (file_of picture_xz))
             world0))
     = [O_stream; O_segment].
Proof.
  vm_compute. repeat split.
Qed.

(** ** C1 *)

(** The picture fed as one chunk, and fed byte by byte. *)
Lemma chunking_does_not_change_accumulated_bytes_witness :
  exists rs1 r1 w1 rs2 r2 w2,
    session fresh 20%nat (Some 1%nat) (Some 2%nat) (Some 3%nat) 7%nat
      [picture_xz] world0 = Returns (Some (rs1, r1)) w1
    /\ session fresh 20%nat (Some 1%nat) (Some 2%nat) (Some 3%nat) 7%nat
         (map (fun b => [b]) picture_xz) world0 = Returns (Some (rs2, r2)) w2
    /\ Forall (fun b => b = true) rs1
    /\ Forall (fun b => b = true) rs2
    /\ accumulated (events_since world0 w1)
       = accumulated (events_since world0 w2)
    /\ accumulated (events_since world0 w1) = picture.
Proof.
  apply (chunking_does_not_change_accumulated_bytes stored icon fresh
           stored_contract picture_xz 20%nat (Some 1%nat) (Some 2%nat)
           (Some 3%nat) 7%nat [picture_xz] (map (fun b => [b]) picture_xz)
           world0).
  - exact fresh_sized.
  - split; reflexivity.
  - reflexivity.
  - reflexivity.
  - repeat constructor; discriminate.
  - repeat constructor; discriminate.
  - reflexivity.
  - apply Nat.ltb_lt. reflexivity.
Defined.

(** ** C10 *)


End Runs.
(** * More properties of the loader *)

Section More.

Variable L : liblzma.
Variable G : gdkpixbuf.
Variable malloc_contents : Z -> list byte.

Set Default Proof Using "Type".

Implicit Types (w : World L G) (context : XZImageDecodeContext L G).

Local Arguments Z.to_nat : simpl never.
Local Arguments Z.of_nat : simpl never.
Local Arguments Z.shiftl : simpl never.
Local Arguments Z.pow : simpl never.
Local Arguments Z.modulo : simpl never.
Local Arguments Z.sub : simpl never.
Local Arguments Z.add : simpl never.
Local Arguments wp : simpl never.
Local Arguments twp : simpl never.
Local Arguments bind : simpl never.
Local Arguments ret : simpl never.
Local Arguments emit : simpl never.
Local Arguments free : simpl never.
Local Arguments malloc : simpl never.
Local Arguments deref : simpl never.
Local Arguments assign : simpl never.
Local Arguments free_context : simpl never.
Local Arguments calloc_context : simpl never.
Local Arguments memcpy : simpl never.
Local Arguments lzma_code : simpl never.
Local Arguments non_null : simpl never.
Local Arguments undefined : simpl never.
Local Arguments out_of_fuel : simpl never.

(** One step of symbolic execution. *)
Ltac wp_step :=
  lazymatch goal with
  | |- wp (ret _) _ _ => apply wp_ret
  | |- wp (bind _ _) _ _ => apply wp_bind
  | |- wp (emit _) _ _ => apply wp_emit
  | |- wp (free _) _ _ => apply wp_emit
  | |- wp (malloc _ _) _ _ => apply wp_malloc; intros ?plan
  | |- wp (deref _) _ _ => apply wp_deref; intros ?c ?Hderef
  | |- wp (assign _ _) _ _ => apply wp_assign; intros ?old ?Hold
  | |- wp (free_context _) _ _ => apply wp_free_context; intros ?old ?Hold
  | |- wp calloc_context _ _ => apply wp_calloc_context; intros ?plan
  | |- wp (non_null _) _ _ => apply wp_non_null; intros ? ?Hnn
  | |- wp (memcpy _ _) _ _ => apply wp_memcpy; intros ?Hcpy
  | |- wp (lzma_code _ _ _) _ _ =>
      apply wp_lzma_code;
      [intros ?Hint | intros ?d ?r ?d' ?c ?p ?Hint ?Hstep]
  | |- wp undefined _ _ => exact I
  | |- wp out_of_fuel _ _ => exact I
  | |- wp (if ?b then _ else _) _ _ => destruct b eqn:?
  | |- wp (match ?x with _ => _ end) _ _ => destruct x eqn:?
  end.

Ltac wp_go := repeat (wp_step; simpl).

Ltac trace_done :=
  simpl;
  repeat match goal with
         | H : trace _ = _ |- _ => rewrite H
         end;
  rewrite <- ?app_assoc; simpl;
  first [reflexivity | rewrite app_nil_r; reflexivity | idtac].

Lemma run_spec {A} (m : M L G A) (Q : A -> World L G -> Prop) w a w' :
  m w = Returns a w' -> wp m Q w -> Q a w'.
Proof.
  unfold wp. intros E H. rewrite E in H. exact H.
Qed.

Lemma since w w' evs :
  trace w' = trace w ++ evs -> events_since w w' = evs.
Proof. apply events_since_app. Qed.

(** ** The ledger of a trace *)

(** Evaluates the readers of a trace on the events that are known. *)
Ltac ledger :=
  cbn [outstanding_from release owned_eqb resource_eqb filter is_callback
       is_set_error is_lzma_code is_image_decode segments concat app In
       existsb orb andb negb].

Lemma outstanding_from_app (t1 t2 : list (event G)) : forall live,
  outstanding_from live (t1 ++ t2)
  = outstanding_from (outstanding_from live t1) t2.
Proof.
  induction t1 as [|e t1 IH]; intros live; simpl; [reflexivity|apply IH].
Qed.

Lemma release_app_last o : forall live,
  existsb (owned_eqb o) live = false -> release o (live ++ [o]) = live.
Proof.
  assert (Hrefl : owned_eqb o o = true)
    by (destruct o as [[]| | |]; reflexivity).
  induction live as [|o' live IH]; simpl; intros H.
  - rewrite Hrefl. reflexivity.
  - apply orb_false_iff in H as [H1 H2]. rewrite H1, IH by exact H2.
    reflexivity.
Qed.

Lemma loop_events_app (t1 t2 : list (event G)) :
  loop_events t1 -> loop_events t2 -> loop_events (t1 ++ t2).
Proof.
  induction 1; simpl; auto; constructor; auto.
Qed.

Lemma no_block_segments r live n :
  existsb (owned_eqb (O_block r)) live = false ->
  existsb (owned_eqb (O_block r)) (live ++ repeat O_segment n) = false.
Proof.
  intros Hl. rewrite existsb_app, Hl. simpl.
  induction n as [|n IH]; simpl; auto.
Qed.

Lemma segments_grow live n m :
  (live ++ repeat O_segment n) ++ repeat O_segment m
  = live ++ repeat O_segment (n + m).
Proof.
  rewrite <- app_assoc, <- repeat_app. reflexivity.
Qed.

(** The loop adds to the ledger the segments it appends, and nothing
    else. *)
Lemma loop_events_ledger (t : list (event G)) :
  loop_events t ->
  forall live,
    existsb (owned_eqb (O_block R_mem_buffer)) live = false ->
    outstanding_from live t = live ++ repeat O_segment (length (segments t)).
Proof.
  induction 1 as [|n t _ IH|a r p t _ IH|n seg t _ IH]; intros live Hl;
    simpl; auto.
  - now rewrite app_nil_r.
  - rewrite release_app_last by exact Hl.
    rewrite IH by (apply (no_block_segments _ _ 1), Hl).
    apply (segments_grow live 1).
Qed.

Lemma loop_events_no_error (t : list (event G)) :
  loop_events t -> filter is_set_error t = [].
Proof.
  induction 1; simpl; auto.
Qed.

Lemma loop_events_no_callback (t : list (event G)) :
  loop_events t -> callbacks t = [].
Proof.
  unfold callbacks. induction 1; simpl; auto.
Qed.

Lemma loop_events_no_decode (t : list (event G)) :
  loop_events t -> filter is_image_decode t = [].
Proof.
  induction 1; simpl; auto.
Qed.

(** A loop between two runs of events. *)
Lemma filter_around (f : event G -> bool) pre evs post :
  filter f evs = [] ->
  filter f (pre ++ evs ++ post) = filter f pre ++ filter f post.
Proof.
  intros H. rewrite !filter_app, H. reflexivity.
Qed.

Lemma outstanding_around (pre evs post : list (event G)) :
  loop_events evs ->
  existsb (owned_eqb (O_block R_mem_buffer)) (outstanding pre) = false ->
  outstanding (pre ++ evs ++ post)
  = outstanding_from
      (outstanding pre ++ repeat O_segment (length (segments evs))) post.
Proof.
  intros Hl Hpre. unfold outstanding.
  rewrite !outstanding_from_app, (loop_events_ledger _ Hl) by exact Hpre.
  reflexivity.
Qed.

Lemma accumulated_around (pre evs post : list (event G)) :
  segments pre = [] -> segments post = [] ->
  accumulated (pre ++ evs ++ post) = accumulated evs.
Proof.
  intros H1 H2. unfold accumulated.
  rewrite !segments_app, H1, H2, app_nil_r. reflexivity.
Qed.

(** ** The exits of the one-shot path *)

Lemma load_refill_events (s : load_state L) w :
  wp (load_refill s)
     (fun r w' =>
        ls_stream (snd r) = ls_stream s
        /\ (forall msg, fst r = Some msg ->
              msg = "Error reading file with fread"%string)
        /\ exists evs,
             trace w' = trace w ++ evs
             /\ loop_events evs /\ segments evs = []) w.
Proof.
  unfold load_refill.
  wp_go; simpl.
  all: split; [reflexivity|]; split; [intros msg; congruence|].
  all: eexists; split; [trace_done|]; split;
    [repeat constructor | reflexivity].
Qed.

Lemma load_decode_events (s : load_state L) w :
  wp (load_decode s)
     (fun r w' =>
        (forall msg, fst r = inl msg ->
           msg = "Error allocating memory"%string
           \/ msg = "Some LZMA error occurred"%string)
        /\ exists evs,
             trace w' = trace w ++ evs
             /\ loop_events evs
             /\ chunks (ls_stream (snd r))
                = chunks (ls_stream s) ++ segments evs) w.
Proof.
  unfold load_decode.
  wp_go; simpl.
  all: split;
    [intros msg Hm; first [discriminate | injection Hm as <-; auto]|].
  all: eexists; split; [trace_done|]; split; [repeat constructor|].
  all: simpl; rewrite ?app_nil_r; reflexivity.
Qed.

Lemma load_loop_events fuel : forall (s : load_state L) w,
  wp (load_loop fuel s)
     (fun r w' =>
        (forall msg, fst r = Some msg ->
           msg = "Error reading file with fread"%string
           \/ msg = "Error allocating memory"%string
           \/ msg = "Some LZMA error occurred"%string)
        /\ exists evs,
             trace w' = trace w ++ evs
             /\ loop_events evs
             /\ chunks (ls_stream (snd r))
                = chunks (ls_stream s) ++ segments evs) w.
Proof.
  induction fuel as [|fuel IH]; intros s w; simpl.
  - exact I.
  - apply wp_bind. eapply wp_mono; [apply load_refill_events|].
    intros [[msg|] s1] w1 (Hs1 & Hm1 & evs1 & Ht1 & Hl1 & Hseg1);
      simpl in *.
    + apply wp_ret. simpl. split.
      * intros m Hm. left. apply Hm1. exact Hm.
      * exists evs1. rewrite Hs1, Hseg1, app_nil_r. auto.
    + apply wp_bind. eapply wp_mono; [apply load_decode_events|].
      intros [[msg|[|]] s2] w2 (Hm2 & evs2 & Ht2 & Hl2 & Hc2); simpl in *.
      * apply wp_ret. simpl. split.
        -- intros m Hm. right. apply Hm2. congruence.
        -- exists (evs1 ++ evs2). split; [trace_done|].
           split; [apply loop_events_app; assumption|].
           rewrite Hc2, Hs1, segments_app, Hseg1. reflexivity.
      * eapply wp_mono; [apply IH|].
        intros [failure s3] w3 (Hm3 & evs3 & Ht3 & Hl3 & Hc3); simpl in *.
        split; [exact Hm3|].
        exists (evs1 ++ evs2 ++ evs3). split; [trace_done|].
        split; [repeat apply loop_events_app; assumption|].
        rewrite Hc3, Hc2, Hs1, !segments_app, Hseg1, <- app_assoc.
        reflexivity.
      * apply wp_ret. simpl. split; [discriminate|].
        exists (evs1 ++ evs2). split; [trace_done|].
        split; [apply loop_events_app; assumption|].
        rewrite Hc2, Hs1, segments_app, Hseg1. reflexivity.
Qed.

(** Every run of [gdk_pixbuf__load_xz_image] leaves through one of its
    exits. *)
Lemma load_exits fuel file w :
  wp (gdk_pixbuf__load_xz_image malloc_contents fuel file)
     (fun r w' =>
        exists evs, trace w' = trace w ++ evs /\ load_exit r evs) w.
Proof.
  unfold gdk_pixbuf__load_xz_image, load_failure.
  wp_go; simpl.
  all: try match goal with
           | H : negb (lzma_ret_eqb _ LZMA_OK) = false |- _ =>
               apply negb_false_iff, lzma_ret_eqb_eq in H; subst
           end.
  1-5: eexists; split; [trace_done|].
  - apply exit_no_stream.
  - apply exit_no_decoder. intros ->. discriminate.
  - apply (exit_no_buffers false false). reflexivity.
  - apply (exit_no_buffers false true). reflexivity.
  - apply (exit_no_buffers true false). reflexivity.
  - eapply wp_mono; [apply load_loop_events|].
    intros [failure s1] w1 (Hm & evs & Ht & Hl & Hc); simpl in *.
    assert (Hbytes : stream_bytes (ls_stream s1) = accumulated evs).
    { unfold stream_bytes, accumulated. rewrite Hc. reflexivity. }
    assert (Ht' : trace w1 = trace w ++ load_opening ++ evs)
      by (rewrite Ht, <- !app_assoc; reflexivity).
    clear Ht. rewrite Hbytes. wp_go; simpl.
    + eexists. split; [rewrite Ht', <- !app_assoc; reflexivity|].
      apply exit_loop; [exact Hl|].
      destruct (Hm s eq_refl) as [-> | [-> | ->]]; simpl; tauto.
    + eexists. split; [rewrite Ht', <- !app_assoc; reflexivity|].
      apply exit_image; assumption.
    + eexists. split; [rewrite Ht', <- !app_assoc; reflexivity|].
      apply exit_rejected; assumption.
Qed.

(** What the exits have in common. *)
Lemma load_exit_quiet r (evs : list (event G)) :
  load_exit r evs -> callbacks evs = [].
Proof.
  unfold callbacks.
  destruct 1 as [|lzret _|[|] [|] _|lp msg Hl _|lp Hl _|lp pb Hl _];
    try reflexivity.
  all: rewrite filter_around by apply (loop_events_no_callback _ Hl).
  all: reflexivity.
Qed.

(** X1: [gdk_pixbuf__load_xz_image] returns NULL exactly when it has
    called [g_set_error], and then it has called it exactly once, with
    one of its seven messages.  It calls the image decoder at most once
    and never after [g_set_error]: the decoder is handed the caller's
    [GError] as the loader received it.  The message is [Could not create
    pixbuf from memory stream] exactly when the decoder was called and
    answered NULL; on that exit the call of [g_set_error] comes after
    gdk-pixbuf's own failure.  When the loader returns an image it has
    not called [g_set_error], and the image is what the decoder answered
    for the bytes accumulated in the memory stream.  No callback is
    invoked. *)
Theorem load_calls_g_set_error_once_exactly_when_it_fails fuel file w r w' :
  gdk_pixbuf__load_xz_image malloc_contents fuel file w = Returns r w' ->
  callbacks (events_since w w') = []
  /\ match r with
     | Some pb =>
         filter is_set_error (events_since w w') = []
         /\ filter is_image_decode (events_since w w')
            = [Ev_pixbuf_new_from_stream (accumulated (events_since w w'))
                 true]
         /\ gdk_pixbuf_new_from_stream G (accumulated (events_since w w'))
            = Some pb
     | None =>
         exists before message after,
           events_since w w' = before ++ Ev_set_error message :: after
           /\ In message load_messages
           /\ filter is_set_error before = []
           /\ filter is_set_error after = []
           /\ filter is_image_decode after = []
           /\ (filter is_image_decode before = []
               \/ filter is_image_decode before
                  = [Ev_pixbuf_new_from_stream
                       (accumulated (events_since w w')) false])
           /\ (message = "Could not create pixbuf from memory stream"%string
               <-> filter is_image_decode before <> [])
     end.
Proof.
  intros Hrun.
  pose proof (run_spec _ _ _ _ _ Hrun (load_exits fuel file w))
    as (evs & Ht & Hexit).
  rewrite (since _ _ _ Ht). split; [exact (load_exit_quiet _ _ Hexit)|].
  assert (Hearly : forall (before after : list (event G)) message,
             In message load_messages ->
             message <> "Could not create pixbuf from memory stream"%string ->
             filter is_set_error before = [] ->
             filter is_set_error after = [] ->
             filter is_image_decode after = [] ->
             filter is_image_decode before = [] ->
             exists before0 message0 after0,
               before ++ Ev_set_error message :: after
               = before0 ++ Ev_set_error message0 :: after0
               /\ In message0 load_messages
               /\ filter is_set_error before0 = []
               /\ filter is_set_error after0 = []
               /\ filter is_image_decode after0 = []
               /\ (filter is_image_decode before0 = []
                   \/ filter is_image_decode before0
                      = [Ev_pixbuf_new_from_stream
                           (accumulated
                              (before ++ Ev_set_error message :: after))
                           false])
               /\ (message0
                   = "Could not create pixbuf from memory stream"%string
                   <-> filter is_image_decode before0 <> [])).
  { intros before after message Hin Hne H1 H2 H3 H4.
    exists before, message, after.
    split; [reflexivity|]. split; [exact Hin|]. split; [exact H1|].
    split; [exact H2|]. split; [exact H3|]. split; [left; exact H4|].
    split; [intros Heq; destruct (Hne Heq) | intros Hd; destruct (Hd H4)]. }
  destruct Hexit as [|lzret _|[|] [|] Hok|lp msg Hl Hmsg|lp Hl Hd|lp pb Hl Hd].
  - apply (Hearly [] []); simpl; try tauto; discriminate.
  - apply (Hearly [Ev_malloc R_lzstream sizeof_lzma_stream;
                   Ev_lzma_stream_decoder lzret] [Ev_free R_lzstream]);
      simpl; try tauto; discriminate.
  - discriminate Hok.
  - apply (Hearly [Ev_malloc R_lzstream sizeof_lzma_stream;
                   Ev_lzma_stream_decoder LZMA_OK;
                   Ev_malloc R_xz_buffer buffer_size]
             [Ev_free R_xz_buffer; Ev_free R_lzstream]);
      simpl; try tauto; discriminate.
  - apply (Hearly [Ev_malloc R_lzstream sizeof_lzma_stream;
                   Ev_lzma_stream_decoder LZMA_OK;
                   Ev_malloc R_unxz_buffer buffer_size]
             [Ev_free R_unxz_buffer; Ev_free R_lzstream]);
      simpl; try tauto; discriminate.
  - apply (Hearly [Ev_malloc R_lzstream sizeof_lzma_stream;
                   Ev_lzma_stream_decoder LZMA_OK] [Ev_free R_lzstream]);
      simpl; try tauto; discriminate.
  - unfold load_unwinding. rewrite app_assoc.
    apply Hearly.
    + simpl in Hmsg. simpl. tauto.
    + simpl in Hmsg. intros ->.
      destruct Hmsg as [H | [H | [H | []]]]; discriminate H.
    + rewrite filter_app, (loop_events_no_error _ Hl). reflexivity.
    + reflexivity.
    + reflexivity.
    + rewrite filter_app, (loop_events_no_decode _ Hl). reflexivity.
  - assert (Hacc : accumulated
                     (load_opening ++ lp
                      ++ Ev_pixbuf_new_from_stream (accumulated lp) false
                         :: load_unwinding
                              "Could not create pixbuf from memory stream")
                   = accumulated lp)
      by (apply accumulated_around; reflexivity).
    rewrite Hacc.
    exists (load_opening ++ lp
            ++ [Ev_pixbuf_new_from_stream (accumulated lp) false]),
      "Could not create pixbuf from memory stream"%string,
      [Ev_free R_xz_buffer; Ev_free R_unxz_buffer; Ev_free R_lzstream;
       Ev_input_stream_close].
    assert (Hf : filter is_image_decode
                   (load_opening ++ lp
                    ++ [Ev_pixbuf_new_from_stream (accumulated lp) false])
                 = [Ev_pixbuf_new_from_stream (accumulated lp) false])
      by (rewrite filter_around by apply (loop_events_no_decode _ Hl);
          reflexivity).
    split; [rewrite <- !app_assoc; reflexivity|].
    split; [simpl; tauto|].
    split; [rewrite filter_around by apply (loop_events_no_error _ Hl);
            reflexivity|].
    split; [reflexivity|]. split; [reflexivity|].
    split; [right; exact Hf|].
    split; [intros _; rewrite Hf; discriminate | reflexivity].
  - rewrite accumulated_around by reflexivity.
    rewrite !filter_around
      by first [ apply (loop_events_no_error _ Hl)
               | apply (loop_events_no_decode _ Hl) ].
    repeat split. exact Hd.
Qed.

Lemma segments_around (pre evs post : list (event G)) :
  segments pre = [] -> segments post = [] ->
  segments (pre ++ evs ++ post) = segments evs.
Proof.
  intros H1 H2. rewrite !segments_app, H1, H2, app_nil_r. reflexivity.
Qed.

(** X2: on every exit [gdk_pixbuf__load_xz_image] has freed its working
    blocks (the two buffers and the [lzma_stream]), but only the exit
    that returns an image calls [lzma_end]: on the failure exits the
    engine state is left allocated whenever [lzma_stream_decoder] had
    created it.  No exit releases the memory stream: once created it
    stays allocated, with every segment handed to it, because the loader
    closes the stream and never drops its reference. *)
Theorem load_frees_its_blocks_on_every_exit fuel file w r w' :
  gdk_pixbuf__load_xz_image malloc_contents fuel file w = Returns r w' ->
  match r with
  | Some _ =>
      outstanding (events_since w w')
      = O_stream :: repeat O_segment (length (segments (events_since w w')))
  | None =>
      (In Ev_memory_input_stream_new (events_since w w') ->
       outstanding (events_since w w')
       = O_engine :: O_stream
         :: repeat O_segment (length (segments (events_since w w'))))
      /\ (~ In Ev_memory_input_stream_new (events_since w w') ->
          In (Ev_lzma_stream_decoder LZMA_OK) (events_since w w') ->
          outstanding (events_since w w') = [O_engine])
      /\ (~ In (Ev_lzma_stream_decoder LZMA_OK) (events_since w w') ->
          outstanding (events_since w w') = [])
  end.
Proof.
  intros Hrun.
  pose proof (run_spec _ _ _ _ _ Hrun (load_exits fuel file w))
    as (evs & Ht & Hexit).
  rewrite (since _ _ _ Ht).
  assert (Hin : forall lp post : list (event G),
             In Ev_memory_input_stream_new (load_opening ++ lp ++ post)
             /\ In (Ev_lzma_stream_decoder LZMA_OK)
                  (load_opening ++ lp ++ post)).
  { intros lp post. split; apply in_or_app; left; simpl; tauto. }
  destruct Hexit as [|lzret Hne|[|] [|] Hok|lp msg Hl _|lp Hl _|lp pb Hl _].
  - simpl. intuition discriminate.
  - destruct lzret; try (destruct (Hne eq_refl)); simpl;
      (split; [|split]); intros; try reflexivity;
      exfalso; intuition discriminate.
  - discriminate Hok.
  - simpl. (split; [|split]); intros; try reflexivity;
      exfalso; intuition discriminate.
  - simpl. (split; [|split]); intros; try reflexivity;
      exfalso; intuition discriminate.
  - simpl. (split; [|split]); intros; try reflexivity;
      exfalso; intuition discriminate.
  - split; [intros _ | split; intros Hn; destruct (Hin lp (load_unwinding msg));
                       try (intros _); exfalso; auto].
    rewrite outstanding_around, segments_around
      by first [exact Hl | reflexivity].
    reflexivity.
  - split; [intros _ | split; intros Hn;
                       destruct (Hin lp
                                   (Ev_pixbuf_new_from_stream (accumulated lp)
                                      false
                                    :: load_unwinding
                                         "Could not create pixbuf from memory stream"));
                       try (intros _); exfalso; auto].
    rewrite outstanding_around, segments_around
      by first [exact Hl | reflexivity].
    reflexivity.
  - rewrite outstanding_around, segments_around
      by first [exact Hl | reflexivity].
    reflexivity.
Qed.


(** ** The exits of [begin_load] *)

Lemma twp_malloc_any r n (Q : bool -> World L G -> Prop) w :
  (forall plan,
      Q false {| heap := heap w; alloc_plan := plan; trace := trace w |}) ->
  (forall plan,
      Q true {| heap := heap w; alloc_plan := plan;
                trace := trace w ++ [Ev_malloc r n] |}) ->
  twp (malloc r n) Q w.
Proof.
  intros Hf Ht. unfold twp, malloc.
  destruct (next_alloc (alloc_plan w)) as [[|] plan]; auto.
Qed.

Lemma twp_calloc_any (Q : option ctx_ptr -> World L G -> Prop) w :
  (forall plan,
      Q None {| heap := heap w; alloc_plan := plan; trace := trace w |}) ->
  (forall plan,
      Q (Some (length (heap w)))
        {| heap := heap w ++ [Some zeroed_context]; alloc_plan := plan;
           trace := trace w ++
                    [Ev_malloc R_context sizeof_XZImageDecodeContext] |}) ->
  twp calloc_context Q w.
Proof.
  intros Hf Ht. unfold twp, calloc_context.
  destruct (next_alloc (alloc_plan w)) as [[|] plan]; auto.
Qed.

(** One step of symbolic execution of a run that has to return; a
    pointer that is dereferenced is the one just allocated. *)
Ltac twp_step :=
  lazymatch goal with
  | |- twp (ret _) _ _ => apply twp_ret
  | |- twp (bind _ _) _ _ => apply twp_bind
  | |- twp (emit _) _ _ => apply twp_emit
  | |- twp (free _) _ _ => apply twp_emit
  | |- twp (malloc _ _) _ _ => apply twp_malloc_any; intros ?plan
  | |- twp calloc_context _ _ => apply twp_calloc_any; intros ?plan
  | |- twp (deref _) _ _ =>
      eapply twp_deref; [simpl; apply nth_error_app_last|]
  | |- twp (assign _ _) _ _ =>
      eapply twp_assign; [simpl; apply nth_error_app_last|]
  | |- twp (free_context _) _ _ =>
      eapply twp_free_context; [simpl; apply nth_error_app_last|]
  | |- twp (if ?b then _ else _) _ _ => destruct b eqn:?
  | |- twp (match ?x with _ => _ end) _ _ => destruct x eqn:?
  end.

Ltac twp_go := repeat (twp_step; simpl).

Lemma begin_load_exits size_f prepare_f updated_f extra err w :
  twp (gdk_pixbuf__begin_load_xz_image malloc_contents size_f prepare_f
         updated_f extra err)
      (fun r w' =>
         exists evs,
           trace w' = trace w ++ evs
           /\ match r with
              | Some p =>
                  p = length (heap w)
                  /\ (exists d,
                        heap w' =
                        heap w ++ [Some (opened_context malloc_contents
                                           size_f prepare_f updated_f extra
                                           err d)])
                  /\ evs = opening_events
              | None =>
                  (exists msg,
                     filter is_set_error evs = [Ev_set_error msg]
                     /\ In msg begin_load_messages)
                  /\ (heap w' = heap w \/ heap w' = heap w ++ [None])
                  /\ (In (Ev_lzma_stream_decoder LZMA_OK) evs ->
                      In (Ev_set_error "Could not create xz buffers") evs
                      /\ outstanding evs = [O_engine])
                  /\ (~ In (Ev_lzma_stream_decoder LZMA_OK) evs ->
                      outstanding evs = [])
              end) w.
Proof.
  unfold gdk_pixbuf__begin_load_xz_image, begin_load_failure.
  twp_go.
  all: rewrite ?list_set_app_last.
  all: try match goal with
           | H : negb (lzma_ret_eqb _ LZMA_OK) = false |- _ =>
               apply negb_false_iff, lzma_ret_eqb_eq in H; subst
           end.
  all: eexists; split; [trace_done|].
  5: { split; [reflexivity|]. split; [|reflexivity]. eexists. reflexivity. }
  all: split; [eexists; split; [reflexivity | simpl; tauto]|].
  all: split; [first [left; reflexivity | right; reflexivity]|].
  all: try match goal with
           | H : negb (lzma_ret_eqb ?l LZMA_OK) = true |- _ =>
               destruct l; try discriminate H
           end.
  all: split; [intros Hin | intros Hn]; simpl in *; try reflexivity;
    try (exfalso; tauto); try (exfalso; intuition discriminate).
  split; [tauto | reflexivity].
Qed.

(** X3: [gdk_pixbuf__begin_load_xz_image] always returns.  When it
    returns a context, the context is a new one and nothing else in the
    heap has changed.  When it returns NULL it has set exactly one error,
    with one of its four messages, it leaves no context behind, and it has
    freed every block it allocated; but it has not called [lzma_end], so
    the engine state is left unreleased when the failure is the allocation
    of the scratch buffer, after [lzma_stream_decoder] succeeded. *)
Theorem begin_load_returns_and_cleans_up size_f prepare_f updated_f extra
  err w :
  exists r w',
    gdk_pixbuf__begin_load_xz_image malloc_contents size_f prepare_f
      updated_f extra err w = Returns r w'
    /\ match r with
       | Some p =>
           p = length (heap w)
           /\ (exists c, heap w' = heap w ++ [Some c])
           /\ holds_callbacks w' p size_f prepare_f updated_f extra
           /\ filter is_set_error (events_since w w') = []
       | None =>
           (exists msg,
              filter is_set_error (events_since w w') = [Ev_set_error msg]
              /\ In msg begin_load_messages)
           /\ (heap w' = heap w \/ heap w' = heap w ++ [None])
           /\ (In (Ev_lzma_stream_decoder LZMA_OK) (events_since w w') ->
               In (Ev_set_error "Could not create xz buffers")
                 (events_since w w')
               /\ outstanding (events_since w w') = [O_engine])
           /\ (~ In (Ev_lzma_stream_decoder LZMA_OK) (events_since w w') ->
               outstanding (events_since w w') = [])
       end.
Proof.
  destruct (twp_returns _ _ _ _ _
              (begin_load_exits size_f prepare_f updated_f extra err w))
    as (r & w' & Hrun & evs & Ht & H).
  exists r, w'. split; [exact Hrun|].
  rewrite (since _ _ _ Ht).
  destruct r as [p|].
  - destruct H as (-> & (d & Hh) & ->).
    split; [reflexivity|]. split; [eexists; exact Hh|].
    split; [|reflexivity].
    eexists. split; [rewrite Hh; apply nth_error_app_last|].
    repeat split.
  - exact H.
Qed.

(** ** The rounds of [_gdk_pixbuf__lzma_code] *)

Lemma drains_iff r :
  lzma_ret_eqb r LZMA_OK || lzma_ret_eqb r LZMA_STREAM_END = true
  <-> drains r.
Proof.
  unfold drains. rewrite orb_true_iff, !lzma_ret_eqb_eq. reflexivity.
Qed.

Lemma not_drains_iff r :
  lzma_ret_eqb r LZMA_OK || lzma_ret_eqb r LZMA_STREAM_END = false
  <-> ~ drains r.
Proof.
  rewrite <- drains_iff. destruct (_ || _); split; congruence.
Qed.

Lemma rounds_app a (t1 t2 : list (event G)) :
  rounds a t1 -> rounds a t2 -> rounds a (t1 ++ t2).
Proof.
  induction 1; simpl; auto. constructor; auto.
Qed.

Lemma rounds_loop_events a (t : list (event G)) :
  rounds a t -> loop_events t.
Proof.
  induction 1; repeat constructor; auto.
Qed.

Lemma lzma_code_round_shape context lzaction w :
  wp (lzma_code_round context lzaction)
     (fun r w' =>
        exists st out,
          match fst r with
          | inr _ =>
              exists n seg,
                drains st
                /\ trace w' = trace w
                              ++ [Ev_lzma_code lzaction st out;
                                  Ev_malloc R_mem_buffer n; Ev_add_data seg]
          | inl msg =>
              trace w' = trace w ++ [Ev_lzma_code lzaction st out]
              /\ ((msg = "Error with lzma decode"%string /\ ~ drains st)
                  \/ (msg = "Error allocating buffer"%string /\ drains st))
          end) w.
Proof.
  unfold lzma_code_round.
  wp_go; simpl.
  all: repeat match goal with
              | H : _ || _ = true |- _ => apply drains_iff in H
              | H : _ || _ = false |- _ => apply not_drains_iff in H
              end.
  all: do 2 eexists; try (do 2 eexists).
  all: lazymatch goal with
       | |- drains _ /\ _ => split; [|trace_done]
       | |- _ => split; [trace_done|]
       end.
  all: first [ assumption
             | left; split; [reflexivity|];
               first [assumption | intros [H|H]; discriminate]
             | right; split; [reflexivity | assumption] ].
Qed.

Lemma lzma_code_loop_shape fuel : forall context lzaction w,
  wp (lzma_code_loop fuel context lzaction)
     (fun r w' =>
        exists pre,
          rounds lzaction pre
          /\ match fst r with
             | None => pre <> [] /\ trace w' = trace w ++ pre
             | Some msg =>
                 exists st out,
                   trace w' = trace w ++ pre ++ [Ev_lzma_code lzaction st out]
                   /\ ((msg = "Error with lzma decode"%string
                        /\ ~ drains st)
                       \/ (msg = "Error allocating buffer"%string
                           /\ drains st))
             end) w.
Proof.
  induction fuel as [|fuel IH]; intros context lzaction w; simpl.
  - exact I.
  - apply wp_bind. eapply wp_mono; [apply lzma_code_round_shape|].
    intros [[msg|[|]] c1] w1 (st & out & H); simpl in *.
    + apply wp_ret. simpl. exists []. split; [constructor|].
      exists st, out. exact H.
    + destruct H as (n & seg & Hd & Ht).
      eapply wp_mono; [apply IH|].
      intros [[msg|] c2] w2 (pre & Hpre & H2); simpl in *.
      * destruct H2 as (st2 & out2 & Ht2 & Hm).
        eexists. split; [apply rounds_cons; [exact Hd | exact Hpre]|].
        exists st2, out2. split; [trace_done | exact Hm].
      * destruct H2 as (_ & Ht2).
        eexists. split; [apply rounds_cons; [exact Hd | exact Hpre]|].
        split; [discriminate | trace_done].
    + destruct H as (n & seg & Hd & Ht).
      apply wp_ret. simpl.
      eexists. split; [apply rounds_cons; [exact Hd | constructor]|].
      split; [discriminate | exact Ht].
Qed.

Lemma lzma_code_shape fuel p buf lzaction w :
  wp (_gdk_pixbuf__lzma_code fuel p buf lzaction)
     (fun r w' =>
        exists pre,
          rounds lzaction pre
          /\ if r then pre <> [] /\ trace w' = trace w ++ pre
             else exists st out msg,
                 trace w' = trace w ++ pre
                            ++ [Ev_lzma_code lzaction st out;
                                Ev_set_error msg]
                 /\ ((msg = "Error with lzma decode"%string /\ ~ drains st)
                     \/ (msg = "Error allocating buffer"%string
                         /\ drains st))) w.
Proof.
  unfold _gdk_pixbuf__lzma_code.
  wp_go.
  eapply wp_mono; [apply lzma_code_loop_shape|].
  intros [failure c'] w1 (pre & Hpre & H); simpl in *.
  wp_go; simpl.
  - destruct H as (st & out & Ht & Hm).
    exists pre. split; [exact Hpre|]. exists st, out, s.
    split; [trace_done | exact Hm].
  - exists pre. split; [exact Hpre|]. exact H.
Qed.

(** X4: [_gdk_pixbuf__lzma_code] calls the engine at least once, whatever
    the chunk.  It returns TRUE exactly when it has set no error.  When it
    returns FALSE it has set exactly one error, as its last action and
    right after a call of the engine: [Error with lzma decode] when that
    call answered neither [LZMA_OK] nor [LZMA_STREAM_END], [Error
    allocating buffer] when it did and the segment could not be
    allocated.  The engine is not called again in that call, and what it
    had just produced is not appended. *)
Theorem lzma_code_fails_right_after_an_engine_call fuel p buf lzaction w r
  w' :
  _gdk_pixbuf__lzma_code fuel p buf lzaction w = Returns r w' ->
  (exists st out, In (Ev_lzma_code lzaction st out) (events_since w w'))
  /\ if r then filter is_set_error (events_since w w') = []
     else exists pre st out msg,
         events_since w w'
         = pre ++ [Ev_lzma_code lzaction st out; Ev_set_error msg]
         /\ filter is_set_error pre = []
         /\ ((msg = "Error with lzma decode"%string /\ ~ drains st)
             \/ (msg = "Error allocating buffer"%string /\ drains st)).
Proof.
  intros Hrun.
  pose proof (run_spec _ _ _ _ _ Hrun (lzma_code_shape fuel p buf lzaction w))
    as (pre & Hpre & H).
  pose proof (loop_events_no_error _ (rounds_loop_events _ _ Hpre)) as Hne.
  destruct r.
  - destruct H as (Hnil & Ht).
    rewrite (since _ _ _ Ht). split; [|exact Hne].
    destruct Hpre as [|st out n seg t Hd Ht']; [congruence|].
    exists st, out. left. reflexivity.
  - destruct H as (st & out & msg & Ht & Hm).
    rewrite (since _ _ _ Ht). split.
    + exists st, out. apply in_or_app. right. left. reflexivity.
    + exists pre, st, out, msg. auto.
Qed.

(** ** Calls that start from a fresh window *)

Lemma rounds_fresh cap a (t : list (event G)) :
  rounds a t ->
  forall win',
    window_run cap [] t win' ->
    win' = []
    /\ exists calls,
         t = concat (map (round_events a) calls)
         /\ Forall (fun call => drains (fst call)) calls.
Proof.
  induction 1 as [|r p n seg t Hd _ IH]; intros win' Hrun.
  - inversion Hrun; subst. split; [reflexivity|].
    exists []. split; [reflexivity | constructor].
  - inversion Hrun as [|? ? ? ? ? ? Hfit Hrun1| | |? ? ? ? He]; subst;
      [|discriminate He].
    simpl in Hrun1.
    inversion Hrun1 as [| |? ? ? Hrun2| |? ? ? ? _ Hm]; subst;
      [|destruct (Hm _ eq_refl)].
    inversion Hrun2 as [| | |? ? ? Hrun3|? ? ? ? _ _ Hs]; subst;
      [|destruct (Hs _ eq_refl)].
    destruct (IH _ Hrun3) as (-> & calls & -> & Hall).
    split; [reflexivity|].
    exists ((r, seg) :: calls). split; [reflexivity|].
    constructor; [exact Hd | exact Hall].
Qed.

Lemma segments_round_events a (calls : list (lzma_ret * list byte)) :
  segments (G:=G) (concat (map (round_events a) calls)) = map snd calls.
Proof.
  induction calls as [|call calls IH]; simpl; [reflexivity|].
  rewrite IH. reflexivity.
Qed.

(** A call that starts from a fresh window and returns TRUE. *)
Lemma lzma_code_true_fresh cap fuel p buf lzaction w c w' :
  engine_bounds L ->
  0 < cap < 2 ^ 64 ->
  nth_error (heap w) p = Some (Some c) ->
  window_ok cap [] c ->
  _gdk_pixbuf__lzma_code fuel p buf lzaction w = Returns true w' ->
  exists calls c',
    calls <> []
    /\ trace w' = trace w ++ concat (map (round_events lzaction) calls)
    /\ Forall (fun call => drains (fst call)) calls
    /\ nth_error (heap w') p = Some (Some c')
    /\ window_ok cap [] c'.
Proof.
  intros Hb [Hpos Hsmall] Hp Hok Hrun.
  pose proof (run_spec _ _ _ _ _ Hrun (lzma_code_shape fuel p buf lzaction w))
    as (pre & Hpre & Hnil & Ht).
  pose proof (run_spec _ _ _ _ _ Hrun
                (lzma_code_window L G cap Hpos Hsmall Hb fuel p buf lzaction
                   w [] c Hp Hok))
    as (evs & win' & c' & Ht2 & Hwin & Hp' & Hok').
  assert (evs = pre) as ->.
  { rewrite Ht in Ht2. apply app_inv_head in Ht2. congruence. }
  destruct (rounds_fresh _ _ _ Hpre _ Hwin) as (-> & calls & -> & Hall).
  exists calls, c'.
  split; [intros ->; apply Hnil; reflexivity|].
  split; [exact Ht|]. split; [exact Hall|]. split; assumption.
Qed.

Lemma push_all_true_fresh cap fuel p : forall bufs w c rs w',
  engine_bounds L ->
  0 < cap < 2 ^ 64 ->
  nth_error (heap w) p = Some (Some c) ->
  window_ok cap [] c ->
  push_all fuel p bufs w = Returns rs w' ->
  Forall (fun r => r = true) rs ->
  exists calls c',
    trace w' = trace w ++ concat (map (round_events LZMA_RUN) calls)
    /\ Forall (fun call => drains (fst call)) calls
    /\ (length bufs <= length calls)%nat
    /\ nth_error (heap w') p = Some (Some c')
    /\ window_ok cap [] c'.
Proof.
  induction bufs as [|buf bufs IH]; intros w c rs w' Hb Hcap Hp Hok Hrun Hrs.
  - injection Hrun as <- <-. exists [], c. simpl. rewrite app_nil_r.
    repeat split; auto.
  - simpl in Hrun. unfold bind in Hrun.
    destruct (gdk_pixbuf__load_xz_image_increment fuel p buf w)
      as [r1 w1| |] eqn:H1; try discriminate.
    destruct (push_all fuel p bufs w1) as [rs1 w2| |] eqn:H2;
      try discriminate.
    injection Hrun as <- <-.
    pose proof (Forall_inv Hrs) as Hr1. simpl in Hr1. subst r1.
    pose proof (Forall_inv_tail Hrs) as Hrs1.
    destruct (lzma_code_true_fresh cap fuel p buf LZMA_RUN w c w1 Hb Hcap Hp
                Hok H1)
      as (calls1 & c1 & Hne & Ht1 & Hd1 & Hp1 & Hok1).
    destruct (IH w1 c1 rs1 w2 Hb Hcap Hp1 Hok1 H2 Hrs1)
      as (calls2 & c2 & Ht2 & Hd2 & Hlen & Hp2 & Hok2).
    exists (calls1 ++ calls2), c2.
    split; [rewrite Ht2, Ht1, <- app_assoc, map_app, concat_app;
            reflexivity|].
    split; [apply Forall_app; split; assumption|].
    split; [|split; assumption].
    rewrite length_app. simpl.
    destruct calls1; [congruence|]. simpl. lia.
Qed.

(** X5: in a session whose pushes all return TRUE, the pushes are a run
    of rounds, at least one for every chunk, empty chunks too, each of them
    a call of the engine that answers [LZMA_OK] or [LZMA_STREAM_END], the
    allocation of a segment of exactly the size of what that call
    produced, and the append of exactly those bytes.  So the bytes the
    pushes add to the memory stream are what the engine produced, in
    order.  This holds for every engine that stays within the buffers it
    is given and a [malloc] that returns blocks of the size asked. *)
Theorem pushes_append_what_the_engine_produced size_f prepare_f updated_f
  extra err fuel bufs w p w1 rs w2 :
  engine_bounds L ->
  malloc_sized malloc_contents ->
  gdk_pixbuf__begin_load_xz_image malloc_contents size_f prepare_f updated_f
    extra err w = Returns (Some p) w1 ->
  push_all fuel p bufs w1 = Returns rs w2 ->
  Forall (fun r => r = true) rs ->
  exists calls,
    events_since w1 w2 = concat (map (round_events LZMA_RUN) calls)
    /\ Forall (fun call => drains (fst call)) calls
    /\ accumulated (events_since w1 w2) = concat (map snd calls)
    /\ (length bufs <= length calls)%nat.
Proof.
  intros Hb Hsized Hbegin Hpush Hrs.
  destruct (twp_returns _ _ _ _ _
              (begin_load_exits size_f prepare_f updated_f extra err w))
    as (r0 & w0 & Hrun & evs0 & Ht0 & H0).
  rewrite Hbegin in Hrun. injection Hrun as <- <-.
  destruct H0 as (-> & (d & Hh) & _).
  assert (Hat : nth_error (heap w1) (length (heap w))
                = Some (Some (opened_context malloc_contents size_f
                                prepare_f updated_f extra err d)))
    by (rewrite Hh; apply nth_error_app_last).
  assert (Hok : window_ok (Z.shiftl 1 16) []
                  (opened_context (G:=G) malloc_contents size_f prepare_f
                     updated_f extra err d)).
  { eexists _, _. split; [reflexivity|]. split; [reflexivity|].
    split; [reflexivity|]. unfold window_at; simpl.
    rewrite Hsized by discriminate. repeat split; try reflexivity.
    discriminate. }
  assert (Hcap : 0 < Z.shiftl 1 16 < 2 ^ 64) by (split; reflexivity).
  destruct (push_all_true_fresh _ fuel _ bufs w1 _ rs w2 Hb Hcap Hat Hok
              Hpush Hrs)
    as (calls & c' & Ht & Hd & Hlen & _).
  exists calls. rewrite (since _ _ _ Ht).
  split; [reflexivity|]. split; [exact Hd|]. split; [|exact Hlen].
  unfold accumulated. rewrite segments_round_events. reflexivity.
Qed.

(** ** A call without input *)

Lemma wp_conj {A} (m : M L G A) (Q1 Q2 : A -> World L G -> Prop) w :
  wp m Q1 w -> wp m Q2 w -> wp m (fun a w' => Q1 a w' /\ Q2 a w') w.
Proof.
  unfold wp. destruct (m w); auto.
Qed.

(** Without input there is no second round. *)
Lemma lzma_code_round_last context lzaction w strm :
  engine_bounds L ->
  lzstream context = Some strm ->
  avail_in strm = 0 ->
  wp (lzma_code_round context lzaction) (fun r _ => fst r <> inr true) w.
Proof.
  intros Hb Hs Hin. unfold lzma_code_round. rewrite Hs.
  wp_go; simpl; try discriminate.
  destruct (Hb _ _ _ _ _ _ _ _ Hstep) as [Hc _].
  injection Hnn as <-.
  rewrite Hin in Hc. change (Z.to_nat 0) with 0%nat in Hc. simpl in Hc.
  assert (c = 0%nat) as -> by lia.
  rewrite Hin. discriminate.
Qed.

Lemma lzma_code_loop_single fuel context lzaction w strm :
  engine_bounds L ->
  lzstream context = Some strm ->
  avail_in strm = 0 ->
  wp (lzma_code_loop fuel context lzaction)
     (fun r w' =>
        exists st out,
          match fst r with
          | None =>
              exists n seg,
                drains st
                /\ trace w' = trace w
                              ++ [Ev_lzma_code lzaction st out;
                                  Ev_malloc R_mem_buffer n; Ev_add_data seg]
          | Some _ =>
              trace w' = trace w ++ [Ev_lzma_code lzaction st out]
          end) w.
Proof.
  intros Hb Hs Hin. destruct fuel as [|fuel]; simpl; [exact I|].
  apply wp_bind. eapply wp_mono.
  { apply wp_conj;
      [apply lzma_code_round_shape
      | eapply lzma_code_round_last; eassumption]. }
  intros [[msg|[|]] c1] w1 [(st & out & H) Hlast]; simpl in *.
  - apply wp_ret. simpl. exists st, out. apply H.
  - congruence.
  - apply wp_ret. simpl. exists st, out. exact H.
Qed.

Lemma lzma_code_single fuel p lzaction w :
  engine_bounds L ->
  wp (_gdk_pixbuf__lzma_code fuel p [] lzaction)
     (fun r w' =>
        exists st out,
          if r then
            exists n seg,
              drains st
              /\ trace w' = trace w
                            ++ [Ev_lzma_code lzaction st out;
                                Ev_malloc R_mem_buffer n; Ev_add_data seg]
          else
            exists msg,
              trace w' = trace w
                         ++ [Ev_lzma_code lzaction st out; Ev_set_error msg])
     w.
Proof.
  intros Hb. unfold _gdk_pixbuf__lzma_code.
  wp_go.
  eapply wp_mono;
    [eapply lzma_code_loop_single; [exact Hb | reflexivity | reflexivity]|].
  intros [failure c'] w1 (st & out & H); simpl in *.
  wp_go; simpl.
  - exists st, out, s. trace_done.
  - exists st, out. exact H.
Qed.

Lemma stop_load_single fuel p w :
  engine_bounds L ->
  wp (gdk_pixbuf__stop_load_xz_image fuel p)
     (fun r w' =>
        exists st out evs,
          trace w' = trace w ++ evs
          /\ filter is_lzma_code evs = [Ev_lzma_code LZMA_FINISH st out]
          /\ (length (segments evs) <= 1)%nat
          /\ (~ drains st -> r = false /\ segments evs = [])) w.
Proof.
  intros Hb. unfold gdk_pixbuf__stop_load_xz_image.
  apply wp_bind. eapply wp_mono; [apply lzma_code_single, Hb|].
  intros r1 w1 (st & out & H).
  wp_go.
  all: exists st, out.
  all: destruct r1;
    [destruct H as (? & ? & Hd & Ht) | destruct H as (? & Ht)].
  all: eexists; split; [trace_done|].
  all: simpl; split; [reflexivity|]; split; [lia|].
  all: first [ intros Hn; destruct (Hn Hd) | intros _; split; reflexivity ].
Qed.

(** X6: [gdk_pixbuf__stop_load_xz_image] calls the engine exactly once,
    with [LZMA_FINISH] and no input, and does not call it again even when
    that call filled the scratch buffer: it appends at most one segment.
    When the engine answers neither [LZMA_OK] nor [LZMA_STREAM_END] it
    appends none and returns FALSE.  This holds for every engine that
    stays within the buffers it is given. *)
Theorem finish_calls_the_engine_once fuel p w r w' :
  engine_bounds L ->
  gdk_pixbuf__stop_load_xz_image fuel p w = Returns r w' ->
  exists st out,
    filter is_lzma_code (events_since w w')
    = [Ev_lzma_code LZMA_FINISH st out]
    /\ (length (segments (events_since w w')) <= 1)%nat
    /\ (~ drains st ->
        r = false /\ segments (events_since w w') = []).
Proof.
  intros Hb Hrun.
  pose proof (run_spec _ _ _ _ _ Hrun (stop_load_single fuel p w Hb))
    as (st & out & evs & Ht & H).
  rewrite (since _ _ _ Ht). exists st, out. exact H.
Qed.

(** ** The ledger of a session *)

Lemma balanced_app (t1 t2 : list (event G)) :
  balanced t1 -> balanced t2 -> balanced (t1 ++ t2).
Proof.
  intros H1 H2 live Hl.
  rewrite outstanding_from_app, H1 by exact Hl.
  rewrite H2 by (apply no_block_segments, Hl).
  rewrite segments_app, length_app. apply segments_grow.
Qed.

Lemma balanced_nil : balanced (G:=G) [].
Proof. intros live _. simpl. now rewrite app_nil_r. Qed.

Lemma lzma_code_balanced fuel p buf lzaction w :
  wp (_gdk_pixbuf__lzma_code fuel p buf lzaction)
     (fun _ w' => exists evs, trace w' = trace w ++ evs /\ balanced evs) w.
Proof.
  eapply wp_mono; [apply lzma_code_shape|].
  intros r w' (pre & Hpre & H).
  pose proof (loop_events_ledger _ (rounds_loop_events _ _ Hpre)) as Hq.
  destruct r.
  - destruct H as (_ & Ht). exists pre. split; [exact Ht | exact Hq].
  - destruct H as (st & out & msg & Ht & _).
    eexists. split; [exact Ht|].
    apply balanced_app; [exact Hq|]. intros live _. simpl.
    now rewrite app_nil_r.
Qed.

Lemma push_all_balanced fuel p bufs : forall w,
  wp (push_all fuel p bufs)
     (fun _ w' => exists evs, trace w' = trace w ++ evs /\ balanced evs) w.
Proof.
  induction bufs as [|buf bufs IH]; intros w; simpl.
  - apply wp_ret. exists []. split; [now rewrite app_nil_r|].
    apply balanced_nil.
  - apply wp_bind. eapply wp_mono; [apply lzma_code_balanced|].
    intros r w1 (evs1 & Ht1 & Hq1).
    apply wp_bind. eapply wp_mono; [apply IH|].
    intros rs w2 (evs2 & Ht2 & Hq2).
    apply wp_ret. exists (evs1 ++ evs2). split; [trace_done|].
    apply balanced_app; assumption.
Qed.

Lemma opening_ledger :
  outstanding (G:=G) opening_events
  = [O_block R_context; O_block R_lzstream; O_engine;
     O_block R_unxz_buffer; O_stream].
Proof. reflexivity. Qed.

Lemma stop_load_ledger fuel p w :
  wp (gdk_pixbuf__stop_load_xz_image fuel p)
     (fun _ w' =>
        exists evs,
          trace w' = trace w ++ evs
          /\ forall n,
               outstanding_from
                 (outstanding (G:=G) opening_events ++ repeat O_segment n)
                 evs
               = O_stream :: repeat O_segment (n + length (segments evs)))
     w.
Proof.
  unfold gdk_pixbuf__stop_load_xz_image.
  apply wp_bind. eapply wp_mono; [apply lzma_code_balanced|].
  intros r1 w1 (evs1 & Ht1 & Hq1).
  wp_go.
  all: eexists; split; [rewrite Ht1, <- !app_assoc; reflexivity|].
  all: intros k; rewrite outstanding_from_app.
  all: change (O_block R_context :: O_block R_lzstream :: O_engine
               :: O_block R_unxz_buffer :: O_stream :: repeat O_segment k)
         with ([O_block R_context; O_block R_lzstream; O_engine;
                O_block R_unxz_buffer; O_stream] ++ repeat O_segment k).
  all: rewrite Hq1 by (apply no_block_segments; reflexivity).
  all: rewrite segments_grow, segments_app, length_app.
  all: cbn [outstanding_from release owned_eqb resource_eqb app segments
            length].
  all: rewrite Nat.add_0_r; reflexivity.
Qed.

(** X7: a whole incremental session, from a [begin_load] that returned a
    context through any pushes to [stop_load], frees the context, the
    [lzma_stream] and the scratch buffer and ends the engine, whatever the
    pushes and [stop_load] returned.  It does not release the memory
    stream: [stop_load] closes the stream and never drops its reference,
    so the stream stays allocated when the session is over, with every
    segment that was appended to it. *)
Theorem finished_session_leaves_the_stream_allocated size_f prepare_f
  updated_f extra err fuel fuel' bufs w p w1 rs w2 r w3 :
  gdk_pixbuf__begin_load_xz_image malloc_contents size_f prepare_f updated_f
    extra err w = Returns (Some p) w1 ->
  push_all fuel p bufs w1 = Returns rs w2 ->
  gdk_pixbuf__stop_load_xz_image fuel' p w2 = Returns r w3 ->
  outstanding (events_since w w1)
  = [O_block R_context; O_block R_lzstream; O_engine;
     O_block R_unxz_buffer; O_stream]
  /\ outstanding (events_since w w2)
     = outstanding (events_since w w1)
       ++ repeat O_segment (length (segments (events_since w1 w2)))
  /\ outstanding (events_since w w3)
     = O_stream
       :: repeat O_segment (length (segments (events_since w1 w3))).
Proof.
  intros Hb Hp Hs.
  destruct (twp_returns _ _ _ _ _
              (begin_load_exits size_f prepare_f updated_f extra err w))
    as (r0 & w0 & Hrun & evs0 & Ht0 & H0).
  rewrite Hb in Hrun. injection Hrun as <- <-.
  destruct H0 as (_ & _ & ->).
  pose proof (run_spec _ _ _ _ _ Hp (push_all_balanced fuel p bufs w1))
    as (evs1 & Ht1 & Hq1).
  pose proof (run_spec _ _ _ _ _ Hs (stop_load_ledger fuel' p w2))
    as (evs2 & Ht2 & Hq2).
  rewrite (since _ _ _ Ht0), (since _ _ _ Ht1).
  rewrite (since w w2 (opening_events ++ evs1))
    by (rewrite Ht1, Ht0, <- app_assoc; reflexivity).
  rewrite (since w w3 (opening_events ++ evs1 ++ evs2))
    by (rewrite Ht2, Ht1, Ht0, <- !app_assoc; reflexivity).
  rewrite (since w1 w3 (evs1 ++ evs2))
    by (rewrite Ht2, Ht1, <- !app_assoc; reflexivity).
  split; [reflexivity|]. unfold outstanding at 1 3.
  rewrite !outstanding_from_app.
  fold (outstanding (G:=G) opening_events).
  rewrite Hq1 by reflexivity. split; [reflexivity|].
  rewrite Hq2, segments_app, length_app. reflexivity.
Qed.

(** ** Other contexts *)

Lemma length_list_set {A} (l : list A) i x :
  length (list_set l i x) = length l.
Proof.
  revert i. induction l as [|y l IH]; intros [|i]; simpl; auto.
Qed.

Lemma same_but_refl p w : same_but p w w.
Proof. split; auto. Qed.

Lemma same_but_trans p w1 w2 w3 :
  same_but p w1 w2 -> same_but p w2 w3 -> same_but p w1 w3.
Proof.
  intros [H1 H2] [H3 H4]. split; [congruence|].
  intros q Hq. rewrite H4, H2 by exact Hq. reflexivity.
Qed.

Lemma same_but_set p w w' x :
  heap w' = list_set (heap w) p x -> same_but p w w'.
Proof.
  intros H. split; rewrite H.
  - apply length_list_set.
  - intros q Hq. apply nth_error_list_set_other. congruence.
Qed.

Lemma same_but_set2 p w w' x y :
  heap w' = list_set (list_set (heap w) p x) p y -> same_but p w w'.
Proof.
  intros H. split; rewrite H.
  - rewrite !length_list_set. reflexivity.
  - intros q Hq. rewrite !nth_error_list_set_other by congruence.
    reflexivity.
Qed.

Lemma lzma_code_frame fuel p buf lzaction w :
  wp (_gdk_pixbuf__lzma_code fuel p buf lzaction)
     (fun _ w' => same_but p w w') w.
Proof.
  eapply wp_mono; [apply lzma_code_trace|].
  intros r w' (c & c' & evs & tail & _ & Hh & _).
  eapply same_but_set, Hh.
Qed.

Lemma push_all_frame fuel p bufs : forall w,
  wp (push_all fuel p bufs) (fun _ w' => same_but p w w') w.
Proof.
  induction bufs as [|buf bufs IH]; intros w; simpl.
  - apply wp_ret, same_but_refl.
  - apply wp_bind. eapply wp_mono; [apply lzma_code_frame|].
    intros r w1 H1. apply wp_bind. eapply wp_mono; [apply IH|].
    intros rs w2 H2. apply wp_ret.
    exact (same_but_trans _ _ _ _ H1 H2).
Qed.

Lemma stop_load_frame fuel p w :
  wp (gdk_pixbuf__stop_load_xz_image fuel p)
     (fun _ w' => same_but p w w' /\ nth_error (heap w') p = Some None) w.
Proof.
  unfold gdk_pixbuf__stop_load_xz_image.
  apply wp_bind. eapply wp_mono; [apply lzma_code_frame|].
  intros r1 w1 H1.
  wp_go.
  all: split;
    [eapply same_but_trans; [exact H1|];
     eapply same_but_set2; reflexivity
    | simpl; eapply nth_error_list_set, nth_error_list_set; eassumption].
Qed.

(** X8: the calls of a session reach no context but their own.  Pushes
    on the context at [p] and the [stop_load] that ends its session leave
    every other context of the heap exactly as it was, and the heap as
    long as it was; [stop_load] leaves the slot of [p] freed. *)
Theorem session_touches_only_its_context fuel fuel' p bufs w rs w1 r w2 :
  push_all fuel p bufs w = Returns rs w1 ->
  gdk_pixbuf__stop_load_xz_image fuel' p w1 = Returns r w2 ->
  same_but p w w1
  /\ same_but p w w2
  /\ nth_error (heap w2) p = Some None.
Proof.
  intros Hp Hs.
  pose proof (run_spec _ _ _ _ _ Hp (push_all_frame fuel p bufs w)) as H1.
  pose proof (run_spec _ _ _ _ _ Hs (stop_load_frame fuel' p w1))
    as [H2 H3].
  split; [exact H1|]. split; [|exact H3].
  exact (same_but_trans _ _ _ _ H1 H2).
Qed.

(** ** A session over a valid file *)

Lemma errors_closing (c : XZImageDecodeContext L G) data :
  filter is_set_error (closing_events c data) = [].
Proof.
  unfold closing_events, callbacks_fired.
  destruct (gdk_pixbuf_new_from_stream G data); [|reflexivity].
  destruct (prepare_func c), (updated_func c); reflexivity.
Qed.

Lemma closing_ledger (c : XZImageDecodeContext L G) data n :
  outstanding_from (outstanding (G:=G) opening_events ++ repeat O_segment n)
    (closing_events c data)
  = O_stream :: repeat O_segment n.
Proof.
  unfold closing_events, callbacks_fired.
  destruct (gdk_pixbuf_new_from_stream G data); [|reflexivity].
  destruct (prepare_func c), (updated_func c); reflexivity.
Qed.

Lemma push_all_rounds fuel p bufs : forall w,
  wp (push_all fuel p bufs)
     (fun rs w' =>
        Forall (fun r => r = true) rs ->
        exists evs, trace w' = trace w ++ evs /\ rounds LZMA_RUN evs) w.
Proof.
  induction bufs as [|buf bufs IH]; intros w; simpl.
  - apply wp_ret. intros _. exists []. split; [now rewrite app_nil_r|].
    constructor.
  - apply wp_bind. eapply wp_mono; [apply lzma_code_shape|].
    intros r w1 (pre & Hpre & H1).
    apply wp_bind. eapply wp_mono; [apply IH|].
    intros rs w2 H2. apply wp_ret. intros Hall.
    pose proof (Forall_inv Hall) as Hr. simpl in Hr. subst r.
    destruct H1 as (_ & Ht1).
    destruct (H2 (Forall_inv_tail Hall)) as (evs2 & Ht2 & Hr2).
    exists (pre ++ evs2). split; [trace_done|].
    apply rounds_app; assumption.
Qed.

(** [stop_load] once its flush has returned TRUE. *)
Lemma stop_load_after_flush fuel p w w1 c1 strm stream :
  _gdk_pixbuf__lzma_code fuel p [] LZMA_FINISH w = Returns true w1 ->
  nth_error (heap w1) p = Some (Some c1) ->
  lzstream c1 = Some strm ->
  memory_istream c1 = Some stream ->
  exists w',
    gdk_pixbuf__stop_load_xz_image fuel p w
    = Returns (is_some (gdk_pixbuf_new_from_stream G (stream_bytes stream)))
        w'
    /\ trace w' = trace w1 ++ closing_events c1 (stream_bytes stream).
Proof.
  intros Hrun Hp1 Hs1 Hm1.
  cut (twp (gdk_pixbuf__stop_load_xz_image fuel p)
         (fun r w' =>
            r = is_some (gdk_pixbuf_new_from_stream G (stream_bytes stream))
            /\ trace w' = trace w1 ++ closing_events c1 (stream_bytes stream))
         w).
  { intros H. apply twp_returns in H.
    destruct H as (r & w' & Hrun' & -> & Ht). exists w'. auto. }
  unfold gdk_pixbuf__stop_load_xz_image.
  apply twp_bind. eapply twp_intro; [exact Hrun|].
  apply twp_bind. eapply twp_deref; [exact Hp1|].
  rewrite Hs1. unfold non_null. apply twp_bind, twp_ret, twp_bind, twp_emit.
  simpl. rewrite Hm1.
  apply twp_bind, twp_ret, twp_bind, twp_emit, twp_bind, twp_emit.
  apply twp_bind. eapply twp_assign; [simpl; exact Hp1|]. simpl.
  unfold closing_events, callbacks_fired.
  destruct (gdk_pixbuf_new_from_stream G (stream_bytes stream)) as [pb|];
    destruct (prepare_func c1), (updated_func c1);
    repeat first [ apply twp_bind | apply twp_emit | apply twp_ret ];
    (eapply twp_free_context;
     [simpl; eapply nth_error_list_set; exact Hp1|]);
    apply twp_ret; simpl;
    (split; [reflexivity | rewrite <- !app_assoc; reflexivity]).
Qed.

(** X9: a session over a valid file, whatever its split into non-empty
    chunks, runs to its end without setting an error: every push returns
    TRUE, [stop_load] hands the payload of the file to the image decoder
    and returns TRUE exactly when the decoder accepts it, the callbacks
    that were supplied are then invoked on the decoded image, prepared
    before updated.  When the session is over everything it allocated is
    released but the memory stream and the segments appended to it, which
    the loader never releases.  The engine is any engine that meets the
    streaming contract, and no allocation fails. *)
Theorem session_over_valid_file_decodes_its_payload (C : stream_contract L)
  s fuel size_f prepare_f updated_f extra bufs w :
  malloc_sized malloc_contents ->
  valid C s ->
  concat bufs = s ->
  Forall (fun buf => buf <> []) bufs ->
  alloc_plan w = [] ->
  (length s + length (plain C s) < fuel)%nat ->
  exists rs w',
    session malloc_contents fuel size_f prepare_f updated_f extra bufs w
    = Returns
        (Some (rs, is_some (gdk_pixbuf_new_from_stream G (plain C s)))) w'
    /\ Forall (fun b => b = true) rs
    /\ filter is_set_error (events_since w w') = []
    /\ filter is_image_decode (events_since w w')
       = [Ev_pixbuf_new_from_stream (plain C s)
            (is_some (gdk_pixbuf_new_from_stream G (plain C s)))]
    /\ callbacks (events_since w w')
       = match gdk_pixbuf_new_from_stream G (plain C s) with
         | None => []
         | Some pb =>
             match prepare_f with
             | Some f => [Ev_prepared f pb extra]
             | None => []
             end ++
             match updated_f with
             | Some f =>
                 [Ev_updated f pb 0 0 (gdk_pixbuf_get_width G pb)
                    (gdk_pixbuf_get_height G pb) extra]
             | None => []
             end
         end
    /\ outstanding (events_since w w')
       = O_stream
         :: repeat O_segment (length (segments (events_since w w'))).
Proof.
  intros Hsized Hvalid Hs Hne Hplan Hfuel.
  assert (Hcap : 0 < Z.shiftl 1 16 < 2 ^ 64) by (split; reflexivity).
  destruct (contract_init C) as (d0 & Hdec & Hcons0).
  destruct (begin_load_returns L G malloc_contents size_f prepare_f updated_f
              extra None d0 w Hdec Hplan)
    as (w0 & Hbegin & Hp0 & Hplan0 & Ht0).
  assert (Hsplit : s = [] ++ concat bufs ++ [])
    by (now rewrite app_nil_r).
  destruct (push_all_returns L G C _ Hcap s Hvalid fuel _ bufs _ [] [] [] d0
              [] w0 Hp0
              (opened_at_rest L G malloc_contents _ _ _ _ _ d0 Hsized)
              Hcons0 Hsplit Hne Hplan0 Hfuel)
    as (rs & c1 & inp1 & w1 & d1 & evs1 & Hpush & Hrs & Hp1 & Hrest1 & Hcons1
        & Hsame1 & Hplan1 & Ht1).
  simpl in Hcons1. rewrite Hs in Hcons1.
  (* the flush *)
  destruct (lzma_step L d1 [] (Z.to_nat (Z.shiftl 1 16)) LZMA_FINISH)
    as [[[r d'] c] out] eqn:Hstep.
  assert (Hroom : (0 < Z.to_nat (Z.shiftl 1 16))%nat)
    by (apply Nat.ltb_lt; reflexivity).
  destruct (contract_finish C s d1 _ _ _ _ _ _ Hvalid Hcons1 Hroom Hstep)
    as (-> & -> & Hout & Hplain).
  destruct fuel as [|fuel']; [lia|].
  destruct (lzma_code_one_round_returns L G _ fuel' _ _ _ _ _ _ _ _ _ _ Hcap
              Hp1 Hrest1 Hstep (or_intror eq_refl) Hout Hplan1)
    as (c2 & w2 & Hflush & Hp2 & Hrest2 & Hsame2 & Hext2 & Hplan2 & Ht2).
  (* what the memory stream holds *)
  pose proof Hpush as Hpush'. rewrite push_all_feed_all in Hpush'.
  pose proof (run_spec _ _ _ _ _ Hpush' (feed_all_trace L G _ _ _ w0))
    as (evs1' & Ht1' & _ & Hc1').
  assert (evs1' = evs1) as ->
    by (rewrite Ht1 in Ht1'; apply app_inv_head in Ht1'; congruence).
  destruct (Hc1' _ Hp0) as (c1' & Hp1' & _ & Hext1).
  rewrite Hp1 in Hp1'. injection Hp1' as <-.
  destruct (Hext1 _ eq_refl) as (s1 & Hm1 & Hch1).
  destruct (Hext2 _ Hm1) as (s2 & Hm2 & Hch2).
  assert (Hbytes : stream_bytes s2 = plain C s).
  { unfold stream_bytes. rewrite Hch2, Hch1. simpl.
    rewrite concat_app. simpl. rewrite app_nil_r. exact Hplain. }
  destruct Hrest2 as (strm2 & _ & _ & Hs2 & _).
  destruct (stop_load_after_flush _ _ _ _ _ _ _ Hflush Hp2 Hs2 Hm2)
    as (w3 & Hstop & Ht3).
  rewrite Hbytes in Hstop, Ht3.
  pose proof (run_spec _ _ _ _ _ Hpush (push_all_rounds _ _ _ w0) Hrs)
    as (evs1' & Ht1'' & Hrounds).
  assert (evs1' = evs1) as ->
    by (rewrite Ht1 in Ht1''; apply app_inv_head in Ht1''; congruence).
  pose proof (rounds_loop_events _ _ Hrounds) as Hloop.
  set (flush := [Ev_lzma_code LZMA_FINISH LZMA_STREAM_END out;
                 Ev_malloc R_mem_buffer (Z.of_nat (length out));
                 Ev_add_data out] : list (event G)) in *.
  exists rs, w3.
  split; [unfold session, bind; rewrite Hbegin, Hpush, Hstop; reflexivity|].
  split; [exact Hrs|].
  rewrite (since w w3 (opening_events ++ evs1 ++ flush
                       ++ closing_events c2 (plain C s)))
    by (rewrite Ht3, Ht2, Ht1, Ht0, <- !app_assoc; reflexivity).
  destruct Hsame1 as (_ & P1 & U1 & E1 & _).
  destruct Hsame2 as (_ & P2 & U2 & E2 & _).
  simpl in P1, U1, E1.
  split; [|split; [|split]].
  - rewrite !filter_app, (loop_events_no_error _ Hloop), errors_closing.
    reflexivity.
  - rewrite !filter_app, (loop_events_no_decode _ Hloop),
      image_decodes_closing.
    reflexivity.
  - unfold callbacks. rewrite !filter_app.
    fold (callbacks evs1) (callbacks (closing_events c2 (plain C s))).
    rewrite (loop_events_no_callback _ Hloop), callbacks_closing.
    unfold callbacks_fired. rewrite P2, P1, U2, U1, E2, E1. reflexivity.
  - assert (Hloop2 : loop_events (evs1 ++ flush))
      by (apply loop_events_app; [exact Hloop | repeat constructor]).
    replace (opening_events ++ evs1 ++ flush
             ++ closing_events c2 (plain C s))
      with (opening_events ++ (evs1 ++ flush)
            ++ closing_events c2 (plain C s))
      by (rewrite <- !app_assoc; reflexivity).
    rewrite outstanding_around by first [exact Hloop2 | reflexivity].
    rewrite segments_around by first [reflexivity | apply segments_closing].
    apply closing_ledger.
Qed.

(** ** The one-shot path over a valid file *)

Lemma window_at_write cap win (strm : lzma_stream L) buffer c p d' :
  window_at cap win strm buffer ->
  (length p <= Z.to_nat (avail_out strm))%nat ->
  Z.of_nat (length (win ++ p)) <= cap
  /\ window_at (L:=L) cap (win ++ p)
       {| next_in := skipn c (next_in strm);
          avail_in := avail_in strm - Z.of_nat c;
          next_out := next_out strm + Z.of_nat (length p);
          avail_out := avail_out strm - Z.of_nat (length p);
          internal := Some d' |}
       (write_at buffer (Z.to_nat (next_out strm)) p).
Proof.
  intros (Hlen & Hle & Hno & Hao & Hfn) Hp.
  rewrite Hao in Hp.
  assert (Hfit : Z.of_nat (length (win ++ p)) <= cap).
  { rewrite length_app. lia. }
  split; [exact Hfit|].
  rewrite length_app in Hfit.
  unfold window_at; simpl. rewrite Hno, Nat2Z.id.
  repeat split.
  - rewrite length_write_at; [exact Hlen | lia].
  - rewrite length_app. lia.
  - rewrite length_app. lia.
  - rewrite length_app. lia.
  - rewrite length_app, firstn_write_at by lia. now rewrite Hfn.
Qed.

(** [fread] on a file that reads without fault. *)
Lemma fread_clean n f :
  f_fault f = None -> f_err f = false -> f_eof f = false ->
  exists data f',
    fread n f = (data, f')
    /\ f_data f = data ++ f_data f'
    /\ f_fault f' = None /\ f_err f' = false
    /\ (f_eof f' = true -> f_data f' = [])
    /\ (f_eof f' = false -> length data = n).
Proof.
  intros Hf He Heof. unfold fread. rewrite Hf.
  destruct (n <=? length (f_data f))%nat eqn:Hn.
  - apply Nat.leb_le in Hn. do 2 eexists. split; [reflexivity|]. simpl.
    rewrite firstn_skipn. repeat split; auto.
    + congruence.
    + intros _. rewrite length_firstn. lia.
  - do 2 eexists. split; [reflexivity|]. simpl.
    rewrite firstn_all, skipn_all. rewrite app_nil_r.
    repeat split; auto. discriminate.
Qed.

Lemma firstn_write_at_0 (mem data : list byte) :
  firstn (length data) (write_at mem 0 data) = data.
Proof.
  unfold write_at. simpl.
  rewrite firstn_app, firstn_all, Nat.sub_diag. simpl. apply app_nil_r.
Qed.

Section OneShot.

Variable C : stream_contract L.
Hypothesis O : one_shot_contract C.
Variable s : list byte.
Hypothesis s_valid : valid C s.

Unset Default Proof Using.

(** The first statement of the loop body. *)
Lemma load_refill_returns (ls : load_state L) i o win d w :
  load_inv C s ls i o win d ->
  exists ls' w' evs,
    load_refill ls w = Returns (None, ls') w'
    /\ load_inv C s ls' i o win d
    /\ ls_stream ls' = ls_stream ls
    /\ load_measure C s ls' o = load_measure C s ls o
    /\ (avail_in (ls_strm ls') = 0 -> f_eof (ls_file ls') = true)
    /\ alloc_plan w' = alloc_plan w
    /\ trace w' = trace w ++ evs
    /\ segments evs = []
    /\ loop_events evs.
Proof.
  intros I. unfold load_refill.
  destruct ((avail_in (ls_strm ls) =? 0) && negb (feof (ls_file ls)))
    eqn:Hcond.
  2: { exists ls, w, []. rewrite app_nil_r.
       repeat split; try apply I; auto; try constructor.
       intros H0. rewrite H0 in Hcond. simpl in Hcond.
       apply negb_false_iff in Hcond. exact Hcond. }
  apply andb_prop in Hcond as [H0 Heof].
  apply Z.eqb_eq in H0. apply negb_true_iff in Heof. unfold feof in Heof.
  destruct (fread_clean (Z.to_nat buffer_size) _ (li_fault _ _ _ _ _ _ _ I)
              (li_err _ _ _ _ _ _ _ I) Heof)
    as (data & f' & Hread & Hdata & Hf' & He' & Heof' & Hfull).
  rewrite Hread. unfold bind, emit, ferror. rewrite He', andb_false_r.
  do 3 eexists. split; [reflexivity|].
  assert (Hpend : pending ls = []).
  { unfold pending. rewrite H0. reflexivity. }
  assert (Hpend' : firstn (Z.to_nat (Z.of_nat (length data)))
                     (write_at (ls_xz_buffer ls) 0 data) = data).
  { rewrite Nat2Z.id. apply firstn_write_at_0. }
  split; [|split; [reflexivity|split; [|split; [|split; [reflexivity|]]]]].
  - constructor; simpl; auto.
    + unfold feof. rewrite (li_action _ _ _ _ _ _ _ I), Heof.
      destruct (f_eof f'); reflexivity.
    + apply I.
    + lia.
    + rewrite Nat2Z.id. unfold write_at. simpl. rewrite length_app. lia.
    + destruct (li_window _ _ _ _ _ _ _ I) as (W1 & W2 & W3 & W4 & W5).
      repeat split; assumption.
    + apply I.
    + apply I.
    + unfold pending. simpl. rewrite Hpend'.
      rewrite (li_split _ _ _ _ _ _ _ I), Hpend, Hdata. reflexivity.
    + apply I.
  - unfold load_measure, pending. simpl. rewrite Hpend'.
    fold (pending ls). rewrite Hpend, Hdata, length_app. simpl. lia.
  - simpl. intros Hz. destruct (f_eof f') eqn:E; [reflexivity|].
    specialize (Hfull eq_refl). pose proof buffer_size_pos. lia.
  - split; [reflexivity|]. split; [reflexivity | repeat constructor].
Qed.

Lemma pending_length (ls : load_state L) i o win d :
  load_inv C s ls i o win d ->
  Z.of_nat (length (pending ls)) = avail_in (ls_strm ls).
Proof.
  intros I. unfold pending. rewrite length_firstn.
  pose proof (li_avail _ _ _ _ _ _ _ I).
  pose proof (li_input _ _ _ _ _ _ _ I). lia.
Qed.

(** What the contracts say of the call of the engine in a round. *)
Lemma load_call (ls : load_state L) i o win d room r d' c p :
  load_inv C s ls i o win d ->
  (avail_in (ls_strm ls) = 0 -> f_eof (ls_file ls) = true) ->
  (0 < room)%nat ->
  lzma_step L d (pending ls) room (ls_lzaction ls) = (r, d', c, p) ->
  (c <= length (pending ls))%nat /\ (length p <= room)%nat
  /\ ((r = LZMA_OK /\ (0 < c \/ 0 < length p)%nat
       /\ consumed C d' (i ++ firstn c (pending ls)) (o ++ p))
      \/ (r = LZMA_STREAM_END /\ o ++ p = plain C s)).
Proof.
  intros I Hready Hroom Hstep.
  pose proof (pending_length _ _ _ _ _ I) as Hlen.
  pose proof (li_split _ _ _ _ _ _ _ I) as Hs.
  pose proof (li_consumed _ _ _ _ _ _ _ I) as Hc.
  rewrite (li_action _ _ _ _ _ _ _ I) in Hstep.
  destruct (f_eof (ls_file ls)) eqn:Heof.
  - rewrite (li_eof _ _ _ _ _ _ _ I Heof), app_nil_r in Hs.
    destruct (pending ls) as [|b inp] eqn:Hp.
    + rewrite app_nil_r in Hs. subst i.
      destruct (contract_finish C s d o _ _ _ _ _ s_valid Hc Hroom Hstep)
        as (-> & -> & Hout & Hplain).
      split; [simpl; lia|]. split; [exact Hout|]. right. auto.
    + destruct (finish_with_input C O s d i o _ _ _ _ _ _ s_valid Hc Hs
                  ltac:(discriminate) Hroom Hstep)
        as (H1 & H2 & [(-> & H3 & H4) | (-> & H4 & H5)]).
      * split; [exact H1|]. split; [exact H2|]. left. auto.
      * split; [exact H1|]. split; [exact H2|]. right. auto.
  - assert (Hne : pending ls <> []).
    { intros E. rewrite E in Hlen. simpl in Hlen.
      symmetry in Hlen. specialize (Hready Hlen). discriminate. }
    destruct (contract_run C s d i o _ _ _ _ _ _ _ s_valid Hc Hs Hne Hroom
                Hstep)
      as (_ & H1 & H2 & H3 & H4).
    pose proof (run_answers_ok C O s d i o _ _ _ _ _ _ _ s_valid Hc Hs Hne
                  Hroom Hstep) as ->.
    split; [exact H1|]. split; [exact H2|]. left. auto.
Qed.

(** The state of the loop after a call of the engine that answered
    [LZMA_OK]. *)
Lemma load_inv_step (ls : load_state L) i o win d c p d' strm buffer win'
  stream :
  load_inv C s ls i o win d ->
  (c <= length (pending ls))%nat ->
  (0 < c \/ 0 < length p)%nat ->
  consumed C d' (i ++ firstn c (pending ls)) (o ++ p) ->
  window_at buffer_size win' strm buffer ->
  Z.of_nat (length win') < buffer_size ->
  next_in strm = skipn c (next_in (ls_strm ls)) ->
  avail_in strm = avail_in (ls_strm ls) - Z.of_nat c ->
  internal strm = Some d' ->
  o ++ p = stream_bytes stream ++ win' ->
  let ls' := {| ls_file := ls_file ls; ls_xz_buffer := ls_xz_buffer ls;
                ls_unxz_buffer := buffer; ls_strm := strm;
                ls_lzaction := ls_lzaction ls; ls_stream := stream |} in
  load_inv C s ls' (i ++ firstn c (pending ls)) (o ++ p) win' d'
  /\ (load_measure C s ls' (o ++ p) < load_measure C s ls o)%nat.
Proof.
  intros I Hc Hprog Hcons Hwin Hroom Hni Hai Hint Hout ls'.
  pose proof (pending_length _ _ _ _ _ I) as Hlen.
  pose proof (li_input _ _ _ _ _ _ _ I) as Hinp.
  pose proof (li_avail _ _ _ _ _ _ _ I) as Hav.
  assert (Hpend : pending ls' = skipn c (pending ls)).
  { unfold pending, ls'. simpl. rewrite Hni, Hai.
    rewrite firstn_skipn_comm. f_equal. f_equal. lia. }
  assert (Hsplit : s = (i ++ firstn c (pending ls)) ++ pending ls'
                       ++ f_data (ls_file ls)).
  { rewrite Hpend, <- app_assoc, (app_assoc (firstn c _)), firstn_skipn.
    apply I. }
  split.
  - constructor; simpl; try apply I; auto.
    + lia.
    + rewrite Hni, Hai, length_skipn. lia.
  - pose proof (contract_output C s d' _ _ _ s_valid Hcons Hsplit) as Hbound.
    unfold load_measure. rewrite Hpend, length_skipn. simpl.
    rewrite length_app in *. lia.
Qed.

(** The rest of the loop body. *)
Lemma load_decode_returns (ls : load_state L) i o win d w :
  load_inv C s ls i o win d ->
  (avail_in (ls_strm ls) = 0 -> f_eof (ls_file ls) = true) ->
  alloc_plan w = [] ->
  exists r ls' w' evs,
    load_decode ls w = Returns (r, ls') w'
    /\ alloc_plan w' = []
    /\ trace w' = trace w ++ evs
    /\ loop_events evs
    /\ stream_bytes (ls_stream ls')
       = stream_bytes (ls_stream ls) ++ accumulated evs
    /\ ((r = inr true
         /\ exists i' o' win' d',
              load_inv C s ls' i' o' win' d'
              /\ (load_measure C s ls' o' < load_measure C s ls o)%nat)
        \/ (r = inr false
            /\ stream_bytes (ls_stream ls') = plain C s)).
Proof.
  intros I Hready Hplan.
  pose proof buffer_size_pos as Hpos. pose proof buffer_size_small as Hsm.
  pose proof (li_window _ _ _ _ _ _ _ I) as Hwin.
  pose proof (li_room _ _ _ _ _ _ _ I) as Hroom.
  pose proof (pending_length _ _ _ _ _ I) as Hlen.
  assert (Hr : (0 < Z.to_nat (avail_out (ls_strm ls)))%nat).
  { destruct Hwin as (_ & _ & _ & Hao & _). lia. }
  destruct (lzma_step L d (pending ls) (Z.to_nat (avail_out (ls_strm ls)))
              (ls_lzaction ls)) as [[[r d'] c] p] eqn:Hstep.
  destruct (load_call _ _ _ _ _ _ _ _ _ _ I Hready Hr Hstep)
    as (Hc & Hp & Hcase).
  destruct (window_at_write _ _ _ _ c _ d' Hwin Hp) as [Hfit Hwin'].
  destruct (window_at_drain L G _ Hpos Hsm _ _ _ Hwin') as [Hsize Hcpy].
  set (strm' := {| next_in := skipn c (next_in (ls_strm ls));
                   avail_in := avail_in (ls_strm ls) - Z.of_nat c;
                   next_out := next_out (ls_strm ls) + Z.of_nat (length p);
                   avail_out := avail_out (ls_strm ls) - Z.of_nat (length p);
                   internal := Some d' |}) in *.
  set (buffer' := write_at (ls_unxz_buffer ls)
                    (Z.to_nat (next_out (ls_strm ls))) p) in *.
  cut (twp (load_decode ls)
         (fun a w' =>
            exists evs,
              alloc_plan w' = []
              /\ trace w' = trace w ++ evs
              /\ loop_events evs
              /\ stream_bytes (ls_stream (snd a))
                 = stream_bytes (ls_stream ls) ++ accumulated evs
              /\ ((fst a = inr true
                   /\ exists i' o' win' d',
                        load_inv C s (snd a) i' o' win' d'
                        /\ (load_measure C s (snd a) o'
                            < load_measure C s ls o)%nat)
                  \/ (fst a = inr false
                      /\ stream_bytes (ls_stream (snd a)) = plain C s))) w).
  { intros H. apply twp_returns in H.
    destruct H as ([r0 ls'] & w' & Hrun & evs & H).
    exists r0, ls', w', evs. split; [exact Hrun | exact H]. }
  unfold load_decode.
  apply twp_bind.
  eapply twp_lzma_code; [apply I | exact Hstep|].
  fold strm' buffer'. cbn beta iota.
  assert (Hao : avail_out strm' = buffer_size - Z.of_nat (length (win ++ p)))
    by apply Hwin'.
  rewrite Hsize, Hcpy.
  destruct Hcase as [(-> & Hprog & Hcons) | (-> & Hplain)].
  - (* the engine goes on *)
    rewrite orb_false_r.
    destruct (avail_out strm' =? 0) eqn:Hfull.
    + apply Z.eqb_eq in Hfull.
      apply twp_bind, twp_bind, twp_malloc; [exact Hplan|].
      cbn [negb]. apply twp_bind, twp_ret, twp_bind, twp_emit, twp_ret.
      apply twp_ret.
      cbn [fst snd ls_file ls_xz_buffer ls_unxz_buffer ls_strm ls_lzaction
           ls_stream].
      exists [Ev_lzma_code (ls_lzaction ls) LZMA_OK p;
              Ev_malloc R_mem_buffer (Z.of_nat (length (win ++ p)));
              Ev_add_data (win ++ p)].
      split; [reflexivity|].
      split; [simpl; rewrite <- !app_assoc; reflexivity|].
      split; [repeat constructor|].
      split.
      { unfold stream_bytes, accumulated. simpl.
        rewrite concat_app. simpl. rewrite !app_nil_r. reflexivity. }
      left. split; [reflexivity|].
      exists (i ++ firstn c (pending ls)), (o ++ p), [], d'.
      apply (load_inv_step ls i o win d); auto.
      * eapply window_at_reset; [exact Hpos | exact Hwin'].
      * unfold stream_bytes. simpl. rewrite concat_app. simpl.
        rewrite !app_nil_r, (li_output _ _ _ _ _ _ _ I).
        unfold stream_bytes. rewrite app_assoc. reflexivity.
    + apply Z.eqb_neq in Hfull.
      apply twp_bind, twp_ret. apply twp_ret.
      cbn [fst snd ls_file ls_xz_buffer ls_unxz_buffer ls_strm ls_lzaction
           ls_stream].
      exists [Ev_lzma_code (ls_lzaction ls) LZMA_OK p].
      split; [exact Hplan|]. split; [reflexivity|].
      split; [repeat constructor|].
      split; [unfold accumulated; simpl; rewrite app_nil_r; reflexivity|].
      left. split; [reflexivity|].
      exists (i ++ firstn c (pending ls)), (o ++ p), (win ++ p), d'.
      apply (load_inv_step ls i o win d); auto.
      * lia.
      * rewrite (li_output _ _ _ _ _ _ _ I), app_assoc. reflexivity.
  - (* the end of the stream *)
    rewrite orb_true_r.
    apply twp_bind, twp_bind, twp_malloc; [exact Hplan|].
    cbn [negb]. apply twp_bind, twp_ret, twp_bind, twp_emit, twp_ret.
    apply twp_ret.
      cbn [fst snd ls_file ls_xz_buffer ls_unxz_buffer ls_strm ls_lzaction
           ls_stream].
    exists [Ev_lzma_code (ls_lzaction ls) LZMA_STREAM_END p;
            Ev_malloc R_mem_buffer (Z.of_nat (length (win ++ p)));
            Ev_add_data (win ++ p)].
    split; [reflexivity|].
    split; [simpl; rewrite <- !app_assoc; reflexivity|].
    split; [repeat constructor|].
    assert (Hbytes : stream_bytes
                       (g_memory_input_stream_add_data (ls_stream ls)
                          (win ++ p))
                     = stream_bytes (ls_stream ls) ++ win ++ p).
    { unfold stream_bytes. simpl. rewrite concat_app. simpl.
      rewrite app_nil_r. reflexivity. }
    split.
    { simpl. rewrite Hbytes. unfold accumulated. simpl.
      rewrite app_nil_r. reflexivity. }
    right. split; [reflexivity|]. simpl. rewrite Hbytes, <- Hplain.
    rewrite (li_output _ _ _ _ _ _ _ I), app_assoc. reflexivity.
Qed.

(** The whole loop. *)
Lemma load_loop_returns : forall fuel (ls : load_state L) i o win d w,
  load_inv C s ls i o win d ->
  alloc_plan w = [] ->
  (load_measure C s ls o < fuel)%nat ->
  exists ls' w' evs,
    load_loop fuel ls w = Returns (None, ls') w'
    /\ alloc_plan w' = []
    /\ trace w' = trace w ++ evs
    /\ loop_events evs
    /\ stream_bytes (ls_stream ls')
       = stream_bytes (ls_stream ls) ++ accumulated evs
    /\ stream_bytes (ls_stream ls') = plain C s.
Proof.
  induction fuel as [|fuel IH]; intros ls i o win d w I Hplan Hfuel;
    [lia|].
  destruct (load_refill_returns ls i o win d w I)
    as (ls1 & w1 & evs1 & Hrun1 & I1 & Hst1 & Hm1 & Hready & Hplan1 & Ht1
        & Hseg1 & Hl1).
  rewrite Hplan in Hplan1.
  destruct (load_decode_returns ls1 i o win d w1 I1 Hready Hplan1)
    as (r & ls2 & w2 & evs2 & Hrun2 & Hplan2 & Ht2 & Hl2 & Hb2 & Hcase).
  simpl. unfold bind. rewrite Hrun1, Hrun2.
  assert (Hacc1 : accumulated evs1 = [])
    by (unfold accumulated; rewrite Hseg1; reflexivity).
  destruct Hcase as [(-> & i' & o' & win' & d' & I2 & Hm2) | (-> & Hend)].
  - destruct (IH ls2 i' o' win' d' w2 I2 Hplan2 ltac:(lia))
      as (ls3 & w3 & evs3 & Hrun3 & Hplan3 & Ht3 & Hl3 & Hb3 & Hend).
    exists ls3, w3, (evs1 ++ evs2 ++ evs3).
    split; [exact Hrun3|]. split; [exact Hplan3|].
    split; [rewrite Ht3, Ht2, Ht1, <- !app_assoc; reflexivity|].
    split; [repeat apply loop_events_app; assumption|].
    split; [|exact Hend].
    rewrite Hb3, Hb2, Hst1, !accumulated_app, Hacc1, <- app_assoc.
    reflexivity.
  - exists ls2, w2, (evs1 ++ evs2).
    split; [reflexivity|]. split; [exact Hplan2|].
    split; [rewrite Ht2, Ht1, <- !app_assoc; reflexivity|].
    split; [apply loop_events_app; assumption|].
    split; [|exact Hend].
    rewrite Hb2, Hst1, accumulated_app, Hacc1. reflexivity.
Qed.

(** The whole function. *)
Lemma load_valid_returns fuel w :
  malloc_sized malloc_contents ->
  alloc_plan w = [] ->
  (length s + length (plain C s) < fuel)%nat ->
  exists w' evs,
    gdk_pixbuf__load_xz_image malloc_contents fuel (unread s) w
    = Returns (gdk_pixbuf_new_from_stream G (plain C s)) w'
    /\ trace w' = trace w ++ evs
    /\ accumulated evs = plain C s
    /\ filter is_image_decode evs
       = [Ev_pixbuf_new_from_stream (plain C s)
            (is_some (gdk_pixbuf_new_from_stream G (plain C s)))]
    /\ filter is_set_error evs
       = match gdk_pixbuf_new_from_stream G (plain C s) with
         | Some _ => []
         | None =>
             [Ev_set_error "Could not create pixbuf from memory stream"]
         end.
Proof.
  intros Hsized Hplan Hfuel.
  pose proof buffer_size_pos as Hpos.
  destruct (contract_init C) as (d0 & Hdec & Hcons0).
  set (ls0 := {| ls_file := unread s;
                 ls_xz_buffer := malloc_contents buffer_size;
                 ls_unxz_buffer := malloc_contents buffer_size;
                 ls_strm := set_out (set_in (set_internal LZMA_STREAM_INIT
                                               (Some d0)) [] 0) 0
                              buffer_size;
                 ls_lzaction := LZMA_RUN;
                 ls_stream := g_memory_input_stream_new |}).
  assert (I0 : load_inv C s ls0 [] [] [] d0).
  { constructor; simpl; auto; try lia; try discriminate.
    unfold window_at. simpl. rewrite Hsized by lia.
    repeat split; try reflexivity; lia. }
  set (pre := [Ev_malloc R_lzstream sizeof_lzma_stream;
               Ev_lzma_stream_decoder LZMA_OK;
               Ev_malloc R_xz_buffer buffer_size;
               Ev_malloc R_unxz_buffer buffer_size;
               Ev_memory_input_stream_new] : list (event G)).
  set (w0 := {| heap := heap w; alloc_plan := [];
                trace :=
                  ((((trace w ++ [Ev_malloc R_lzstream sizeof_lzma_stream])
                     ++ [Ev_lzma_stream_decoder LZMA_OK])
                    ++ [Ev_malloc R_xz_buffer buffer_size])
                   ++ [Ev_malloc R_unxz_buffer buffer_size])
                  ++ [Ev_memory_input_stream_new] |} : World L G).
  destruct (load_loop_returns fuel ls0 [] [] [] d0 w0 I0 eq_refl)
    as (ls1 & w1 & evs & Hloop & Hplan1 & Ht1 & Hl & Hb & Hend).
  { unfold load_measure, pending. simpl. lia. }
  simpl in Hb.
  assert (Ht1' : trace w1 = trace w ++ pre ++ evs)
    by (rewrite Ht1; unfold w0, pre; simpl; rewrite <- !app_assoc;
        reflexivity).
  cut (twp (gdk_pixbuf__load_xz_image malloc_contents fuel (unread s))
         (fun r w' =>
            r = gdk_pixbuf_new_from_stream G (plain C s)
            /\ exists post,
                 trace w' = trace w ++ pre ++ evs ++ post
                 /\ segments post = []
                 /\ filter is_image_decode post
                    = [Ev_pixbuf_new_from_stream (plain C s)
                         (is_some (gdk_pixbuf_new_from_stream G
                                     (plain C s)))]
                 /\ filter is_set_error post
                    = match gdk_pixbuf_new_from_stream G (plain C s) with
                      | Some _ => []
                      | None =>
                          [Ev_set_error
                             "Could not create pixbuf from memory stream"]
                      end) w).
  { intros H. apply twp_returns in H.
    destruct H as (r & w' & Hrun & -> & post & Ht & Hseg & Hdecode & Herr).
    exists w', (pre ++ evs ++ post).
    split; [exact Hrun|]. split; [exact Ht|].
    split; [rewrite accumulated_around by (reflexivity || exact Hseg);
            congruence|].
    rewrite !filter_around
      by first [apply loop_events_no_decode, Hl
               | apply loop_events_no_error, Hl].
    split; [exact Hdecode | exact Herr]. }
  unfold gdk_pixbuf__load_xz_image.
  apply twp_bind, twp_malloc; [exact Hplan|]. cbn [negb].
  rewrite Hdec. apply twp_bind, twp_emit. cbn [lzma_ret_eqb negb].
  apply twp_bind, twp_malloc; [reflexivity|].
  apply twp_bind, twp_malloc; [reflexivity|].
  apply twp_bind, twp_emit, twp_bind.
  eapply twp_intro; [exact Hloop|].
  cbn beta iota. rewrite Hend.
  apply twp_bind, twp_emit.
  destruct (gdk_pixbuf_new_from_stream G (plain C s)) as [pb|].
  - repeat first [ apply twp_bind | apply twp_emit ]. apply twp_ret.
    split; [reflexivity|]. eexists. split.
    + simpl. rewrite Ht1', <- !app_assoc. reflexivity.
    + repeat split.
  - unfold load_failure. simpl.
    repeat first [ apply twp_bind | apply twp_emit ]. apply twp_ret.
    split; [reflexivity|]. eexists. split.
    + simpl. rewrite Ht1', <- !app_assoc. reflexivity.
    + repeat split.
Qed.

End OneShot.

Set Default Proof Using "Type".

(** X10: the one-shot load of a valid file returns the image that
    gdk-pixbuf decodes from the payload of the file, NULL when gdk-pixbuf
    rejects the payload: the bytes it accumulates in the memory stream are
    the payload, it hands them to the image decoder once, and it sets an
    error only when the decoder rejects them.  The engine is any engine
    that meets the streaming contract and its one-shot clauses, the file
    reads without fault, and no allocation fails. *)
Theorem load_of_valid_file_decodes_its_payload (C : stream_contract L) s
  fuel w :
  one_shot_contract C ->
  malloc_sized malloc_contents ->
  valid C s ->
  alloc_plan w = [] ->
  (length s + length (plain C s) < fuel)%nat ->
  exists w',
    gdk_pixbuf__load_xz_image malloc_contents fuel (unread s) w
    = Returns (gdk_pixbuf_new_from_stream G (plain C s)) w'
    /\ accumulated (events_since w w') = plain C s
    /\ filter is_image_decode (events_since w w')
       = [Ev_pixbuf_new_from_stream (plain C s)
            (is_some (gdk_pixbuf_new_from_stream G (plain C s)))]
    /\ filter is_set_error (events_since w w')
       = match gdk_pixbuf_new_from_stream G (plain C s) with
         | Some _ => []
         | None =>
             [Ev_set_error "Could not create pixbuf from memory stream"]
         end.
Proof.
  intros HO Hsized Hvalid Hplan Hfuel.
  destruct (load_valid_returns C HO s Hvalid fuel w Hsized Hplan Hfuel)
    as (w' & evs & Hrun & Ht & H).
  exists w'. rewrite (since _ _ _ Ht). split; [exact Hrun | exact H].
Qed.



(** ** The segments of the one-shot path *)

Section LoadSegments.

Hypothesis bounds : engine_bounds L.

Unset Default Proof Using.

Lemma load_decode_segments (ls : load_state L) w win :
  window_at buffer_size win (ls_strm ls) (ls_unxz_buffer ls) ->
  wp (load_decode ls)
     (fun r w' =>
        exists evs win',
          trace w' = trace w ++ evs
          /\ window_at buffer_size win' (ls_strm (snd r))
               (ls_unxz_buffer (snd r))
          /\ (segments evs = []
              \/ exists seg,
                   segments evs = [seg]
                   /\ Z.of_nat (length seg) <= buffer_size
                   /\ (fst r = inr true ->
                       Z.of_nat (length seg) = buffer_size))
          /\ (fst r = inr false -> segments evs <> [])) w.
Proof.
  intros Hwin. unfold load_decode.
  apply wp_bind.
  eapply (wp_lzma_code_window L G buffer_size buffer_size_pos bounds);
    [exact Hwin|].
  intros r strm' buffer' p Hfit Hwin' _.
  destruct (window_at_drain L G _ buffer_size_pos buffer_size_small _ _ _
              Hwin') as [Hsize Hcpy].
  assert (Hao : avail_out strm'
                = buffer_size - Z.of_nat (length (win ++ p)))
    by apply Hwin'.
  simpl. rewrite Hsize, Hcpy.
  destruct (avail_out strm' =? 0) eqn:Hfull;
    [apply Z.eqb_eq in Hfull | apply Z.eqb_neq in Hfull];
    destruct r; simpl; wp_go; simpl.
  all: eexists _, _; split; [trace_done|].
  all: split;
    [first [ exact Hwin'
           | eapply window_at_reset; [exact buffer_size_pos | exact Hwin'] ]
    |].
  all: split;
    [first [ left; reflexivity
           | right; eexists; split; [reflexivity|]; split; [exact Hfit|];
             intros; first [discriminate | lia] ]
    | intros; first [discriminate | congruence] ].
Qed.

Lemma load_refill_segments (ls : load_state L) w win :
  window_at buffer_size win (ls_strm ls) (ls_unxz_buffer ls) ->
  wp (load_refill ls)
     (fun r w' =>
        exists evs,
          trace w' = trace w ++ evs
          /\ segments evs = []
          /\ window_at buffer_size win (ls_strm (snd r))
               (ls_unxz_buffer (snd r))) w.
Proof.
  intros Hwin. unfold load_refill.
  wp_go; simpl; (eexists; split; [trace_done|]); split;
    first [reflexivity | exact Hwin].
Qed.

Lemma load_loop_segments fuel : forall (ls : load_state L) w win,
  window_at buffer_size win (ls_strm ls) (ls_unxz_buffer ls) ->
  wp (load_loop fuel ls)
     (fun r w' =>
        exists evs full rest,
          trace w' = trace w ++ evs
          /\ segments evs = full ++ rest
          /\ Forall (fun seg => Z.of_nat (length seg) = buffer_size) full
          /\ Forall (fun seg => Z.of_nat (length seg) <= buffer_size) rest
          /\ (length rest <= 1)%nat
          /\ (fst r = None -> length rest = 1%nat)) w.
Proof.
  induction fuel as [|fuel IH]; intros ls w win Hwin; simpl.
  - exact I.
  - apply wp_bind.
    eapply wp_mono; [eapply load_refill_segments; exact Hwin|].
    intros [[msg|] ls1] w1 (evs1 & Ht1 & Hs1 & Hwin1); simpl in *.
    + apply wp_ret. exists evs1, [], []. rewrite Hs1. simpl.
      repeat split; auto. discriminate.
    + apply wp_bind.
      eapply wp_mono; [eapply load_decode_segments; exact Hwin1|].
      intros [[msg|[|]] ls2] w2 (evs2 & win2 & Ht2 & Hwin2 & Hseg & Hbr);
        simpl in *.
      * apply wp_ret. simpl.
        exists (evs1 ++ evs2), [], (segments evs2).
        split; [trace_done|].
        split; [rewrite segments_app, Hs1; reflexivity|].
        split; [constructor|].
        destruct Hseg as [-> | (seg & -> & Hle & _)];
          repeat split; auto; discriminate.
      * eapply wp_mono; [eapply IH; exact Hwin2|].
        intros [failure ls3] w3
          (evs3 & full & rest & Ht3 & Hs3 & Hfull & Hrest & Hlen & Hlast);
          simpl in *.
        exists (evs1 ++ evs2 ++ evs3), (segments evs2 ++ full), rest.
        split; [trace_done|].
        split; [rewrite !segments_app, Hs1, Hs3; simpl;
                rewrite app_assoc; reflexivity|].
        split; [|auto].
        apply Forall_app. split; [|exact Hfull].
        destruct Hseg as [-> | (seg & -> & _ & Heq)]; constructor; auto.
      * apply wp_ret. simpl.
        exists (evs1 ++ evs2), [], (segments evs2).
        split; [trace_done|].
        split; [rewrite segments_app, Hs1; reflexivity|].
        split; [constructor|].
        destruct Hseg as [E | (seg & -> & Hle & _)];
          [destruct (Hbr eq_refl E)|].
        repeat split; auto.
Qed.

(** Every exit of the function. *)
Lemma load_segments fuel file w :
  malloc_sized malloc_contents ->
  wp (gdk_pixbuf__load_xz_image malloc_contents fuel file)
     (fun r w' =>
        exists evs full rest,
          trace w' = trace w ++ evs
          /\ segments evs = full ++ rest
          /\ Forall (fun seg => Z.of_nat (length seg) = buffer_size) full
          /\ Forall (fun seg => Z.of_nat (length seg) <= buffer_size) rest
          /\ (length rest <= 1)%nat
          /\ (r <> None -> length rest = 1%nat)) w.
Proof.
  intros Hsized.
  unfold gdk_pixbuf__load_xz_image, load_failure.
  wp_go; simpl.
  all: try match goal with
           | H : negb (lzma_ret_eqb _ LZMA_OK) = false |- _ =>
               apply negb_false_iff, lzma_ret_eqb_eq in H; subst
           end.
  1-5: eexists _, [], []; split; [trace_done|];
    repeat split; auto; congruence.
  eapply wp_mono.
  { eapply load_loop_segments with (win := []).
    unfold window_at; simpl.
    rewrite Hsized by (unfold buffer_size; discriminate).
    pose proof buffer_size_pos.
    repeat split; try reflexivity; lia. }
  intros [failure ls1] w1
    (evs & full & rest & Ht & Hs & Hfull & Hrest & Hlen & Hlast); simpl in *.
  set (pre := [Ev_malloc R_lzstream sizeof_lzma_stream;
               Ev_lzma_stream_decoder LZMA_OK;
               Ev_malloc R_xz_buffer buffer_size;
               Ev_malloc R_unxz_buffer buffer_size;
               Ev_memory_input_stream_new] : list (event G)).
  assert (Ht' : trace w1 = trace w ++ pre ++ evs)
    by (rewrite Ht, <- !app_assoc; reflexivity).
  assert (Hseg : forall post, segments post = [] ->
                   segments (pre ++ evs ++ post) = full ++ rest).
  { intros post Hpost. rewrite !segments_app, Hs, Hpost, app_nil_r.
    reflexivity. }
  clear Ht. wp_go; simpl.
  - exists (pre ++ evs
            ++ [Ev_set_error s; Ev_free R_xz_buffer; Ev_free R_unxz_buffer;
                Ev_free R_lzstream; Ev_input_stream_close]), full, rest.
    split; [rewrite Ht', <- !app_assoc; reflexivity|].
    split; [apply Hseg; reflexivity|]. repeat split; auto; congruence.
  - exists (pre ++ evs
            ++ [Ev_pixbuf_new_from_stream (stream_bytes (ls_stream ls1)) true;
                Ev_input_stream_close; Ev_lzma_end; Ev_free R_lzstream;
                Ev_free R_xz_buffer; Ev_free R_unxz_buffer]), full, rest.
    split; [rewrite Ht', <- !app_assoc; reflexivity|].
    split; [apply Hseg; reflexivity|]. repeat split; auto.
  - exists (pre ++ evs
            ++ [Ev_pixbuf_new_from_stream (stream_bytes (ls_stream ls1)) false;
                Ev_set_error "Could not create pixbuf from memory stream";
                Ev_free R_xz_buffer; Ev_free R_unxz_buffer;
                Ev_free R_lzstream; Ev_input_stream_close]), full, rest.
    split; [rewrite Ht', <- !app_assoc; reflexivity|].
    split; [apply Hseg; reflexivity|]. repeat split; auto; congruence.
Qed.

End LoadSegments.

Set Default Proof Using "Type".

(** X11: whatever the file and however the call ends, all the segments
    [gdk_pixbuf__load_xz_image] appends to the memory stream are exactly
    [buffer_size] bytes long, the last one apart, which is at most that
    long: the one-shot path drains the scratch buffer only when it is
    full or the stream has ended.  When the call returns an image it has
    appended at least one segment.  This holds for every engine that
    stays within the buffers it is given and a [malloc] that returns
    blocks of the size asked. *)
Theorem load_appends_full_segments_but_the_last fuel file w r w' :
  engine_bounds L ->
  malloc_sized malloc_contents ->
  gdk_pixbuf__load_xz_image malloc_contents fuel file w = Returns r w' ->
  exists full rest,
    segments (events_since w w') = full ++ rest
    /\ Forall (fun seg => Z.of_nat (length seg) = buffer_size) full
    /\ Forall (fun seg => Z.of_nat (length seg) <= buffer_size) rest
    /\ (length rest <= 1)%nat
    /\ (r <> None -> length rest = 1%nat).
Proof.
  intros Hb Hsized Hrun.
  pose proof (run_spec _ _ _ _ _ Hrun (load_segments Hb fuel file w Hsized))
    as (evs & full & rest & Ht & H).
  exists full, rest. rewrite (since _ _ _ Ht). exact H.
Qed.

(** ** Memory safety *)

Local Arguments swp : simpl never.

Lemma swp_ret {A} (a : A) (Q : A -> World L G -> Prop) w :
  Q a w -> swp (ret a) Q w.
Proof. exact (fun H => H). Qed.

Lemma swp_bind {A B} (m : M L G A) (k : A -> M L G B) Q w :
  swp m (fun a w' => swp (k a) Q w') w -> swp (bind m k) Q w.
Proof.
  unfold swp, bind. destruct (m w); auto.
Qed.

Lemma swp_mono {A} (m : M L G A) (Q Q' : A -> World L G -> Prop) w :
  swp m Q w -> (forall a w', Q a w' -> Q' a w') -> swp m Q' w.
Proof.
  unfold swp. destruct (m w); auto.
Qed.

Lemma swp_defined {A} (m : M L G A) Q w : swp m Q w -> m w <> Undefined.
Proof.
  unfold swp. destruct (m w); [discriminate | contradiction | discriminate].
Qed.

Lemma swp_run {A} (m : M L G A) Q w a w' :
  swp m Q w -> m w = Returns a w' -> Q a w'.
Proof.
  unfold swp. intros H E. rewrite E in H. exact H.
Qed.

Lemma swp_emit (e : event G) (Q : unit -> World L G -> Prop) w :
  Q tt (log e w) -> swp (emit e) Q w.
Proof. exact (fun H => H). Qed.

Lemma swp_malloc r n (Q : bool -> World L G -> Prop) w :
  (forall plan,
      Q false {| heap := heap w; alloc_plan := plan; trace := trace w |}) ->
  (forall plan,
      Q true {| heap := heap w; alloc_plan := plan;
                trace := trace w ++ [Ev_malloc r n] |}) ->
  swp (malloc r n) Q w.
Proof.
  intros Hf Ht. unfold swp, malloc.
  destruct (next_alloc (alloc_plan w)) as [[|] plan]; auto.
Qed.

Lemma swp_deref p c (Q : XZImageDecodeContext L G -> World L G -> Prop) w :
  nth_error (heap w) p = Some (Some c) -> Q c w -> swp (deref p) Q w.
Proof.
  intros Hp HQ. unfold swp, deref. rewrite Hp. exact HQ.
Qed.

Lemma swp_assign p c old (Q : unit -> World L G -> Prop) w :
  nth_error (heap w) p = Some (Some old) ->
  Q tt {| heap := list_set (heap w) p (Some c);
          alloc_plan := alloc_plan w; trace := trace w |} ->
  swp (assign p c) Q w.
Proof.
  intros Hp HQ. unfold swp, assign. rewrite Hp. exact HQ.
Qed.

Lemma swp_free_context p old (Q : unit -> World L G -> Prop) w :
  nth_error (heap w) p = Some (Some old) ->
  Q tt {| heap := list_set (heap w) p None;
          alloc_plan := alloc_plan w;
          trace := trace w ++ [Ev_free R_context] |} ->
  swp (free_context p) Q w.
Proof.
  intros Hp HQ. unfold swp, free_context. rewrite Hp. exact HQ.
Qed.

Lemma swp_lzma_code strm out action
  (Q : lzma_ret * lzma_stream L * list byte -> World L G -> Prop) w :
  (internal strm = None ->
   Q (LZMA_PROG_ERROR, strm, out)
     (log (Ev_lzma_code action LZMA_PROG_ERROR []) w)) ->
  (forall d r d' c p,
      internal strm = Some d ->
      lzma_step L d (firstn (Z.to_nat (avail_in strm)) (next_in strm))
        (Z.to_nat (avail_out strm)) action = (r, d', c, p) ->
      Q (r,
         {| next_in := skipn c (next_in strm);
            avail_in := avail_in strm - Z.of_nat c;
            next_out := next_out strm + Z.of_nat (length p);
            avail_out := avail_out strm - Z.of_nat (length p);
            internal := Some d' |},
         write_at out (Z.to_nat (next_out strm)) p)
        (log (Ev_lzma_code action r p) w)) ->
  swp (lzma_code strm out action) Q w.
Proof.
  intros Hn Hs. unfold lzma_code.
  destruct (internal strm) as [d|] eqn:E.
  - destruct (lzma_step L d _ _ action) as [[[r d'] c] p] eqn:Es.
    apply swp_bind, swp_emit, swp_ret. eapply Hs; [reflexivity | exact Es].
  - apply swp_bind, swp_emit, swp_ret. apply Hn. reflexivity.
Qed.

(** One step of symbolic execution; the calls that can be undefined are
    stepped by hand. *)
Ltac swp_step :=
  lazymatch goal with
  | |- swp (ret _) _ _ => apply swp_ret
  | |- swp (bind _ _) _ _ => apply swp_bind
  | |- swp (emit _) _ _ => apply swp_emit
  | |- swp (free _) _ _ => apply swp_emit
  | |- swp (malloc _ _) _ _ => apply swp_malloc; intros ?plan
  | |- swp (if ?b then _ else _) _ _ => destruct b eqn:?
  | |- swp (match ?x with _ => _ end) _ _ => destruct x eqn:?
  end.

Ltac swp_go := repeat (swp_step; simpl).

Section Safety.

Variable cap : Z.
Hypothesis cap_pos : 0 < cap.
Hypothesis cap_small : cap < 2 ^ 64.
Hypothesis bounds : engine_bounds L.

Unset Default Proof Using.

(** A call of the engine, seen from the window. *)
Lemma swp_lzma_code_window win strm buffer lzaction
  (Q : lzma_ret * lzma_stream L * list byte -> World L G -> Prop) w :
  window_at cap win strm buffer ->
  (forall r strm' buffer' p,
      window_at cap (win ++ p) strm' buffer' ->
      Q (r, strm', buffer') (log (Ev_lzma_code lzaction r p) w)) ->
  swp (lzma_code strm buffer lzaction) Q w.
Proof.
  intros Hwin HQ. apply swp_lzma_code.
  - intros _. apply HQ. rewrite app_nil_r. exact Hwin.
  - intros d r d' c p _ Hstep.
    destruct (window_at_step L cap cap_pos bounds _ _ _ _ _ _ _ _ _ Hwin
                Hstep) as [_ Hwin'].
    apply HQ. exact Hwin'.
Qed.

Lemma lzma_code_round_safe context lzaction w win :
  sound cap win context ->
  swp (lzma_code_round context lzaction)
      (fun r w' => heap w' = heap w /\ exists win', sound cap win' (snd r))
      w.
Proof.
  intros [(strm & buffer & Hs & Hb & Hcap & Hwin) Hm].
  destruct (memory_istream context) as [stream|] eqn:Hstream;
    [|congruence].
  unfold lzma_code_round. rewrite Hs, Hb. unfold non_null.
  apply swp_bind, swp_ret, swp_bind, swp_ret, swp_bind.
  eapply swp_lzma_code_window; [exact Hwin|].
  intros r strm' buffer' p Hwin'.
  destruct (window_at_drain L G _ cap_pos cap_small _ _ _ Hwin')
    as [Hsize Hcpy].
  simpl. simpl in Hsize. rewrite Hcap, Hsize.
  destruct (lzma_ret_eqb r LZMA_OK || lzma_ret_eqb r LZMA_STREAM_END).
  - apply swp_bind, swp_malloc; intros plan; simpl.
    + apply swp_ret. split; [reflexivity|]. exists (win ++ p). split.
      * exists strm', buffer'. simpl. auto.
      * simpl. congruence.
    + rewrite Hcpy, Hstream.
      apply swp_bind, swp_ret, swp_bind, swp_ret, swp_bind, swp_emit,
        swp_ret.
      split; [reflexivity|]. exists []. split.
      * exists (set_out strm' 0 cap), buffer'. simpl.
        split; [reflexivity|]. split; [reflexivity|].
        split; [first [reflexivity | exact Hcap]|].
        eapply window_at_reset; [exact cap_pos | exact Hwin'].
      * simpl. discriminate.
  - apply swp_ret. split; [reflexivity|]. exists (win ++ p). split.
    + exists strm', buffer'. simpl. auto.
    + simpl. congruence.
Qed.

Lemma lzma_code_loop_safe fuel : forall context lzaction w win,
  sound cap win context ->
  swp (lzma_code_loop fuel context lzaction)
      (fun r w' => heap w' = heap w /\ exists win', sound cap win' (snd r))
      w.
Proof.
  induction fuel as [|fuel IH]; intros context lzaction w win Hok; simpl.
  - exact I.
  - apply swp_bind.
    eapply swp_mono; [eapply lzma_code_round_safe; exact Hok|].
    intros [[msg|[|]] c1] w1 [Hh (win1 & Hok1)]; simpl in *.
    + apply swp_ret. eauto.
    + eapply swp_mono; [eapply IH; exact Hok1|].
      intros [failure c2] w2 [Hh2 H2]. split; [congruence | exact H2].
    + apply swp_ret. eauto.
Qed.

Lemma lzma_code_safe fuel p buf lzaction w win c :
  nth_error (heap w) p = Some (Some c) ->
  sound cap win c ->
  swp (_gdk_pixbuf__lzma_code fuel p buf lzaction)
      (fun _ w' =>
         exists win' c',
           nth_error (heap w') p = Some (Some c') /\ sound cap win' c') w.
Proof.
  intros Hp [Hok Hm]. unfold _gdk_pixbuf__lzma_code.
  apply swp_bind. eapply swp_deref; [exact Hp|].
  destruct Hok as (strm & buffer & Hs & Hb & Hcap & Hwin).
  rewrite Hs. unfold non_null. apply swp_bind, swp_ret, swp_bind.
  eapply swp_mono.
  { apply lzma_code_loop_safe with (win := win). split.
    - exists (set_in strm buf (Z.of_nat (length buf))), buffer.
      simpl. repeat split; auto; apply Hwin.
    - simpl. exact Hm. }
  intros [failure c'] w1 [Hh (win' & Hok')]; simpl in *.
  apply swp_bind. eapply swp_assign; [rewrite Hh; exact Hp|].
  assert (Hp' : nth_error (list_set (heap w1) p (Some c')) p
                = Some (Some c'))
    by (eapply nth_error_list_set; rewrite Hh; exact Hp).
  destruct failure as [msg|]; simpl.
  - apply swp_bind, swp_emit, swp_ret. exists win', c'. auto.
  - apply swp_ret. exists win', c'. auto.
Qed.

Lemma feed_all_safe fuel p calls : forall w win c,
  nth_error (heap w) p = Some (Some c) ->
  sound cap win c ->
  swp (feed_all fuel p calls)
      (fun _ w' =>
         exists win' c',
           nth_error (heap w') p = Some (Some c') /\ sound cap win' c') w.
Proof.
  induction calls as [|[buf lzaction] calls IH]; intros w win c Hp Hok;
    simpl.
  - apply swp_ret. eauto.
  - apply swp_bind.
    eapply swp_mono; [eapply lzma_code_safe; eassumption|].
    intros r w1 (win1 & c1 & Hp1 & Hok1).
    apply swp_bind. eapply swp_mono; [eapply IH; eassumption|].
    intros rs w2 H2. apply swp_ret. exact H2.
Qed.

Lemma stop_load_safe fuel p w win c :
  nth_error (heap w) p = Some (Some c) ->
  sound cap win c ->
  swp (gdk_pixbuf__stop_load_xz_image fuel p) (fun _ _ => True) w.
Proof.
  intros Hp Hok. unfold gdk_pixbuf__stop_load_xz_image.
  apply swp_bind.
  eapply swp_mono; [eapply lzma_code_safe; eassumption|].
  intros r w1 (win1 & c1 & Hp1 & [(strm & buffer & Hs & _) Hm]).
  destruct (memory_istream c1) as [stream|] eqn:Hstream; [|congruence].
  apply swp_bind. eapply swp_deref; [exact Hp1|].
  rewrite Hs. unfold non_null. apply swp_bind, swp_ret, swp_bind, swp_emit.
  simpl. rewrite Hstream.
  apply swp_bind, swp_ret, swp_bind, swp_emit, swp_bind, swp_emit.
  apply swp_bind. eapply swp_assign; [simpl; exact Hp1|]. simpl.
  destruct (gdk_pixbuf_new_from_stream G (stream_bytes stream)) as [pb|];
    destruct (prepare_func c1), (updated_func c1);
    repeat first [ apply swp_bind | apply swp_emit | apply swp_ret ];
    (eapply swp_free_context;
     [simpl; eapply nth_error_list_set; exact Hp1|]);
    apply swp_ret; exact I.
Qed.

Lemma load_refill_safe (ls : load_state L) w win :
  window_at cap win (ls_strm ls) (ls_unxz_buffer ls) ->
  swp (load_refill ls)
      (fun r _ =>
         window_at cap win (ls_strm (snd r)) (ls_unxz_buffer (snd r))) w.
Proof.
  intros Hwin. unfold load_refill.
  swp_go; simpl; exact Hwin.
Qed.

End Safety.

Section LoadSafety.

Hypothesis bounds : engine_bounds L.

Unset Default Proof Using.

Lemma load_decode_safe (ls : load_state L) w win :
  window_at buffer_size win (ls_strm ls) (ls_unxz_buffer ls) ->
  swp (load_decode ls)
      (fun r _ =>
         exists win',
           window_at buffer_size win' (ls_strm (snd r))
             (ls_unxz_buffer (snd r))) w.
Proof.
  intros Hwin. unfold load_decode.
  apply swp_bind.
  eapply (swp_lzma_code_window buffer_size buffer_size_pos bounds);
    [exact Hwin|].
  intros r strm' buffer' p Hwin'.
  destruct (window_at_drain L G _ buffer_size_pos buffer_size_small _ _ _
              Hwin') as [Hsize Hcpy].
  simpl. rewrite Hsize, Hcpy.
  swp_go; simpl.
  all: eexists;
    first [ exact Hwin'
          | eapply window_at_reset; [exact buffer_size_pos | exact Hwin'] ].
Qed.

Lemma load_loop_safe fuel : forall (ls : load_state L) w win,
  window_at buffer_size win (ls_strm ls) (ls_unxz_buffer ls) ->
  swp (load_loop fuel ls) (fun _ _ => True) w.
Proof.
  induction fuel as [|fuel IH]; intros ls w win Hwin; simpl.
  - exact I.
  - apply swp_bind.
    eapply swp_mono; [eapply load_refill_safe; exact Hwin|].
    intros [[msg|] ls1] w1 Hwin1; simpl in *.
    + apply swp_ret. exact I.
    + apply swp_bind.
      eapply swp_mono; [eapply load_decode_safe; exact Hwin1|].
      intros [[msg|[|]] ls2] w2 (win2 & Hwin2); simpl in *.
      * apply swp_ret. exact I.
      * eapply IH. exact Hwin2.
      * apply swp_ret. exact I.
Qed.

Lemma load_safe fuel file w :
  malloc_sized malloc_contents ->
  swp (gdk_pixbuf__load_xz_image malloc_contents fuel file)
      (fun _ _ => True) w.
Proof.
  intros Hsized.
  unfold gdk_pixbuf__load_xz_image, load_failure.
  swp_go; try exact I.
  eapply swp_mono.
  { eapply load_loop_safe with (win := []).
    unfold window_at; simpl.
    rewrite Hsized by (unfold buffer_size; discriminate).
    pose proof buffer_size_pos.
    repeat split; try reflexivity; lia. }
  intros [failure ls1] w1 _. simpl.
  swp_go; exact I.
Qed.

End LoadSafety.

Set Default Proof Using "Type".

(** X12: once [begin_load] has returned a context, no sequence of calls
    of [_gdk_pixbuf__lzma_code] on it, with any chunks and any actions and
    whether they succeed or fail, and no [stop_load] after them runs into
    undefined behaviour: no NULL or dangling pointer is dereferenced and
    [memcpy] never reads past the scratch buffer, whatever allocations
    fail.  This holds for every engine that stays within the buffers it is
    given and a [malloc] that returns blocks of the size asked. *)
Theorem session_is_memory_safe size_f prepare_f updated_f extra err fuel
  fuel' calls w p w1 :
  engine_bounds L ->
  malloc_sized malloc_contents ->
  gdk_pixbuf__begin_load_xz_image malloc_contents size_f prepare_f updated_f
    extra err w = Returns (Some p) w1 ->
  feed_all fuel p calls w1 <> Undefined
  /\ forall rs w2,
       feed_all fuel p calls w1 = Returns rs w2 ->
       gdk_pixbuf__stop_load_xz_image fuel' p w2 <> Undefined.
Proof.
  intros Hb Hsized Hbegin.
  destruct (twp_returns _ _ _ _ _
              (begin_load_exits size_f prepare_f updated_f extra err w))
    as (r0 & w0 & Hrun & evs0 & Ht0 & H0).
  rewrite Hbegin in Hrun. injection Hrun as <- <-.
  destruct H0 as (-> & (d & Hh) & _).
  assert (Hat : nth_error (heap w1) (length (heap w))
                = Some (Some (opened_context malloc_contents size_f
                                prepare_f updated_f extra err d)))
    by (rewrite Hh; apply nth_error_app_last).
  assert (Hok : sound (Z.shiftl 1 16) []
                  (opened_context (G:=G) malloc_contents size_f prepare_f
                     updated_f extra err d)).
  { split; [|discriminate].
    eexists _, _. split; [reflexivity|]. split; [reflexivity|].
    split; [reflexivity|]. unfold window_at; simpl.
    rewrite Hsized by discriminate. repeat split; try reflexivity.
    discriminate. }
  pose proof (feed_all_safe (Z.shiftl 1 16) eq_refl eq_refl Hb fuel _ calls
                w1 [] _ Hat Hok) as Hfeed.
  split; [exact (swp_defined _ _ _ Hfeed)|].
  intros rs w2 Hrun.
  destruct (swp_run _ _ _ _ _ Hfeed Hrun) as (win' & c' & Hp' & Hok').
  eapply swp_defined.
  eapply (stop_load_safe (Z.shiftl 1 16) eq_refl eq_refl Hb); eassumption.
Qed.

(** X13: [gdk_pixbuf__load_xz_image] never runs into undefined behaviour,
    whatever the file holds, whatever reads and allocations fail: [memcpy]
    never reads past the scratch buffer.  This holds for every engine that
    stays within the buffers it is given and a [malloc] that returns blocks
    of the size asked. *)
Theorem load_is_memory_safe fuel file w :
  engine_bounds L ->
  malloc_sized malloc_contents ->
  gdk_pixbuf__load_xz_image malloc_contents fuel file w <> Undefined.
Proof.
  intros Hb Hsized.
  exact (swp_defined _ _ _ (load_safe Hb fuel file w Hsized)).
Qed.


(** ** A read error *)

Lemma fread_fault n f k :
  f_fault f = Some k ->
  (k < length (f_data f))%nat -> (k < n)%nat ->
  exists f',
    fread n f = (firstn k (f_data f), f')
    /\ f_err f' = true /\ f_eof f' = f_eof f.
Proof.
  intros Hf Hk Hn. unfold fread. rewrite Hf.
  rewrite Nat.min_l by lia.
  destruct (n <=? k)%nat eqn:E; [apply Nat.leb_le in E; lia|].
  assert (Hlt : (k <? length (f_data f))%nat = true)
    by (apply Nat.ltb_lt; exact Hk).
  rewrite Hlt. eexists. split; [reflexivity|]. split; reflexivity.
Qed.

(** X14: when the first read of the file fails after [k] bytes (a short
    read with the error indicator set), [gdk_pixbuf__load_xz_image] calls
    [g_set_error] with [Error reading file with fread] and returns NULL
    without calling the engine on the bytes that were read; it frees its
    three blocks and closes the memory stream, and leaves the engine
    state and the memory stream allocated. *)
Theorem load_stops_at_a_read_error fuel file k d0 w :
  lzma_stream_decoder L UINT64_MAX LZMA_CONCATENATED = (LZMA_OK, d0) ->
  alloc_plan w = [] ->
  f_eof file = false ->
  f_fault file = Some k ->
  (k < length (f_data file))%nat ->
  (k < Z.to_nat buffer_size)%nat ->
  exists w',
    gdk_pixbuf__load_xz_image malloc_contents (S fuel) file w
    = Returns None w'
    /\ events_since w w'
       = [Ev_malloc R_lzstream sizeof_lzma_stream;
          Ev_lzma_stream_decoder LZMA_OK;
          Ev_malloc R_xz_buffer buffer_size;
          Ev_malloc R_unxz_buffer buffer_size;
          Ev_memory_input_stream_new;
          Ev_fread (Z.of_nat k);
          Ev_set_error "Error reading file with fread";
          Ev_free R_xz_buffer; Ev_free R_unxz_buffer; Ev_free R_lzstream;
          Ev_input_stream_close]
    /\ outstanding (events_since w w') = [O_engine; O_stream].
Proof.
  intros Hdec Hplan Heof Hfault Hk Hn.
  destruct (fread_fault _ _ _ Hfault Hk Hn) as (f' & Hread & Herr & _).
  cut (twp (gdk_pixbuf__load_xz_image malloc_contents (S fuel) file)
         (fun r w' =>
            r = None
            /\ trace w' = trace w
               ++ [Ev_malloc R_lzstream sizeof_lzma_stream;
                   Ev_lzma_stream_decoder LZMA_OK;
                   Ev_malloc R_xz_buffer buffer_size;
                   Ev_malloc R_unxz_buffer buffer_size;
                   Ev_memory_input_stream_new;
                   Ev_fread (Z.of_nat k);
                   Ev_set_error "Error reading file with fread";
                   Ev_free R_xz_buffer; Ev_free R_unxz_buffer;
                   Ev_free R_lzstream; Ev_input_stream_close]) w).
  { intros H. apply twp_returns in H.
    destruct H as (r & w' & Hrun & -> & Ht).
    exists w'. rewrite (since _ _ _ Ht). repeat split. exact Hrun. }
  unfold gdk_pixbuf__load_xz_image.
  apply twp_bind, twp_malloc; [exact Hplan|]. cbn [negb].
  rewrite Hdec. apply twp_bind, twp_emit. cbn [lzma_ret_eqb negb].
  apply twp_bind, twp_malloc; [reflexivity|].
  apply twp_bind, twp_malloc; [reflexivity|].
  apply twp_bind, twp_emit, twp_bind.
  cbn [load_loop]. apply twp_bind.
  unfold load_refill. cbn [ls_strm ls_file avail_in set_out set_in].
  unfold feof. rewrite Heof. cbn [Z.eqb negb andb].
  rewrite Hread. apply twp_bind, twp_emit.
  assert (Hshort : (Z.of_nat (length (firstn k (f_data file)))
                    <? buffer_size) = true).
  { apply Z.ltb_lt. rewrite length_firstn. lia. }
  rewrite Hshort. unfold ferror. rewrite Herr. cbn [andb].
  apply twp_ret, twp_ret. cbn beta iota.
  unfold load_failure. cbn [is_some l_xz_buffer l_unxz_buffer l_lzstream
                            l_memory_istream].
  repeat first [ apply twp_bind | apply twp_emit ]. apply twp_ret.
  split; [reflexivity|].
  simpl. rewrite length_firstn, Nat.min_l by lia.
  rewrite <- !app_assoc. reflexivity.
Qed.

(** ** What the one-shot path decodes *)

Lemma engine_outputs_app (t1 t2 : list (event G)) :
  engine_outputs (t1 ++ t2) = engine_outputs t1 ++ engine_outputs t2.
Proof.
  induction t1 as [|e t1 IH]; simpl; [reflexivity|].
  destruct e; simpl; rewrite IH; reflexivity.
Qed.

(** Along a run of the window, what was appended and what the window
    holds is what the window held and what the engine produced. *)
Lemma window_run_outputs cap win (t : list (event G)) win' :
  window_run cap win t win' ->
  accumulated t ++ win' = win ++ concat (engine_outputs t).
Proof.
  unfold accumulated.
  induction 1 as [win|win a r p t win' _ _ IH|win t win' _ IH
                 |win t win' _ IH|win e t win' He Hm Hs _ IH]; simpl.
  - now rewrite app_nil_r.
  - rewrite IH, <- app_assoc. reflexivity.
  - exact IH.
  - rewrite <- app_assoc, IH. reflexivity.
  - destruct e; simpl in *; try exact IH; try discriminate.
    destruct (Hs _ eq_refl).
Qed.

Section LoadOutputs.

Hypothesis bounds : engine_bounds L.

Unset Default Proof Using.

Lemma load_decode_outputs (ls : load_state L) w win :
  window_at buffer_size win (ls_strm ls) (ls_unxz_buffer ls) ->
  wp (load_decode ls)
     (fun r w' =>
        exists evs win',
          trace w' = trace w ++ evs
          /\ window_run buffer_size win evs win'
          /\ window_at buffer_size win' (ls_strm (snd r))
               (ls_unxz_buffer (snd r))
          /\ (fst r = inr false -> win' = [])) w.
Proof.
  intros Hwin. unfold load_decode.
  apply wp_bind.
  eapply (wp_lzma_code_window L G buffer_size buffer_size_pos bounds);
    [exact Hwin|].
  intros r strm' buffer' p Hfit Hwin' _.
  destruct (window_at_drain L G _ buffer_size_pos buffer_size_small _ _ _
              Hwin') as [Hsize Hcpy].
  simpl. rewrite Hsize, Hcpy.
  destruct (avail_out strm' =? 0); destruct r; simpl; wp_go; simpl.
  all: eexists _, _; split; [trace_done|].
  all: split;
    [apply wr_code; [exact Hfit|];
     first [ apply wr_alloc, wr_drain, wr_nil | apply wr_nil ]|].
  all: split;
    [first [ exact Hwin'
           | eapply window_at_reset; [exact buffer_size_pos | exact Hwin'] ]
    | intros; first [reflexivity | discriminate] ].
Qed.

Lemma load_refill_outputs (ls : load_state L) w win :
  window_at buffer_size win (ls_strm ls) (ls_unxz_buffer ls) ->
  wp (load_refill ls)
     (fun r w' =>
        exists evs,
          trace w' = trace w ++ evs
          /\ window_run buffer_size win evs win
          /\ window_at buffer_size win (ls_strm (snd r))
               (ls_unxz_buffer (snd r))) w.
Proof.
  intros Hwin. unfold load_refill.
  wp_go; simpl; (eexists; split; [trace_done|]); (split; [|exact Hwin]).
  all: repeat first [ apply wr_nil
                    | apply wr_other;
                      [reflexivity | discriminate | discriminate |] ].
Qed.

Lemma load_loop_outputs fuel : forall (ls : load_state L) w win,
  window_at buffer_size win (ls_strm ls) (ls_unxz_buffer ls) ->
  wp (load_loop fuel ls)
     (fun r w' =>
        exists evs win',
          trace w' = trace w ++ evs
          /\ window_run buffer_size win evs win'
          /\ (fst r = None -> win' = [])) w.
Proof.
  induction fuel as [|fuel IH]; intros ls w win Hwin; simpl.
  - exact I.
  - apply wp_bind.
    eapply wp_mono; [eapply load_refill_outputs; exact Hwin|].
    intros [[msg|] ls1] w1 (evs1 & Ht1 & Hr1 & Hwin1); simpl in *.
    + apply wp_ret. exists evs1, win. simpl.
      split; [exact Ht1|]. split; [exact Hr1 | discriminate].
    + apply wp_bind.
      eapply wp_mono; [eapply load_decode_outputs; exact Hwin1|].
      intros [[msg|[|]] ls2] w2 (evs2 & win2 & Ht2 & Hr2 & Hwin2 & Hlast);
        simpl in *.
      * apply wp_ret. exists (evs1 ++ evs2), win2. simpl.
        split; [trace_done|].
        split; [eapply window_run_app; eassumption | discriminate].
      * eapply wp_mono; [eapply IH; exact Hwin2|].
        intros [failure ls3] w3 (evs3 & win3 & Ht3 & Hr3 & Hlast3);
          simpl in *.
        exists (evs1 ++ evs2 ++ evs3), win3.
        split; [trace_done|]. split; [|exact Hlast3].
        eapply window_run_app; [exact Hr1|].
        eapply window_run_app; eassumption.
      * apply wp_ret. exists (evs1 ++ evs2), win2. simpl.
        split; [trace_done|].
        split; [eapply window_run_app; eassumption | auto].
Qed.

Lemma load_outputs fuel file w :
  malloc_sized malloc_contents ->
  wp (gdk_pixbuf__load_xz_image malloc_contents fuel file)
     (fun r w' =>
        exists evs lost,
          trace w' = trace w ++ evs
          /\ accumulated evs ++ lost = concat (engine_outputs evs)
          /\ (r <> None -> lost = [])) w.
Proof.
  intros Hsized.
  unfold gdk_pixbuf__load_xz_image, load_failure.
  wp_go; simpl.
  all: try match goal with
           | H : negb (lzma_ret_eqb _ LZMA_OK) = false |- _ =>
               apply negb_false_iff, lzma_ret_eqb_eq in H; subst
           end.
  1-5: eexists _, []; split; [trace_done|];
    split; [reflexivity | reflexivity].
  eapply wp_mono.
  { eapply load_loop_outputs with (win := []).
    unfold window_at; simpl.
    rewrite Hsized by (unfold buffer_size; discriminate).
    pose proof buffer_size_pos.
    repeat split; try reflexivity; lia. }
  intros [failure ls1] w1 (evs & win' & Ht & Hr & Hlast); simpl in *.
  pose proof (window_run_outputs _ _ _ _ Hr) as Hout. simpl in Hout.
  set (pre := [Ev_malloc R_lzstream sizeof_lzma_stream;
               Ev_lzma_stream_decoder LZMA_OK;
               Ev_malloc R_xz_buffer buffer_size;
               Ev_malloc R_unxz_buffer buffer_size;
               Ev_memory_input_stream_new] : list (event G)).
  assert (Ht' : trace w1 = trace w ++ pre ++ evs)
    by (rewrite Ht, <- !app_assoc; reflexivity).
  assert (Hall : forall post,
             segments post = [] -> engine_outputs post = [] ->
             accumulated (pre ++ evs ++ post) ++ win'
             = concat (engine_outputs (pre ++ evs ++ post))).
  { intros post H1 H2.
    rewrite accumulated_around by (reflexivity || exact H1).
    rewrite !engine_outputs_app, H2, app_nil_r. exact Hout. }
  clear Ht. wp_go; simpl.
  - exists (pre ++ evs
            ++ [Ev_set_error s; Ev_free R_xz_buffer; Ev_free R_unxz_buffer;
                Ev_free R_lzstream; Ev_input_stream_close]), win'.
    split; [rewrite Ht', <- !app_assoc; reflexivity|].
    split; [apply Hall; reflexivity | congruence].
  - exists (pre ++ evs
            ++ [Ev_pixbuf_new_from_stream (stream_bytes (ls_stream ls1)) true;
                Ev_input_stream_close; Ev_lzma_end; Ev_free R_lzstream;
                Ev_free R_xz_buffer; Ev_free R_unxz_buffer]), win'.
    split; [rewrite Ht', <- !app_assoc; reflexivity|].
    split; [apply Hall; reflexivity | intros _; apply Hlast; reflexivity].
  - exists (pre ++ evs
            ++ [Ev_pixbuf_new_from_stream (stream_bytes (ls_stream ls1)) false;
                Ev_set_error "Could not create pixbuf from memory stream";
                Ev_free R_xz_buffer; Ev_free R_unxz_buffer;
                Ev_free R_lzstream; Ev_input_stream_close]), win'.
    split; [rewrite Ht', <- !app_assoc; reflexivity|].
    split; [apply Hall; reflexivity | congruence].
Qed.

End LoadOutputs.

Set Default Proof Using "Type".

(** X15: the bytes [gdk_pixbuf__load_xz_image] accumulates in the memory
    stream are always a prefix of what the engine produced over its calls,
    in order, and when the call returns an image they are all of it: the
    image is decoded from exactly the output of the engine.  On a failure
    exit what the scratch buffer still held is lost.  This holds for every
    engine that stays within the buffers it is given and a [malloc] that
    returns blocks of the size asked. *)
Theorem load_decodes_what_the_engine_produced fuel file w r w' :
  engine_bounds L ->
  malloc_sized malloc_contents ->
  gdk_pixbuf__load_xz_image malloc_contents fuel file w = Returns r w' ->
  exists lost,
    accumulated (events_since w w') ++ lost
    = concat (engine_outputs (events_since w w'))
    /\ (r <> None -> lost = []).
Proof.
  intros Hb Hsized Hrun.
  pose proof (run_spec _ _ _ _ _ Hrun (load_outputs Hb fuel file w Hsized))
    as (evs & lost & Ht & H).
  exists lost. rewrite (since _ _ _ Ht). exact H.
Qed.

(** ** The drain at the end of the stream *)

Section LastSegment.

Hypothesis bounds : engine_bounds L.

Unset Default Proof Using.

(** The loop of the one-shot path: its events, its segments and what the
    window holds when it is left. *)
Lemma load_loop_end fuel (ls : load_state L) w win :
  window_at buffer_size win (ls_strm ls) (ls_unxz_buffer ls) ->
  wp (load_loop fuel ls)
     (fun r w' =>
        exists evs full rest win',
          trace w' = trace w ++ evs
          /\ loop_events evs
          /\ segments evs = full ++ rest
          /\ Forall (fun seg => Z.of_nat (length seg) = buffer_size) full
          /\ window_run buffer_size win evs win'
          /\ (fst r = None -> length rest = 1%nat /\ win' = [])) w.
Proof.
  intros Hwin.
  eapply wp_mono;
    [apply wp_conj;
     [apply load_loop_events
     |apply wp_conj;
      [apply (load_loop_segments bounds fuel ls w win Hwin)
      |apply (load_loop_outputs bounds fuel ls w win Hwin)]]|].
  intros [failure ls1] w1
    ((_ & evs & Ht & Hl & _)
     & (evs2 & full & rest & Ht2 & Hs & Hfull & _ & _ & Hlast)
     & (evs3 & win' & Ht3 & Hr & Hend)); simpl in *.
  assert (evs2 = evs) as ->
    by (rewrite Ht in Ht2; apply app_inv_head in Ht2; congruence).
  assert (evs3 = evs) as ->
    by (rewrite Ht in Ht3; apply app_inv_head in Ht3; congruence).
  exists evs, full, rest, win'. repeat split; auto.
Qed.

(** When the one-shot load gets to the image decoder, the last segment
    it appended is what the window held when the engine reported the end
    of the stream; the segments before it are full windows. *)
Lemma load_last_segment fuel file w :
  malloc_sized malloc_contents ->
  wp (gdk_pixbuf__load_xz_image malloc_contents fuel file)
     (fun r w' =>
        exists evs,
          trace w' = trace w ++ evs
          /\ (filter is_image_decode evs <> [] ->
              exists full last,
                segments evs = full ++ [last]
                /\ Forall (fun seg => Z.of_nat (length seg) = buffer_size)
                     full
                /\ concat full ++ last = concat (engine_outputs evs))) w.
Proof.
  intros Hsized.
  unfold gdk_pixbuf__load_xz_image, load_failure.
  wp_go; simpl.
  1-5: eexists; split; [trace_done|]; intros Hd; destruct (Hd eq_refl).
  match goal with
  | H : negb (lzma_ret_eqb _ LZMA_OK) = false |- _ =>
      apply negb_false_iff, lzma_ret_eqb_eq in H; subst
  end.
  eapply wp_mono.
  { eapply load_loop_end with (win := []).
    unfold window_at; simpl.
    rewrite Hsized by (unfold buffer_size; discriminate).
    pose proof buffer_size_pos.
    repeat split; try reflexivity; lia. }
  intros [failure ls1] w1
    (evs & full & rest & win' & Ht & Hl & Hs & Hfull & Hr & Hend);
    simpl in *.
  pose proof (window_run_outputs _ _ _ _ Hr) as Hout. simpl in Hout.
  assert (Ht' : trace w1 = trace w ++ load_opening ++ evs)
    by (rewrite Ht, <- !app_assoc; reflexivity).
  assert (Hlast : forall post,
             failure = None ->
             segments post = [] -> engine_outputs post = [] ->
             exists full0 last,
               segments (load_opening ++ evs ++ post) = full0 ++ [last]
               /\ Forall (fun seg => Z.of_nat (length seg) = buffer_size)
                    full0
               /\ concat full0 ++ last
                  = concat (engine_outputs (load_opening ++ evs ++ post))).
  { intros post Hf H1 H2. destruct (Hend Hf) as [Hlen ->].
    destruct rest as [|last [|]]; try discriminate Hlen.
    exists full, last.
    rewrite segments_around by (reflexivity || exact H1).
    rewrite !engine_outputs_app, H2, app_nil_r.
    change (engine_outputs (G:=G) load_opening) with (@nil (list byte)).
    split; [exact Hs|]. split; [exact Hfull|].
    cbn [app]. rewrite <- Hout. unfold accumulated.
    rewrite Hs, app_nil_r, concat_app. simpl. now rewrite app_nil_r. }
  clear Ht. wp_go; simpl.
  - eexists. split; [rewrite Ht', <- !app_assoc; reflexivity|].
    intros Hd. exfalso. apply Hd.
    rewrite filter_around by apply (loop_events_no_decode _ Hl).
    reflexivity.
  - eexists. split; [rewrite Ht', <- !app_assoc; reflexivity|].
    intros _. apply Hlast; first [assumption | reflexivity].
  - eexists. split; [rewrite Ht', <- !app_assoc; reflexivity|].
    intros _. apply Hlast; first [assumption | reflexivity].
Qed.

End LastSegment.

Set Default Proof Using "Type".

Lemma length_concat_full (full : list (list byte)) n :
  Forall (fun seg => Z.of_nat (length seg) = n) full ->
  Z.of_nat (length (concat full)) = n * Z.of_nat (length full).
Proof.
  induction 1 as [|seg full Hseg _ IH]; simpl; [lia|].
  rewrite length_app. lia.
Qed.

(** C4, as the code has it: neither path looks at the write cursor
    before it drains the window.  On the incremental path, when the
    engine has read the whole input of a call of
    [_gdk_pixbuf__lzma_code] and written nothing, the cursor is 0 and the
    call, with no allocation failing, still allocates a segment, of 0
    bytes, and appends it to the memory stream, whose bytes are
    unchanged.  On the one-shot path, whenever the load gets to the image
    decoder, the segments it has appended are full windows followed by
    one last segment, which holds the rest of what the engine wrote,
    however little: when the engine wrote nothing at all, the one segment
    of the stream is empty. *)
Theorem drain_at_cursor_zero_appends_empty_segment
  cap fuel p buf lzaction context inp0 d r d' stream w
  fuel' file (v : World L G) res v' :
  0 < cap < 2 ^ 64 ->
  nth_error (heap w) p = Some (Some context) ->
  at_rest cap context inp0 d ->
  memory_istream context = Some stream ->
  lzma_step L d buf (Z.to_nat cap) lzaction = (r, d', length buf, []) ->
  r = LZMA_OK \/ r = LZMA_STREAM_END ->
  alloc_plan w = [] ->
  engine_bounds L ->
  malloc_sized malloc_contents ->
  gdk_pixbuf__load_xz_image malloc_contents fuel' file v = Returns res v' ->
  filter is_image_decode (events_since v v') <> [] ->
  (exists context' stream' w',
      _gdk_pixbuf__lzma_code (S fuel) p buf lzaction w = Returns true w'
      /\ events_since w w'
         = [Ev_lzma_code lzaction r []; Ev_malloc R_mem_buffer 0;
            Ev_add_data []]
      /\ nth_error (heap w') p = Some (Some context')
      /\ memory_istream context' = Some stream'
      /\ chunks stream' = chunks stream ++ [[]]
      /\ stream_bytes stream' = stream_bytes stream)
  /\ (exists full last,
        segments (events_since v v') = full ++ [last]
        /\ Forall (fun seg => Z.of_nat (length seg) = buffer_size) full
        /\ concat full ++ last
           = concat (engine_outputs (events_since v v'))
        /\ Z.of_nat (length last)
           = Z.of_nat (length (concat (engine_outputs (events_since v v'))))
             - buffer_size * Z.of_nat (length full))
  /\ (concat (engine_outputs (events_since v v')) = [] ->
      segments (events_since v v') = [[]]).
Proof.
  intros Hcap Hp Hrest Hm Hstep Hr Hplan Hb Hsized Hrun Hdec.
  split.
  { exact (call_with_nothing_written L G cap fuel p buf lzaction context
             inp0 d r d' stream w Hcap Hp Hrest Hm Hstep Hr Hplan). }
  pose proof (run_spec _ _ _ _ _ Hrun (load_last_segment Hb fuel' file v Hsized))
    as (evs & Ht & Hlast).
  rewrite (since _ _ _ Ht) in *.
  destruct (Hlast Hdec) as (full & last & Hs & Hfull & Hcat).
  pose proof (length_concat_full _ _ Hfull) as Hlen.
  split.
  - exists full, last. repeat split; auto.
    rewrite <- Hcat, length_app. lia.
  - intros Hnone. rewrite Hnone in Hcat.
    apply app_eq_nil in Hcat as [Hcf ->].
    rewrite Hcf in Hlen. simpl in Hlen.
    pose proof buffer_size_pos.
    destruct full as [|seg full']; [rewrite Hs; reflexivity|].
    simpl in Hlen. lia.
Qed.

(** ** A session after a step that failed *)

Lemma feed_all_steps fuel p calls : forall w,
  wp (feed_all fuel p calls)
     (fun rs w' =>
        exists evs, trace w' = trace w ++ evs /\ steps calls rs evs) w.
Proof.
  induction calls as [|[buf lzaction] calls IH]; intros w; simpl.
  - apply wp_ret. exists []. split; [now rewrite app_nil_r | constructor].
  - apply wp_bind. eapply wp_mono; [apply lzma_code_shape|].
    intros r w1 (pre & Hpre & H).
    apply wp_bind. eapply wp_mono; [apply IH|].
    intros rs w2 (evs2 & Ht2 & Hsteps).
    apply wp_ret.
    destruct r.
    + destruct H as (Hne & Ht1).
      exists (pre ++ evs2). split; [trace_done|].
      constructor; [constructor; assumption | exact Hsteps].
    + destruct H as (st & out & msg & Ht1 & Hmsg).
      exists ((pre ++ [Ev_lzma_code lzaction st out; Ev_set_error msg])
              ++ evs2).
      split; [rewrite Ht2, Ht1, <- !app_assoc; reflexivity|].
      constructor; [constructor; assumption | exact Hsteps].
Qed.

Lemma twp_wp_conj {A} (m : M L G A) (Q1 Q2 : A -> World L G -> Prop) w :
  twp m Q1 w -> wp m Q2 w -> twp m (fun a w' => Q1 a w' /\ Q2 a w') w.
Proof.
  unfold twp, wp. destruct (m w); auto.
Qed.

Lemma twp_lzma_code_any strm out action
  (Q : lzma_ret * lzma_stream L * list byte -> World L G -> Prop) w :
  (internal strm = None ->
   Q (LZMA_PROG_ERROR, strm, out)
     (log (Ev_lzma_code action LZMA_PROG_ERROR []) w)) ->
  (forall d r d' c p,
      internal strm = Some d ->
      lzma_step L d (firstn (Z.to_nat (avail_in strm)) (next_in strm))
        (Z.to_nat (avail_out strm)) action = (r, d', c, p) ->
      Q (r,
         {| next_in := skipn c (next_in strm);
            avail_in := avail_in strm - Z.of_nat c;
            next_out := next_out strm + Z.of_nat (length p);
            avail_out := avail_out strm - Z.of_nat (length p);
            internal := Some d' |},
         write_at out (Z.to_nat (next_out strm)) p)
        (log (Ev_lzma_code action r p) w)) ->
  twp (lzma_code strm out action) Q w.
Proof.
  intros Hn Hs. unfold lzma_code.
  destruct (internal strm) as [d|] eqn:E.
  - destruct (lzma_step L d _ _ action) as [[[r d'] c] p] eqn:Es.
    apply twp_bind, twp_emit, twp_ret. eapply Hs; [reflexivity | exact Es].
  - apply twp_bind, twp_emit, twp_ret. apply Hn. reflexivity.
Qed.

Section Total.

Variable cap : Z.
Hypothesis cap_pos : 0 < cap.
Hypothesis cap_small : cap < 2 ^ 64.
Hypothesis bounds : engine_bounds L.

Unset Default Proof Using.

Lemma twp_lzma_code_window win strm buffer lzaction
  (Q : lzma_ret * lzma_stream L * list byte -> World L G -> Prop) w :
  window_at cap win strm buffer ->
  (forall r strm' buffer' p,
      window_at cap (win ++ p) strm' buffer' ->
      Q (r, strm', buffer') (log (Ev_lzma_code lzaction r p) w)) ->
  twp (lzma_code strm buffer lzaction) Q w.
Proof.
  intros Hwin HQ. apply twp_lzma_code_any.
  - intros _. apply HQ. rewrite app_nil_r. exact Hwin.
  - intros d r d' c p _ Hstep.
    destruct (window_at_step L cap cap_pos bounds _ _ _ _ _ _ _ _ _ Hwin
                Hstep) as [_ Hwin'].
    apply HQ. exact Hwin'.
Qed.

(** A round of the loop returns from a context that is in order. *)
Lemma lzma_code_round_total context lzaction w win :
  sound cap win context ->
  twp (lzma_code_round context lzaction)
      (fun r w' => heap w' = heap w /\ exists win', sound cap win' (snd r))
      w.
Proof.
  intros [(strm & buffer & Hs & Hb & Hcap & Hwin) Hm].
  destruct (memory_istream context) as [stream|] eqn:Hstream;
    [|congruence].
  unfold lzma_code_round. rewrite Hs, Hb. unfold non_null.
  apply twp_bind, twp_ret, twp_bind, twp_ret, twp_bind.
  eapply twp_lzma_code_window; [exact Hwin|].
  intros r strm' buffer' p Hwin'.
  destruct (window_at_drain L G _ cap_pos cap_small _ _ _ Hwin')
    as [Hsize Hcpy].
  simpl. simpl in Hsize. rewrite Hcap, Hsize.
  destruct (lzma_ret_eqb r LZMA_OK || lzma_ret_eqb r LZMA_STREAM_END).
  - apply twp_bind, twp_malloc_any; intros plan; simpl.
    + apply twp_ret. split; [reflexivity|]. exists (win ++ p). split.
      * exists strm', buffer'. simpl. auto.
      * simpl. congruence.
    + rewrite Hcpy, Hstream.
      apply twp_bind, twp_ret, twp_bind, twp_ret, twp_bind, twp_emit,
        twp_ret.
      split; [reflexivity|]. exists []. split.
      * exists (set_out strm' 0 cap), buffer'. simpl.
        split; [reflexivity|]. split; [reflexivity|].
        split; [first [reflexivity | exact Hcap]|].
        eapply window_at_reset; [exact cap_pos | exact Hwin'].
      * simpl. discriminate.
  - apply twp_ret. split; [reflexivity|]. exists (win ++ p). split.
    + exists strm', buffer'. simpl. auto.
    + simpl. congruence.
Qed.

(** A call without input returns after one round. *)
Lemma lzma_code_flush_total fuel p lzaction w win c :
  nth_error (heap w) p = Some (Some c) ->
  sound cap win c ->
  twp (_gdk_pixbuf__lzma_code (S fuel) p [] lzaction)
      (fun _ w' =>
         exists win' c',
           nth_error (heap w') p = Some (Some c') /\ sound cap win' c') w.
Proof.
  intros Hp [Hok Hm]. unfold _gdk_pixbuf__lzma_code.
  apply twp_bind. eapply twp_deref; [exact Hp|].
  destruct Hok as (strm & buffer & Hs & Hb & Hcap & Hwin).
  rewrite Hs. unfold non_null. apply twp_bind, twp_ret, twp_bind.
  cbn [lzma_code_loop]. apply twp_bind.
  eapply twp_mono.
  { apply twp_wp_conj.
    - apply lzma_code_round_total with (win := win). split.
      + exists (set_in strm [] (Z.of_nat (length (@nil byte)))), buffer.
        simpl. repeat split; auto; apply Hwin.
      + simpl. exact Hm.
    - eapply (lzma_code_round_last _ _ _ _ bounds); reflexivity. }
  intros [[msg|[|]] c'] w1 [[Hh (win' & Hok')] Hlast]; simpl in *.
  - apply twp_ret, twp_bind. eapply twp_assign; [rewrite Hh; exact Hp|].
    apply twp_bind, twp_emit, twp_ret. exists win', c'. split; [|exact Hok'].
    simpl. eapply nth_error_list_set. rewrite Hh. exact Hp.
  - destruct (Hlast eq_refl).
  - apply twp_ret, twp_bind. eapply twp_assign; [rewrite Hh; exact Hp|].
    apply twp_ret. exists win', c'. split; [|exact Hok'].
    simpl. eapply nth_error_list_set. rewrite Hh. exact Hp.
Qed.

(** [stop_load] returns from a context that is in order. *)
Lemma stop_load_total fuel p w win c :
  nth_error (heap w) p = Some (Some c) ->
  sound cap win c ->
  exists r w', gdk_pixbuf__stop_load_xz_image (S fuel) p w = Returns r w'.
Proof.
  intros Hp Hok.
  cut (twp (gdk_pixbuf__stop_load_xz_image (S fuel) p) (fun _ _ => True) w).
  { intros H. apply twp_returns in H. destruct H as (r & w' & H & _).
    eauto. }
  unfold gdk_pixbuf__stop_load_xz_image.
  apply twp_bind.
  eapply twp_mono; [eapply lzma_code_flush_total; eassumption|].
  intros r w1 (win1 & c1 & Hp1 & [(strm & buffer & Hs & _) Hm]).
  destruct (memory_istream c1) as [stream|] eqn:Hstream; [|congruence].
  apply twp_bind. eapply twp_deref; [exact Hp1|].
  rewrite Hs. unfold non_null. apply twp_bind, twp_ret, twp_bind, twp_emit.
  simpl. rewrite Hstream.
  apply twp_bind, twp_ret, twp_bind, twp_emit, twp_bind, twp_emit.
  apply twp_bind. eapply twp_assign; [simpl; exact Hp1|]. simpl.
  destruct (gdk_pixbuf_new_from_stream G (stream_bytes stream)) as [pb|];
    destruct (prepare_func c1), (updated_func c1);
    repeat first [ apply twp_bind | apply twp_emit | apply twp_ret ];
    (eapply twp_free_context;
     [simpl; eapply nth_error_list_set; exact Hp1|]);
    apply twp_ret; exact I.
Qed.

End Total.

Set Default Proof Using "Type".

(** What [stop_load] does after its flush: it calls the image decoder,
    once, on the bytes the memory stream holds, whatever the flush
    returned. *)
Lemma stop_load_decodes_once fuel p w r w' :
  gdk_pixbuf__stop_load_xz_image fuel p w = Returns r w' ->
  exists c data ok,
    nth_error (heap w) p = Some (Some c)
    /\ (forall s0, memory_istream c = Some s0 ->
          data = stream_bytes s0 ++ accumulated (events_since w w'))
    /\ filter is_image_decode (events_since w w')
       = [Ev_pixbuf_new_from_stream data ok]
    /\ (r = true <->
        filter is_set_error (events_since w w') = [] /\ ok = true)
    /\ (ok = false -> callbacks (events_since w w') = []).
Proof.
  intros Hs.
  pose proof (run_spec _ _ _ _ _ Hs (stop_load_spec L G fuel p w)) as H.
  simpl in H.
  destruct H as (c & c' & evs & tail & stream & Hp & _ & Hext & Hm & Hf
                 & Htail & Hr & _ & Ht).
  rewrite (since _ _ _ Ht).
  set (data := stream_bytes stream) in *.
  assert (Hfeed : Forall (fun e => is_feed_event e = true) evs)
    by (eapply Forall_impl; [|exact Hf]; apply decode_event_feed).
  assert (Herr : filter is_set_error evs = []).
  { apply filter_none. eapply Forall_impl; [|exact Hf].
    intros e He. destruct e; try discriminate; reflexivity. }
  exists c, data, (is_some (gdk_pixbuf_new_from_stream G data)).
  split; [exact Hp|]. split; [|split; [|split]].
  - intros s0 Hs0. destruct (Hext _ Hs0) as (s' & Hs' & Hch).
    rewrite Hm in Hs'. injection Hs' as <-.
    rewrite !accumulated_app.
    unfold accumulated at 2 3.
    rewrite segments_tail by exact Htail.
    rewrite segments_closing.
    simpl. rewrite app_nil_r.
    unfold data, stream_bytes, accumulated. rewrite Hch, concat_app.
    reflexivity.
  - rewrite !filter_app, image_decodes_feeds, image_decodes_closing
      by exact Hfeed.
    rewrite (filter_set_error_tail _ is_image_decode tail)
      by first [assumption | reflexivity].
    reflexivity.
  - rewrite !filter_app, Herr, errors_closing, app_nil_r. simpl.
    rewrite Hr. split.
    + intros [-> Hd]. split; [reflexivity|].
      destruct (gdk_pixbuf_new_from_stream G data); [reflexivity|].
      destruct (Hd eq_refl).
    + intros [Hno Hok]. split.
      * destruct Htail as [-> | [msg ->]]; [reflexivity | discriminate].
      * intros Hnone. rewrite Hnone in Hok. discriminate.
  - intros Hok. unfold callbacks. rewrite !filter_app.
    fold (callbacks (closing_events c' data)).
    rewrite callbacks_closing, callbacks_feeds by exact Hfeed.
    rewrite (filter_set_error_tail _ is_callback tail)
      by first [assumption | reflexivity].
    destruct (gdk_pixbuf_new_from_stream G data); [discriminate|].
    reflexivity.
Qed.

(** C6, as the code has it: the session records no Failed state.  Every
    call of [_gdk_pixbuf__lzma_code] runs the engine, whatever the calls
    before it returned; a call that fails ends with a call of
    [g_set_error] and returns FALSE, and leaves the context live.  The
    [stop_load] after any such calls returns: it runs the engine once
    more for its flush and then, whatever the flush returned, calls the
    image decoder, once, on the bytes the session has accumulated.  It
    returns TRUE exactly when its own flush called [g_set_error] not at
    all and the image decoder answered an image, and it invokes no
    callback when the decoder did not. *)
Theorem failed_step_does_not_end_the_session
  size_f prepare_f updated_f extra err fuel fuel' calls w p w1 rs w2 :
  engine_bounds L ->
  malloc_sized malloc_contents ->
  gdk_pixbuf__begin_load_xz_image malloc_contents size_f prepare_f updated_f
    extra err w = Returns (Some p) w1 ->
  feed_all fuel p calls w1 = Returns rs w2 ->
  steps calls rs (events_since w1 w2)
  /\ (exists c, nth_error (heap w2) p = Some (Some c))
  /\ exists r w3 st out data ok,
       gdk_pixbuf__stop_load_xz_image (S fuel') p w2 = Returns r w3
       /\ filter is_lzma_code (events_since w2 w3)
          = [Ev_lzma_code LZMA_FINISH st out]
       /\ filter is_image_decode (events_since w2 w3)
          = [Ev_pixbuf_new_from_stream data ok]
       /\ data = accumulated (events_since w1 w3)
       /\ (r = true <->
           filter is_set_error (events_since w2 w3) = [] /\ ok = true)
       /\ (ok = false -> callbacks (events_since w2 w3) = []).
Proof.
  intros Hb Hsized Hbegin Hfeed.
  destruct (twp_returns _ _ _ _ _
              (begin_load_exits size_f prepare_f updated_f extra err w))
    as (r0 & w0 & Hrun & evs0 & Ht0 & H0).
  rewrite Hbegin in Hrun. injection Hrun as <- <-.
  destruct H0 as (-> & (d & Hh) & _).
  assert (Hat : nth_error (heap w1) (length (heap w))
                = Some (Some (opened_context malloc_contents size_f
                                prepare_f updated_f extra err d)))
    by (rewrite Hh; apply nth_error_app_last).
  assert (Hok : sound (Z.shiftl 1 16) []
                  (opened_context (G:=G) malloc_contents size_f prepare_f
                     updated_f extra err d)).
  { split; [|discriminate].
    eexists _, _. split; [reflexivity|]. split; [reflexivity|].
    split; [reflexivity|]. unfold window_at; simpl.
    rewrite Hsized by discriminate. repeat split; try reflexivity.
    discriminate. }
  pose proof (feed_all_safe (Z.shiftl 1 16) eq_refl eq_refl Hb fuel _ calls
                w1 [] _ Hat Hok) as Hsafe.
  destruct (swp_run _ _ _ _ _ Hsafe Hfeed) as (win' & c' & Hp' & Hok').
  pose proof (run_spec _ _ _ _ _ Hfeed (feed_all_steps fuel _ calls w1))
    as (evs & Ht & Hsteps).
  pose proof (run_spec _ _ _ _ _ Hfeed (feed_all_trace L G fuel _ calls w1))
    as (evs' & Ht' & _ & Hctx).
  assert (evs' = evs) as ->
    by (rewrite Ht in Ht'; apply app_inv_head in Ht'; congruence).
  destruct (Hctx _ Hat) as (c2 & Hp2 & _ & Hext).
  destruct (Hext _ eq_refl) as (s2 & Hm2 & Hch2).
  rewrite (since _ _ _ Ht).
  split; [exact Hsteps|]. split; [eauto|].
  destruct (stop_load_total (Z.shiftl 1 16) eq_refl eq_refl Hb fuel' _ w2
              win' c' Hp' Hok') as (r & w3 & Hstop).
  destruct (stop_load_decodes_once _ _ _ _ _ Hstop)
    as (c3 & data & ok & Hp3 & Hdata & Hdec & Hr & Hcb).
  pose proof (run_spec _ _ _ _ _ Hstop
                (stop_load_single (S fuel') _ w2 Hb))
    as (st & out & evs3 & Ht3 & Hone & _).
  exists r, w3, st, out, data, ok.
  split; [exact Hstop|].
  split; [rewrite (since _ _ _ Ht3); exact Hone|].
  split; [exact Hdec|]. split; [|split; [exact Hr | exact Hcb]].
  rewrite Hp2 in Hp3. injection Hp3 as <-.
  rewrite (Hdata _ Hm2).
  rewrite (since w1 w3 (evs ++ evs3))
    by (rewrite Ht3, Ht, <- app_assoc; reflexivity).
  rewrite (since _ _ _ Ht3), accumulated_app.
  unfold stream_bytes, accumulated at 2. rewrite Hch2. reflexivity.
Qed.

(** ** The end of the stream and the pushes *)

Section Concatenated.

Variable K : concatenated_contract L.

Lemma lzma_code_round_runs_on (ctx : XZImageDecodeContext L G) w :
  running K ctx ->
  wp (lzma_code_round ctx LZMA_RUN)
     (fun r w' =>
        running K (snd r)
        /\ exists evs, trace w' = trace w ++ evs /\ Forall runs_on evs) w.
Proof.
  intros Hrun. unfold lzma_code_round.
  wp_go; simpl.
  all: try match goal with
           | Hs : lzma_step L _ _ _ LZMA_RUN = _,
             Hl : lzstream _ = Some ?strm,
             Hi : internal ?strm = Some _ |- _ =>
               destruct (unfinished_run K _ _ _ _ _ _ _ (Hrun _ _ Hl Hi) Hs)
                 as [Hne Hun]
           end.
  all: split;
    [intros strm0 d0 Hl0 Hi0; simpl in Hl0; injection Hl0 as <-;
     simpl in Hi0; first [ injection Hi0 as <-; assumption
                         | eapply Hrun; eassumption ]
    |eexists; split; [trace_done|]; repeat constructor;
     first [assumption | discriminate]].
Qed.

Lemma lzma_code_loop_runs_on fuel : forall context w,
  running K context ->
  wp (lzma_code_loop fuel context LZMA_RUN)
     (fun r w' =>
        running K (snd r)
        /\ exists evs, trace w' = trace w ++ evs /\ Forall runs_on evs) w.
Proof.
  induction fuel as [|fuel IH]; intros context w Hrun; simpl.
  - exact I.
  - apply wp_bind.
    eapply wp_mono; [apply lzma_code_round_runs_on; exact Hrun|].
    intros [[msg|[|]] c1] w1 (Hrun1 & evs1 & Ht1 & Hf1); simpl in *.
    + apply wp_ret. simpl. eauto.
    + eapply wp_mono; [apply IH; exact Hrun1|].
      intros [failure c2] w2 (Hrun2 & evs2 & Ht2 & Hf2); simpl in *.
      split; [exact Hrun2|]. exists (evs1 ++ evs2).
      split; [trace_done | apply Forall_app; auto].
    + apply wp_ret. simpl. eauto.
Qed.

Lemma push_runs_on fuel p buf w :
  (forall c, nth_error (heap w) p = Some (Some c) -> running K c) ->
  wp (gdk_pixbuf__load_xz_image_increment fuel p buf)
     (fun _ w' =>
        (forall c, nth_error (heap w') p = Some (Some c) -> running K c)
        /\ exists evs, trace w' = trace w ++ evs /\ Forall runs_on evs) w.
Proof.
  intros Hrun.
  unfold gdk_pixbuf__load_xz_image_increment, _gdk_pixbuf__lzma_code.
  wp_go.
  eapply wp_mono.
  { apply lzma_code_loop_runs_on.
    intros strm0 d0 Hl0 Hi0. simpl in Hl0. injection Hl0 as <-.
    simpl in Hi0. eapply (Hrun _ Hderef); eassumption. }
  intros [failure c'] w1 (Hrun1 & evs1 & Ht1 & Hf1); simpl in *.
  assert (Hkeep : forall (h : list (option (XZImageDecodeContext L G))) x,
             nth_error h p = Some x ->
             forall c0,
               nth_error (list_set h p (Some c')) p = Some (Some c0) ->
               running K c0).
  { intros h x Hh c0 Hc0.
    rewrite (nth_error_list_set _ _ _ _ Hh) in Hc0.
    injection Hc0 as <-. exact Hrun1. }
  wp_go; simpl.
  - split; [eapply Hkeep; eassumption|].
    exists (evs1 ++ [Ev_set_error s]). split; [trace_done|].
    apply Forall_app. split; [exact Hf1 | repeat constructor].
  - split; [eapply Hkeep; eassumption|].
    exists evs1. split; [trace_done | exact Hf1].
Qed.

Lemma push_all_runs_on fuel p chunks : forall w,
  (forall c, nth_error (heap w) p = Some (Some c) -> running K c) ->
  wp (push_all fuel p chunks)
     (fun _ w' =>
        (forall c, nth_error (heap w') p = Some (Some c) -> running K c)
        /\ exists evs, trace w' = trace w ++ evs /\ Forall runs_on evs) w.
Proof.
  induction chunks as [|buf chunks IH]; intros w Hrun; simpl.
  - apply wp_ret. split; [exact Hrun|].
    exists []. split; [now rewrite app_nil_r | constructor].
  - apply wp_bind. eapply wp_mono; [apply push_runs_on; exact Hrun|].
    intros r w1 (Hrun1 & evs1 & Ht1 & Hf1).
    apply wp_bind. eapply wp_mono; [apply IH; exact Hrun1|].
    intros rs w2 (Hrun2 & evs2 & Ht2 & Hf2).
    apply wp_ret. split; [exact Hrun2|].
    exists (evs1 ++ evs2). split; [trace_done | apply Forall_app; auto].
Qed.

End Concatenated.


End More.
(** * More runs of the loader on the instance *)

Module MoreRuns.

Import Stored.
Import Runs.

(** The one-shot load of a corrupt file, and of a well-formed file that
    does not hold an image. *)
Abbreviation load_failed :=
  (world_after (gdk_pixbuf__load_xz_image fresh 8%nat (file_of [xff]))
     world0).

(** The one-shot load of a stream with an empty payload. *)
Abbreviation load_empty :=
  (world_after (gdk_pixbuf__load_xz_image fresh 8%nat (file_of [x00]))
     world0).

(** A session in which the fourth allocation fails, the one of the first
    segment: the session is opened, and the push of the whole picture
    fails. *)
Abbreviation short_of_memory :=
  (initial_world [true; true; true; false] (L:=stored) (G:=icon)).

Abbreviation opened_short :=
  (world_after
     (gdk_pixbuf__begin_load_xz_image fresh (Some 1%nat) (Some 2%nat)
        (Some 3%nat) 7%nat None) short_of_memory).

Abbreviation starved :=
  (world_after
     (gdk_pixbuf__load_xz_image_increment 8%nat 0%nat picture_xz)
     opened_short).

Abbreviation finished_starved :=
  (world_after (gdk_pixbuf__stop_load_xz_image 8%nat 0%nat) starved).

Abbreviation load_rejected :=
  (world_after
     (gdk_pixbuf__load_xz_image fresh 8%nat (file_of ["a"%byte; x00]))
     world0).

(** A session that is fed the picture in two chunks and finished. *)
Abbreviation pushed_halves :=
  (world_after (push_all 8%nat 0%nat [picture; [x00]]) opened).

Abbreviation finished_halves :=
  (world_after (gdk_pixbuf__stop_load_xz_image 8%nat 0%nat) pushed_halves).

(** ** The stored-bytes codec on the one-shot path *)

Lemma scan_finish : forall inp bnd room r bnd' c p,
  clean inp = true ->
  scan true bnd inp room LZMA_FINISH = (r, bnd', c, p) ->
  (r = LZMA_STREAM_END /\ c = length inp /\ bnd' = true)
  \/ (r = LZMA_OK /\ ((c < length inp)%nat \/ bnd' = false)).
Proof.
  induction inp as [|b inp IH]; intros bnd room r bnd' c p Hclean H;
    simpl in H.
  - injection H as <- <- <- <-. destruct bnd; simpl; auto.
  - simpl in Hclean. apply andb_prop in Hclean as [Hb Hclean].
    destruct (Byte.eqb b x00).
    + destruct (scan true true inp room LZMA_FINISH)
        as [[[r1 b1] c1] p1] eqn:E.
      injection H as <- <- <- <-.
      destruct (IH _ _ _ _ _ _ Hclean E) as [(-> & -> & ->) | (-> & Hc)].
      * left. auto.
      * right. split; [reflexivity|]. simpl. destruct Hc; [left; lia|auto].
    + destruct (Byte.eqb b xff); [discriminate|].
      destruct room as [|room].
      * injection H as <- <- <- <-. right. split; [reflexivity|].
        left. simpl. lia.
      * destruct (scan true false inp room LZMA_FINISH)
          as [[[r1 b1] c1] p1] eqn:E.
        injection H as <- <- <- <-.
        destruct (IH _ _ _ _ _ _ Hclean E) as [(-> & -> & ->) | (-> & Hc)].
        -- left. auto.
        -- right. split; [reflexivity|]. simpl.
           destruct Hc; [left; lia|auto].
Qed.

Lemma stored_run_ok s d i o inp rest room r d' c p :
  well_formed s -> has_consumed d i o -> s = i ++ inp ++ rest ->
  inp <> [] -> (0 < room)%nat ->
  lzma_step stored d inp room LZMA_RUN = (r, d', c, p) ->
  r = LZMA_OK.
Proof.
  intros [Hclean _] (Hseq & Hconc & Hci & Hbnd & ->) -> Hne Hroom H.
  simpl in H. unfold step in H. rewrite Hseq, Hconc in H.
  destruct (scan true (at_boundary d) inp room LZMA_RUN)
    as [[[r1 b1] c1] p1] eqn:E.
  rewrite !clean_app in Hclean.
  apply andb_prop in Hclean as [_ Hclean].
  apply andb_prop in Hclean as [Hcinp _].
  destruct (scan_clean _ _ _ _ _ _ _ _ Hcinp E) as (Hr & _ & _ & Hprog).
  specialize (Hr eq_refl). specialize (Hprog Hne Hroom).
  subst r1. destruct c1 as [|c1]; [lia|].
  cbn [Nat.eqb andb] in H. injection H as <- _ _ _. reflexivity.
Qed.

Lemma stored_finish_input s d i o inp room r d' c p :
  well_formed s -> has_consumed d i o -> s = i ++ inp ->
  inp <> [] -> (0 < room)%nat ->
  lzma_step stored d inp room LZMA_FINISH = (r, d', c, p) ->
  (c <= length inp)%nat /\ (length p <= room)%nat
  /\ ((r = LZMA_OK /\ (0 < c \/ 0 < length p)%nat
       /\ has_consumed d' (i ++ firstn c inp) (o ++ p))
      \/ (r = LZMA_STREAM_END /\ c = length inp
          /\ o ++ p = payload s)).
Proof.
  intros [Hclean Hend] (Hseq & Hconc & Hci & Hbnd & ->) -> Hne Hroom H.
  simpl in H. unfold step in H. rewrite Hseq, Hconc in H.
  destruct (scan true (at_boundary d) inp room LZMA_FINISH)
    as [[[r1 b1] c1] p1] eqn:E.
  rewrite clean_app in Hclean.
  apply andb_prop in Hclean as [_ Hcinp].
  destruct (scan_clean _ _ _ _ _ _ _ _ Hcinp E) as (_ & Hb & Hp & Hprog).
  specialize (Hprog Hne Hroom).
  pose proof (scan_bounds _ _ _ _ _ _ _ _ _ E) as [Hc Hlen].
  destruct (scan_finish _ _ _ _ _ _ _ Hcinp E)
    as [(-> & Hall & _) | (-> & _)].
  - injection H as <- <- <- <-.
    split; [exact Hc|]. split; [exact Hlen|]. right.
    split; [reflexivity|]. split; [exact Hall|].
    rewrite Hp, Hall, firstn_all, payload_app. reflexivity.
  - destruct c1 as [|c1]; [lia|].
    cbn [Nat.eqb andb] in H. injection H as <- <- <- <-.
    split; [exact Hc|]. split; [exact Hlen|]. left.
    split; [reflexivity|]. split; [left; lia|].
    unfold has_consumed. cbn [seq concatenated at_boundary].
    split; [reflexivity|]. split; [reflexivity|].
    split; [rewrite clean_app, Hci; apply clean_firstn, Hcinp|].
    split; [rewrite ends_stream_app, <- Hbnd; exact Hb|].
    rewrite payload_app, <- Hp. reflexivity.
Qed.

Lemma stored_one_shot : one_shot_contract stored_contract.
Proof.
  constructor.
  - exact stored_run_ok.
  - exact stored_finish_input.
Qed.

(** ** Witnesses *)

Lemma load_calls_g_set_error_once_exactly_when_it_fails_witness :
  callbacks (events_since world0 load_rejected) = []
  /\ exists before message after,
       events_since world0 load_rejected
       = before ++ Ev_set_error message :: after
       /\ In message load_messages
       /\ filter is_set_error before = []
       /\ filter is_set_error after = []
       /\ filter is_image_decode after = []
       /\ (filter is_image_decode before = []
           \/ filter is_image_decode before
              = [Ev_pixbuf_new_from_stream
                   (accumulated (events_since world0 load_rejected)) false])
       /\ (message = "Could not create pixbuf from memory stream"%string
           <-> filter is_image_decode before <> []).
Proof.
  apply (load_calls_g_set_error_once_exactly_when_it_fails stored icon fresh
           8%nat (file_of ["a"%byte; x00]) world0 None).
  run.
Defined.

Lemma load_frees_its_blocks_on_every_exit_witness :
  (In Ev_memory_input_stream_new (events_since world0 load_failed) ->
   outstanding (events_since world0 load_failed)
   = O_engine :: O_stream
     :: repeat O_segment
          (length (segments (events_since world0 load_failed))))
  /\ (~ In Ev_memory_input_stream_new (events_since world0 load_failed) ->
      In (Ev_lzma_stream_decoder LZMA_OK) (events_since world0 load_failed) ->
      outstanding (events_since world0 load_failed) = [O_engine])
  /\ (~ In (Ev_lzma_stream_decoder LZMA_OK)
          (events_since world0 load_failed) ->
      outstanding (events_since world0 load_failed) = []).
Proof.
  apply (load_frees_its_blocks_on_every_exit stored icon fresh 8%nat
           (file_of [xff]) world0 None).
  run.
Defined.

Lemma lzma_code_fails_right_after_an_engine_call_witness :
  (exists st out,
      In (Ev_lzma_code LZMA_RUN st out) (events_since pushed_plain failed))
  /\ exists pre st out msg,
       events_since pushed_plain failed
       = pre ++ [Ev_lzma_code LZMA_RUN st out; Ev_set_error msg]
       /\ filter is_set_error pre = []
       /\ ((msg = "Error with lzma decode"%string /\ ~ drains st)
           \/ (msg = "Error allocating buffer"%string /\ drains st)).
Proof.
  apply (lzma_code_fails_right_after_an_engine_call stored icon 8%nat 0%nat
           [xff] LZMA_RUN pushed_plain false failed).
  run.
Defined.

Lemma pushes_append_what_the_engine_produced_witness :
  exists calls,
    events_since opened pushed_halves
    = concat (map (round_events LZMA_RUN) calls)
    /\ Forall (fun call => drains (fst call)) calls
    /\ accumulated (events_since opened pushed_halves)
       = concat (map snd calls)
    /\ (2 <= length calls)%nat.
Proof.
  apply (pushes_append_what_the_engine_produced stored icon fresh
           (Some 1%nat) (Some 2%nat) (Some 3%nat) 7%nat None 8%nat
           [picture; [x00]] world0 0%nat opened [true; true] pushed_halves
           stored_bounds fresh_sized).
  - run.
  - run.
  - repeat constructor.
Defined.

Lemma finish_calls_the_engine_once_witness :
  exists st out,
    filter is_lzma_code (events_since pushed_halves finished_halves)
    = [Ev_lzma_code LZMA_FINISH st out]
    /\ (length (segments (events_since pushed_halves finished_halves)) <= 1)%nat
    /\ (~ drains st ->
        true = false
        /\ segments (events_since pushed_halves finished_halves) = []).
Proof.
  apply (finish_calls_the_engine_once stored icon 8%nat 0%nat pushed_halves
           true finished_halves stored_bounds).
  run.
Defined.

Lemma finished_session_leaves_the_stream_allocated_witness :
  outstanding (events_since world0 opened)
  = [O_block R_context; O_block R_lzstream; O_engine;
     O_block R_unxz_buffer; O_stream]
  /\ outstanding (events_since world0 pushed_halves)
     = outstanding (events_since world0 opened)
       ++ repeat O_segment
            (length (segments (events_since opened pushed_halves)))
  /\ outstanding (events_since world0 finished_halves)
     = O_stream
       :: repeat O_segment
            (length (segments (events_since opened finished_halves))).
Proof.
  apply (finished_session_leaves_the_stream_allocated stored icon fresh
           (Some 1%nat) (Some 2%nat) (Some 3%nat) 7%nat None 8%nat 8%nat
           [picture; [x00]] world0 0%nat opened [true; true] pushed_halves
           true finished_halves).
  - run.
  - run.
  - run.
Defined.

Lemma session_touches_only_its_context_witness :
  same_but 0%nat opened pushed_halves
  /\ same_but 0%nat opened finished_halves
  /\ nth_error (heap finished_halves) 0%nat = Some None.
Proof.
  apply (session_touches_only_its_context stored icon 8%nat 8%nat 0%nat
           [picture; [x00]] opened [true; true] pushed_halves true
           finished_halves).
  - run.
  - run.
Defined.

Lemma session_over_valid_file_decodes_its_payload_witness :
  exists rs w',
    session fresh 20%nat (Some 1%nat) (Some 2%nat) (Some 3%nat) 7%nat
      (map (fun b => [b]) picture_xz) world0
    = Returns
        (Some (rs, is_some (decode_image (plain stored_contract picture_xz))))
        w'
    /\ Forall (fun b => b = true) rs
    /\ filter is_set_error (events_since world0 w') = []
    /\ filter is_image_decode (events_since world0 w')
       = [Ev_pixbuf_new_from_stream (G:=icon)
            (plain stored_contract picture_xz)
            (is_some (decode_image (plain stored_contract picture_xz)))]
    /\ callbacks (events_since world0 w')
       = match decode_image (plain stored_contract picture_xz) with
         | None => []
         | Some pb =>
             [Ev_prepared (G:=icon) 2%nat pb 7%nat]
             ++ [Ev_updated (G:=icon) 3%nat pb 0 0 (width pb) (height pb)
                   7%nat]
         end
    /\ outstanding (events_since world0 w')
       = O_stream
         :: repeat O_segment (length (segments (events_since world0 w'))).
Proof.
  apply (session_over_valid_file_decodes_its_payload stored icon fresh
           stored_contract picture_xz 20%nat (Some 1%nat) (Some 2%nat)
           (Some 3%nat) 7%nat (map (fun b => [b]) picture_xz) world0).
  - exact fresh_sized.
  - split; reflexivity.
  - reflexivity.
  - repeat constructor; discriminate.
  - reflexivity.
  - apply Nat.ltb_lt. reflexivity.
Defined.

Lemma load_of_valid_file_decodes_its_payload_witness :
  exists w',
    gdk_pixbuf__load_xz_image fresh 20%nat (unread picture_xz) world0
    = Returns (decode_image (plain stored_contract picture_xz)) w'
    /\ accumulated (events_since world0 w')
       = plain stored_contract picture_xz
    /\ filter is_image_decode (events_since world0 w')
       = [Ev_pixbuf_new_from_stream (G:=icon)
            (plain stored_contract picture_xz)
            (is_some (decode_image (plain stored_contract picture_xz)))]
    /\ filter is_set_error (events_since world0 w')
       = match decode_image (plain stored_contract picture_xz) with
         | Some _ => []
         | None =>
             [Ev_set_error "Could not create pixbuf from memory stream"]
         end.
Proof.
  apply (load_of_valid_file_decodes_its_payload stored icon fresh
           stored_contract picture_xz 20%nat world0).
  - exact stored_one_shot.
  - exact fresh_sized.
  - split; reflexivity.
  - reflexivity.
  - apply Nat.ltb_lt. reflexivity.
Defined.

(** The one-shot load of the picture, and of a file whose third byte
    cannot be read. *)
Abbreviation load_done :=
  (world_after (gdk_pixbuf__load_xz_image fresh 20%nat (file_of picture_xz))
     world0).

Abbreviation damaged :=
  {| f_data := picture_xz; f_eof := false; f_err := false;
     f_fault := Some 2%nat |}.

Lemma load_appends_full_segments_but_the_last_witness :
  exists full rest,
    segments (events_since world0 load_done) = full ++ rest
    /\ Forall (fun seg => Z.of_nat (length seg) = buffer_size) full
    /\ Forall (fun seg => Z.of_nat (length seg) <= buffer_size) rest
    /\ (length rest <= 1)%nat
    /\ (decode_image picture <> None -> length rest = 1%nat).
Proof.
  apply (load_appends_full_segments_but_the_last stored icon fresh 20%nat
           (file_of picture_xz) world0 (decode_image picture)).
  - exact stored_bounds.
  - exact fresh_sized.
  - run.
Defined.

Lemma session_is_memory_safe_witness :
  feed_all 8%nat 0%nat [(picture, LZMA_RUN); ([xff], LZMA_RUN);
                        ([x00], LZMA_FINISH); ([], LZMA_RUN)] opened
  <> Undefined
  /\ forall rs w2,
       feed_all 8%nat 0%nat [(picture, LZMA_RUN); ([xff], LZMA_RUN);
                             ([x00], LZMA_FINISH); ([], LZMA_RUN)] opened
       = Returns rs w2 ->
       gdk_pixbuf__stop_load_xz_image 8%nat 0%nat w2 <> Undefined.
Proof.
  apply (session_is_memory_safe stored icon fresh (Some 1%nat) (Some 2%nat)
           (Some 3%nat) 7%nat None 8%nat 8%nat
           [(picture, LZMA_RUN); ([xff], LZMA_RUN);
            ([x00], LZMA_FINISH); ([], LZMA_RUN)] world0 0%nat opened).
  - exact stored_bounds.
  - exact fresh_sized.
  - run.
Defined.

Lemma load_is_memory_safe_witness :
  gdk_pixbuf__load_xz_image fresh 20%nat (file_of [xff]) world0
  <> Undefined.
Proof.
  apply (load_is_memory_safe stored icon fresh 20%nat (file_of [xff])
           world0).
  - exact stored_bounds.
  - exact fresh_sized.
Defined.

Lemma load_stops_at_a_read_error_witness :
  exists w',
    gdk_pixbuf__load_xz_image fresh 1%nat damaged world0 = Returns None w'
    /\ events_since world0 w'
       = [Ev_malloc R_lzstream sizeof_lzma_stream;
          Ev_lzma_stream_decoder LZMA_OK;
          Ev_malloc R_xz_buffer buffer_size;
          Ev_malloc R_unxz_buffer buffer_size;
          Ev_memory_input_stream_new;
          Ev_fread 2;
          Ev_set_error "Error reading file with fread";
          Ev_free R_xz_buffer; Ev_free R_unxz_buffer; Ev_free R_lzstream;
          Ev_input_stream_close]
    /\ outstanding (events_since world0 w') = [O_engine; O_stream].
Proof.
  eapply (load_stops_at_a_read_error stored icon fresh 0%nat damaged 2%nat
            _ world0).
  - reflexivity.
  - reflexivity.
  - reflexivity.
  - reflexivity.
  - simpl. lia.
  - change buffer_size with 1048576%Z. lia.
Defined.

Lemma load_decodes_what_the_engine_produced_witness :
  exists lost,
    accumulated (events_since world0 load_done) ++ lost
    = concat (engine_outputs (events_since world0 load_done))
    /\ (decode_image picture <> None -> lost = []).
Proof.
  apply (load_decodes_what_the_engine_produced stored icon fresh 20%nat
           (file_of picture_xz) world0 (decode_image picture)).
  - exact stored_bounds.
  - exact fresh_sized.
  - run.
Defined.

(** ** The codec under [LZMA_RUN] *)

Lemma scan_run : forall inp bnd room r bnd' c p,
  scan true bnd inp room LZMA_RUN = (r, bnd', c, p) ->
  r = LZMA_OK \/ r = LZMA_DATA_ERROR.
Proof.
  induction inp as [|b inp IH]; intros bnd room r bnd' c p H; simpl in H.
  - injection H as <- _ _ _. auto.
  - destruct (Byte.eqb b x00).
    + destruct (scan true true inp room LZMA_RUN) as [[[r1 b1] c1] p1] eqn:E.
      injection H as <- _ _ _. eapply IH, E.
    + destruct (Byte.eqb b xff); [injection H as <- _ _ _; auto|].
      destruct room as [|room]; [injection H as <- _ _ _; auto|].
      destruct (scan true false inp room LZMA_RUN)
        as [[[r1 b1] c1] p1] eqn:E.
      injection H as <- _ _ _. eapply IH, E.
Qed.

(** The codec does not report the end of the stream before it is given
    [LZMA_FINISH]. *)
Definition still_running (d : state) : Prop :=
  seq d <> Ended /\ concatenated d = true.

Lemma stored_unfinished_init r d :
  lzma_stream_decoder stored UINT64_MAX LZMA_CONCATENATED = (r, Some d) ->
  still_running d.
Proof.
  intros H. injection H as _ <-. split; [discriminate | reflexivity].
Qed.

Lemma stored_unfinished_run d inp room r d' c p :
  still_running d ->
  lzma_step stored d inp room LZMA_RUN = (r, d', c, p) ->
  r <> LZMA_STREAM_END /\ still_running d'.
Proof.
  intros [Hseq Hconc] H. simpl in H. unfold step in H.
  destruct (seq d) eqn:Es.
  - rewrite Hconc in H.
    destruct (scan true (at_boundary d) inp room LZMA_RUN)
      as [[[r1 b1] c1] p1] eqn:E.
    destruct (scan_run _ _ _ _ _ _ _ E) as [-> | ->].
    + destruct ((c1 =? 0)%nat && (length p1 =? 0)%nat);
        [destruct (allow_buf_error d)|];
        injection H as <- <- _ _; simpl;
        (split; [discriminate | split; [discriminate | reflexivity]]).
    + injection H as <- <- _ _; simpl.
      split; [discriminate | split; [discriminate | reflexivity]].
  - destruct (Hseq eq_refl).
  - injection H as <- <- _ _.
    split; [discriminate | split; [congruence | exact Hconc]].
Qed.

Definition stored_concatenated : concatenated_contract stored :=
  @Build_concatenated_contract stored still_running stored_unfinished_init
    stored_unfinished_run.

(** ** C3 *)



(** ** C4 *)

Lemma drain_at_cursor_zero_appends_empty_segment_witness :
  (exists context' stream' w',
      _gdk_pixbuf__lzma_code 8%nat 0%nat [x00] LZMA_RUN opened
      = Returns true w'
      /\ events_since opened w'
         = [Ev_lzma_code LZMA_RUN LZMA_OK []; Ev_malloc R_mem_buffer 0;
            Ev_add_data []]
      /\ nth_error (heap w') 0%nat = Some (Some context')
      /\ memory_istream context' = Some stream'
      /\ chunks stream' = chunks g_memory_input_stream_new ++ [[]]
      /\ stream_bytes stream' = stream_bytes g_memory_input_stream_new)
  /\ (exists full last,
        segments (events_since world0 load_empty) = full ++ [last]
        /\ Forall (fun seg => Z.of_nat (length seg) = buffer_size) full
        /\ concat full ++ last
           = concat (engine_outputs (events_since world0 load_empty))
        /\ Z.of_nat (length last)
           = Z.of_nat
               (length
                  (concat (engine_outputs (events_since world0 load_empty))))
             - buffer_size * Z.of_nat (length full))
  /\ (concat (engine_outputs (events_since world0 load_empty)) = [] ->
      segments (events_since world0 load_empty) = [[]]).
Proof.
  apply (drain_at_cursor_zero_appends_empty_segment stored icon fresh
           (Z.shiftl 1 16) 7%nat 0%nat [x00] LZMA_RUN _ [] (start true)
           LZMA_OK
           {| seq := Running; concatenated := true; at_boundary := true;
              allow_buf_error := false |}
           g_memory_input_stream_new opened
           8%nat (file_of [x00]) world0 None load_empty
           window_bounds opened_heap
           (opened_at_rest stored icon fresh _ _ _ _ _ _ fresh_sized)).
  - reflexivity.
  - vm_compute. reflexivity.
  - left. reflexivity.
  - vm_compute. reflexivity.
  - exact stored_bounds.
  - exact fresh_sized.
  - run.
  - vm_compute. discriminate.
Defined.

(** ** C6 *)

(** C6 fails on the code.  The allocation of the segment fails in the
    push of the whole picture: the push calls [g_set_error] and returns
    FALSE.  The finish that follows does not return that failure: it runs
    the engine again, which reports the end of the stream, drains the
    window the failed push had left, runs the image decoder, invokes
    both callbacks on the image, and returns TRUE. *)
Lemma failed_session_ends_with_true :
  value_of (gdk_pixbuf__load_xz_image_increment 8%nat 0%nat picture_xz
              opened_short) = Some false
  /\ events_since opened_short starved
     = [Ev_lzma_code LZMA_RUN LZMA_OK picture;
        Ev_set_error "Error allocating buffer"]
  /\ value_of (gdk_pixbuf__stop_load_xz_image 8%nat 0%nat starved)
     = Some true
  /\ events_since starved finished_starved
     = [Ev_lzma_code LZMA_FINISH LZMA_STREAM_END [];
        Ev_malloc R_mem_buffer 5; Ev_add_data picture;
        Ev_lzma_end;
        Ev_pixbuf_new_from_stream picture true;
        Ev_input_stream_close;
        Ev_prepared (G:=icon) 2 {| width := 2; height := 1 |} 7%nat;
        Ev_updated (G:=icon) 3 {| width := 2; height := 1 |} 0 0 2 1 7%nat;
        Ev_object_unref; Ev_free R_lzstream; Ev_free R_unxz_buffer;
        Ev_free R_context].
Proof.
  vm_compute. repeat split.
Qed.

Lemma failed_step_does_not_end_the_session_witness :
  steps [(picture_xz, LZMA_RUN)] [false] (events_since opened_short starved)
  /\ (exists c, nth_error (heap starved) 0%nat = Some (Some c))
  /\ exists r w3 st out data ok,
       gdk_pixbuf__stop_load_xz_image 8%nat 0%nat starved = Returns r w3
       /\ filter is_lzma_code (events_since starved w3)
          = [Ev_lzma_code LZMA_FINISH st out]
       /\ filter is_image_decode (events_since starved w3)
          = [Ev_pixbuf_new_from_stream data ok]
       /\ data = accumulated (events_since opened_short w3)
       /\ (r = true <->
           filter is_set_error (events_since starved w3) = [] /\ ok = true)
       /\ (ok = false -> callbacks (events_since starved w3) = []).
Proof.
  apply (failed_step_does_not_end_the_session stored icon fresh
           (Some 1%nat) (Some 2%nat) (Some 3%nat) 7%nat None 8%nat 7%nat
           [(picture_xz, LZMA_RUN)] short_of_memory 0%nat opened_short
           [false] starved stored_bounds fresh_sized).
  - run.
  - run.
Defined.

End MoreRuns.
